(** * Lexical merge engine of scripts/build_es_dictionary.py

    A shallow embedding of the dictionary builder: the tag decoder
    ([parse_freeling_candidate]), the candidate selector
    ([select_best_candidate]), the curated parser
    ([parse_current_dictionary]), the frequency normalizer
    ([load_doozan_frequency]), the noise heuristics and the merge
    ([is_probable_unaccented_verb_variant], [merge_entries],
    [assign_frequencies]), the validator and the driver ([validate],
    [write_output], [build], [main]).

    Python values are modelled as follows.
    - [str] is a list of Unicode code points ([list N]); comparison of
      strings and of tuples is the lexicographic order ([lexico]).
    - [int] is [Z].
    - a [dict] that the program iterates is an insertion-ordered association
      list with unique keys ([dict_get], [dict_set]); the statistics
      dictionary, which is only indexed, is a [gmap string Z].
    - [Entry] objects are mutable and shared between dictionaries: they live
      in a store ([heap], a list indexed by location) and dictionaries hold
      locations.
    - a raised exception is the [Raise] case of [result]. *)

From Stdlib Require Import ZArith NArith List Ascii String Lia.
From Stdlib Require Import Floats.PrimFloat Floats.SpecFloat Floats.FloatOps.
From stdpp Require Import base tactics option list numbers gmap strings lexico sorting pretty.

Local Open Scope Z_scope.

(** ** Strings *)

Abbreviation pystr := (list N).

(** A string literal of the source; every literal used below is ASCII
    except the accented vowels, which are given by code point. *)
Fixpoint lit (s : string) : pystr :=
  match s with
  | EmptyString => []
  | String a s' => N_of_ascii a :: lit s'
  end.

Global Arguments lit : simpl never.

Definition str_eqb (a b : pystr) : bool := bool_decide (a = b).

(** [a < b] on Python values whose order is lexicographic. *)
Definition lexico_ltb `{Lexico A, !TrichotomyT (@lexico A _)} (a b : A) : bool :=
  match trichotomyT lexico a b with
  | inleft (left _) => true
  | _ => false
  end.

(** [s.startswith(p)] *)
Fixpoint startswith (s p : pystr) : bool :=
  match p, s with
  | [], _ => true
  | _ :: _, [] => false
  | c :: p', d :: s' => bool_decide (c = d) && startswith s' p'
  end.

(** [ch.isspace()] for one code point (the characters CPython treats as
    whitespace). *)
Definition isspace (c : N) : bool :=
  ((9 <=? c) && (c <=? 13) || (28 <=? c) && (c <=? 32)
   || (c =? 133) || (c =? 160) || (c =? 5760)
   || (8192 <=? c) && (c <=? 8202)
   || (c =? 8232) || (c =? 8233) || (c =? 8239) || (c =? 8287)
   || (c =? 12288))%N.

Fixpoint lstrip_by (p : N -> bool) (s : pystr) : pystr :=
  match s with
  | [] => []
  | c :: s' => if p c then lstrip_by p s' else s
  end.

Definition rstrip_by (p : N -> bool) (s : pystr) : pystr :=
  reverse (lstrip_by p (reverse s)).

(** [s.strip()] and [s.rstrip(chars)] *)
Definition strip (s : pystr) : pystr := rstrip_by isspace (lstrip_by isspace s).
Definition rstrip_chars (chars : pystr) (s : pystr) : pystr :=
  rstrip_by (fun c => bool_decide (c ∈ chars)) s.

(** [s.split()]: the maximal runs of non-whitespace characters. *)
Fixpoint split_ws_go (cur : pystr) (s : pystr) : list pystr :=
  match s with
  | [] => match cur with [] => [] | _ => [reverse cur] end
  | c :: s' =>
      if isspace c
      then match cur with
           | [] => split_ws_go [] s'
           | _ => reverse cur :: split_ws_go [] s'
           end
      else split_ws_go (c :: cur) s'
  end.
Definition split_ws (s : pystr) : list pystr := split_ws_go [] s.

(** The text before the first [sep] and, when there is one, the text after. *)
Fixpoint break_at (sep : N) (s : pystr) : pystr * option pystr :=
  match s with
  | [] => ([], None)
  | c :: s' =>
      if bool_decide (c = sep) then ([], Some s')
      else let '(a, b) := break_at sep s' in (c :: a, b)
  end.

(** [s.split(sep, maxsplit)] for a one-character separator. *)
Fixpoint split_sep (sep : N) (maxsplit : nat) (s : pystr) : list pystr :=
  match maxsplit with
  | O => [s]
  | S m =>
      match break_at sep s with
      | (a, None) => [a]
      | (a, Some b) => a :: split_sep sep m b
      end
  end.

(** [text[idx] if idx < len(text) else ""] *)
Definition char_at (text : pystr) (idx : nat) : pystr :=
  match text !! idx with
  | Some c => [c]
  | None => []
  end.

(** Truth value of a string: [not s] holds of the empty string only. *)
Definition is_empty (s : pystr) : bool :=
  match s with [] => true | _ => false end.

(** ** Exceptions *)

Inductive exn :=
| KeyError (key : string)
| ValueError
| OverflowError
| ZeroDivisionError
| RuntimeError (msg : pystr).

Inductive result (A : Type) :=
| Ok (a : A)
| Raise (e : exn).
Arguments Ok {A} a.
Arguments Raise {A} e.

Global Instance result_ret : MRet result := @Ok.
Global Instance result_bind : MBind result := λ A B k m,
  match m with
  | Ok a => k a
  | Raise e => Raise e
  end.

(** Monadic left fold: a [for] loop whose body may raise. *)
Fixpoint foldM {S X} (step : S -> X -> result S) (s : S) (l : list X) : result S :=
  match l with
  | [] => Ok s
  | x :: l' => s' ← step s x; foldM step s' l'
  end.

(** ** Dictionaries *)

(** Insertion-ordered dictionary with keys [K]. *)
Abbreviation dict K V := (list (K * V)).

Section Dict.
  Context {K V : Type} `{EqDecision K}.

  (** [d.get(k)] *)
Fixpoint dict_get (k : K) (d : dict K V) : option V :=
    match d with
    | [] => None
    | (k', v) :: d' => if decide (k = k') then Some v else dict_get k d'
    end.

  (** [d[k] = v]: an existing key keeps its position, a new key goes last. *)
Fixpoint dict_set (k : K) (v : V) (d : dict K V) : dict K V :=
    match d with
    | [] => [(k, v)]
    | (k', v') :: d' =>
        if decide (k = k') then (k', v) :: d' else (k', v') :: dict_set k v d'
    end.

  (** [k in d] *)
Definition dict_mem (k : K) (d : dict K V) : bool :=
    match dict_get k d with Some _ => true | None => false end.

Definition dict_keys (d : dict K V) : list K := d.*1.
Definition dict_values (d : dict K V) : list V := d.*2.
End Dict.

(** The statistics counters: [stats[k] += 1] raises [KeyError] when the
    counter was not initialised. *)
Abbreviation stats_t := (gmap string Z).

Definition bump (k : string) (stats : stats_t) : result stats_t :=
  match stats !! k with
  | Some n => Ok (<[k := n + 1]> stats)
  | None => Raise (KeyError k)
  end.

(** ** Data model *)

Record Entry := mkEntry {
  e_word : pystr;
  e_category : pystr;
  e_gender : pystr;
  e_number : pystr;
  e_lemma : pystr;
  e_frequency : Z;
  e_source : pystr  (* current|freeling *)
}.

Record Candidate := mkCandidate {
  c_word : pystr;
  c_lemma : pystr;
  c_category : pystr;
  c_gender : pystr;
  c_number : pystr;
  c_tag : pystr;
  c_source_file : pystr
}.

Global Instance Entry_inhabited : Inhabited Entry :=
  populate (mkEntry [] [] [] [] [] 0 []).
Global Instance Entry_eq_dec : EqDecision Entry.
Proof. solve_decision. Defined.
Global Instance Candidate_eq_dec : EqDecision Candidate.
Proof. solve_decision. Defined.

Definition CATEGORY_PRIORITY : dict pystr Z :=
  [ (lit "sustantivo", 1); (lit "adjetivo", 2); (lit "adverbio", 3);
    (lit "articulo", 4); (lit "determinante", 5); (lit "pronombre", 6);
    (lit "preposicion", 7); (lit "conjuncion", 8); (lit "verbo", 9);
    (lit "otro", 10) ].

(** ** Candidate selector *)

Abbreviation score_t := (Z * Z * pystr * pystr * pystr * pystr * pystr)%type.

Definition specificity (c : Candidate) : Z :=
  (if bool_decide (c_gender c <> lit "_") then 1 else 0)
  + (if bool_decide (c_number c <> lit "_") then 1 else 0).

Definition score (c : Candidate) : score_t :=
  ( default 999 (dict_get (c_category c) CATEGORY_PRIORITY),
    - specificity c,
    c_category c,
    c_gender c,
    c_number c,
    c_lemma c,
    c_tag c ).

(** [min(iterable, key=key)]: the first element whose key is smallest;
    [ValueError] on an empty iterable. *)
Section Min.
  Context {A T : Type} `{Lexico T, !TrichotomyT (@lexico T _)} (key : A -> T).

Fixpoint min_from (best : A) (rest : list A) : A :=
    match rest with
    | [] => best
    | x :: rest' =>
        if lexico_ltb (key x) (key best) then min_from x rest' else min_from best rest'
    end.

Definition py_min (l : list A) : result A :=
    match l with
    | [] => Raise ValueError
    | x :: rest => Ok (min_from x rest)
    end.
End Min.

Definition select_best_candidate (candidates : list Candidate) : result Candidate :=
  py_min score candidates.


(** ** The store of Entry objects *)

Abbreviation loc := nat.
Abbreviation heap := (list Entry).

(** [Entry(...)]: a new object, at the next free location. *)
Definition alloc (e : Entry) (h : heap) : heap * loc := (h ++ [e], length h).

Definition set_lemma (v : pystr) (e : Entry) : Entry :=
  mkEntry (e_word e) (e_category e) (e_gender e) (e_number e) v
          (e_frequency e) (e_source e).

Definition set_frequency (v : Z) (e : Entry) : Entry :=
  mkEntry (e_word e) (e_category e) (e_gender e) (e_number e) (e_lemma e)
          v (e_source e).

(** ** Noise heuristics *)

Definition accented_vowels : pystr := [225; 233; 237; 243; 250]%N.  (* áéíóú *)

Definition accent_map : dict pystr pystr :=
  [ (lit "a", [225%N]); (lit "e", [233%N]); (lit "i", [237%N]);
    (lit "o", [243%N]); (lit "u", [250%N]) ].

Definition is_probable_unaccented_verb_variant
    (word category : pystr) (current : dict pystr loc) (h : heap)
    (doozan_raw : dict pystr Z) : bool :=
  if negb (bool_decide (category ∈
        [lit "sustantivo"; lit "adjetivo"; lit "adverbio"; lit "otro"]))
  then false
  else if existsb (fun ch => bool_decide (ch ∈ accented_vowels)) word
  then false
  else
    let raw_word := default 0 (dict_get word doozan_raw) in
    existsb
      (fun idx =>
         match dict_get (char_at word idx) accent_map with
         | None => false
         | Some repl =>
             let variant := take idx word ++ repl ++ drop (S idx) word in
             match dict_get variant current with
             | None => false
             | Some l =>
                 if negb (str_eqb (e_category (h !!! l)) (lit "verbo")) then false
                 else
                   let raw_variant := default 0 (dict_get variant doozan_raw) in
                   Z.max 2000 (raw_word * 5) <=? raw_variant
             end
         end)
      (seq 0 (length word)).

(** ** Merge resolver *)

Definition merge_step
    (current : dict pystr loc) (doozan_vocab : gset pystr)
    (doozan_raw : dict pystr Z)
    (st : dict pystr loc * heap * stats_t)
    (item : pystr * list Candidate) : result (dict pystr loc * heap * stats_t) :=
  let '(final_entries, h, stats) := st in
  let '(word, candidates) := item in
  best ← select_best_candidate candidates;
  stats ← bump "freeling_unique_forms" stats;
  match dict_get word final_entries with
  | Some l =>
      stats ← bump "conflicts_with_current" stats;
      (* Preserve current category/gender/number. Fill lemma only if missing. *)
      if is_empty (e_lemma (h !!! l)) && negb (is_empty (c_lemma best))
      then
        let h := <[l := set_lemma (c_lemma best) (h !!! l)]> h in
        stats ← bump "filled_current_lemmas_from_freeling" stats;
        Ok (final_entries, h, stats)
      else Ok (final_entries, h, stats)
  | None =>
      (* Keep new infinitives only when frequency-backed by doozan. *)
      if str_eqb (c_category best) (lit "verbo")
         && negb (bool_decide (word ∈ doozan_vocab))
      then
        stats ← bump "skipped_infinitive_not_in_doozan" stats;
        Ok (final_entries, h, stats)
      else if is_probable_unaccented_verb_variant
                word (c_category best) current h doozan_raw
      then
        stats ← bump "skipped_probable_unaccented_typos" stats;
        Ok (final_entries, h, stats)
      else
        let '(h, l) :=
          alloc (mkEntry word (c_category best) (c_gender best) (c_number best)
                         (c_lemma best) 1 (lit "freeling")) h in
        let final_entries := dict_set word l final_entries in
        stats ← bump "added_from_freeling" stats;
        Ok (final_entries, h, stats)
  end.

(** [final_entries = dict(current)] copies the dictionary, not the entries:
    both dictionaries hold the same locations. *)
Definition merge_entries
    (current : dict pystr loc) (freeling_candidates : dict pystr (list Candidate))
    (doozan_vocab : gset pystr) (doozan_raw : dict pystr Z)
    (h : heap) (stats : stats_t) : result (dict pystr loc * heap * stats_t) :=
  let final_entries := current in
  foldM (merge_step current doozan_vocab doozan_raw)
        (final_entries, h, stats) freeling_candidates.

Definition assign_step (doozan_freq : dict pystr Z)
    (st : heap * stats_t) (item : pystr * loc) : result (heap * stats_t) :=
  let '(h, stats) := st in
  let '(word, l) := item in
  match dict_get word doozan_freq with
  | Some freq =>
      let h := <[l := set_frequency freq (h !!! l)]> h in
      stats ← bump "freq_from_doozan" stats;
      Ok (h, stats)
  | None =>
      if str_eqb (e_source (h !!! l)) (lit "freeling")
      then
        let h := <[l := set_frequency 1 (h !!! l)]> h in
        stats ← bump "freq_missing_freeling_to_1" stats;
        Ok (h, stats)
      else
        (* Preserve existing curated frequency for current dictionary words. *)
        let h := <[l := set_frequency (Z.max 1 (e_frequency (h !!! l))) (h !!! l)]> h in
        stats ← bump "freq_kept_current" stats;
        Ok (h, stats)
  end.

Definition assign_frequencies
    (entries : dict pystr loc) (doozan_freq : dict pystr Z)
    (h : heap) (stats : stats_t) : result (heap * stats_t) :=
  foldM (assign_step doozan_freq) (h, stats) entries.

(** ** Validator *)

Definition checks : list (pystr * option pystr * option pystr * option pystr) :=
  [ (lit "agua", Some (lit "sustantivo"), Some (lit "f"), None);
    (lit "casa", Some (lit "sustantivo"), None, None);
    (lit "el", Some (lit "articulo"), Some (lit "m"), Some (lit "s")) ].

Definition mismatch (expected : option pystr) (actual : pystr) : bool :=
  match expected with
  | None => false
  | Some x => negb (str_eqb actual x)
  end.

Definition validation_message (word field actual expected : pystr) : pystr :=
  lit "Validation failed: '" ++ word ++ lit "' " ++ field ++ lit " '"
  ++ actual ++ lit "' != '" ++ expected ++ lit "'".

Definition validate_check (entries : dict pystr loc) (h : heap)
    (chk : pystr * option pystr * option pystr * option pystr) : result unit :=
  let '(word, exp_cat, exp_gen, exp_num) := chk in
  match dict_get word entries with
  | None =>
      Raise (RuntimeError
               (lit "Validation failed: missing required word '" ++ word ++ lit "'"))
  | Some l =>
      let e := h !!! l in
      if mismatch exp_cat (e_category e)
      then Raise (RuntimeError (validation_message word (lit "category")
                                  (e_category e) (default [] exp_cat)))
      else if mismatch exp_gen (e_gender e)
      then Raise (RuntimeError (validation_message word (lit "gender")
                                  (e_gender e) (default [] exp_gen)))
      else if mismatch exp_num (e_number e)
      then Raise (RuntimeError (validation_message word (lit "number")
                                  (e_number e) (default [] exp_num)))
      else Ok tt
  end.

Definition validate (entries : dict pystr loc) (h : heap) : result unit :=
  foldM (fun _ chk => validate_check entries h chk) tt checks.

(** ** Parsers, normalizer and driver

    Four functions of the Python runtime are parameters of the model: the
    Unicode case mappings [str.lower] and [str.upper], the conversion
    [int(text)] of a string ([None] when it raises [ValueError]) and
    [math.log10] on an integer.  Floating-point division and multiplication
    are the IEEE 754 binary64 operations. *)

Section Runtime.
  Variables lower upper : pystr -> pystr.
  Variable py_int : pystr -> option Z.
  Variable log10 : Z -> float.

Definition map_gender (c : pystr) : pystr :=
    let c := upper c in
    if str_eqb c (lit "M") then lit "m"
    else if str_eqb c (lit "F") then lit "f"
    else lit "_".

Definition map_number (c : pystr) : pystr :=
    let c := upper c in
    if str_eqb c (lit "S") then lit "s"
    else if str_eqb c (lit "P") then lit "p"
    else lit "_".

  (** *** Tag decoder *)

Definition parse_freeling_candidate
      (form lemma tag source_file : pystr) (stats : stats_t)
      : result (option Candidate * stats_t) :=
    let form := lower (strip form) in
    let lemma := lower (strip lemma) in
    let tag := strip tag in
    (* the tail of the function, from [if category is None] on *)
    let finish (category : option pystr) (gender number : pystr) (stats : stats_t)
        : result (option Candidate * stats_t) :=
      match category with
      | None =>
          stats ← bump "freeling_skipped_unknown_tag" stats;
          Ok (None, stats)
      | Some category =>
          Ok (Some (mkCandidate form lemma category gender number tag source_file),
              stats)
      end in
    let prefix p := startswith tag (lit p) in
    if is_empty form || is_empty tag || existsb isspace form
    then Ok (None, stats)
    else if prefix "NP"
    then
      (* Skip proper nouns. *)
      stats ← bump "freeling_skipped_np" stats;
      Ok (None, stats)
    else if prefix "NC"
    then finish (Some (lit "sustantivo"))
                (map_gender (char_at tag 2)) (map_number (char_at tag 3)) stats
    else if prefix "AQ" || prefix "AO"
    then finish (Some (lit "adjetivo"))
                (map_gender (char_at tag 3)) (map_number (char_at tag 4)) stats
    else if prefix "DA"
    then finish (Some (lit "articulo"))
                (map_gender (char_at tag 3)) (map_number (char_at tag 4)) stats
    else if prefix "DD" || prefix "DI" || prefix "DP" || prefix "DT" || prefix "DE"
    then finish (Some (lit "determinante"))
                (map_gender (char_at tag 3)) (map_number (char_at tag 4)) stats
    else if prefix "PP" || prefix "PD" || prefix "PR" || prefix "PT"
            || prefix "PI" || prefix "PE"
    then finish (Some (lit "pronombre"))
                (map_gender (char_at tag 3)) (map_number (char_at tag 4)) stats
    else if prefix "SP"
    then finish (Some (lit "preposicion")) (lit "_") (lit "_") stats
    else if prefix "CC" || prefix "CS"
    then finish (Some (lit "conjuncion")) (lit "_") (lit "_") stats
    else if prefix "RG" || prefix "RN"
    then finish (Some (lit "adverbio")) (lit "_") (lit "_") stats
    else if prefix "I"
    then finish (Some (lit "otro")) (lit "_") (lit "_") stats
    else if prefix "V"
    then
      (* Keep only infinitives as verbs; participles become adjectives. *)
      let mood := char_at tag 2 in
      if str_eqb mood (lit "N")
      then
        stats ← bump "freeling_infinitive_candidates" stats;
        finish (Some (lit "verbo")) (lit "_") (lit "_") stats
      else if str_eqb mood (lit "P")
      then
        let number := map_number (char_at tag 5) in
        let gender := map_gender (char_at tag 6) in
        stats ← bump "freeling_participle_candidates" stats;
        finish (Some (lit "adjetivo")) gender number stats
      else
        stats ← bump "freeling_skipped_conjugated_verbs" stats;
        Ok (None, stats)
    else finish None (lit "_") (lit "_") stats.

  (** A file is the list of its lines. *)
Definition freeling_line_step (name : pystr)
      (st : dict pystr (list Candidate) * stats_t) (raw_line : pystr)
      : result (dict pystr (list Candidate) * stats_t) :=
    let '(by_word, stats) := st in
    let line := strip raw_line in
    if is_empty line || startswith line (lit "#") then Ok (by_word, stats)
    else
      match split_ws line with
      | form :: lemma :: tag :: _ =>
          '(cand, stats) ← parse_freeling_candidate form lemma tag name stats;
          match cand with
          | None => Ok (by_word, stats)
          | Some cand =>
              (* by_word.setdefault(cand.word, []).append(cand) *)
              let by_word :=
                dict_set (c_word cand)
                         (default [] (dict_get (c_word cand) by_word) ++ [cand])
                         by_word in
              stats ← bump "freeling_kept_candidates" stats;
              Ok (by_word, stats)
          end
      | _ =>
          stats ← bump "freeling_bad_lines" stats;
          Ok (by_word, stats)
      end.

  (** The line [raw_line] of the file [name] is one that the loop hands to
      the decoder, and the decoder returns [cand] for it. *)
Definition decodes_to (name raw_line : pystr) (cand : Candidate) : Prop :=
    is_empty (strip raw_line) || startswith (strip raw_line) (lit "#") = false
    ∧ ∃ form lemma tag rest stats stats',
        split_ws (strip raw_line) = form :: lemma :: tag :: rest
        ∧ parse_freeling_candidate form lemma tag name stats
          = Ok (Some cand, stats').

Definition parse_freeling_files
      (files : dict pystr (list pystr)) (stats : stats_t)
      : result (dict pystr (list Candidate) * stats_t) :=
    foldM (fun st '(name, lines) => foldM (freeling_line_step name) st lines)
          ([], stats) files.

  (** *** Curated dictionary *)

  (** The entry a line of the curated file describes; [None] for a line the
      loop skips (blank, comment, empty word). *)
Definition parse_current_line (line : pystr) : option Entry :=
    let raw := rstrip_chars (lit (String (ascii_of_N 10) EmptyString)) line in
    let line := strip raw in
    if is_empty line || startswith line (lit "#") then None
    else
      let parts := split_sep 124 5 line in   (* line.split("|", 5) *)
      let field (i : nat) : option pystr := strip <$> parts !! i in
      let word := lower (default [] (field 0%nat)) in
      if is_empty word then None
      else
        let or_default (i : nat) (d : pystr) :=
          match field i with
          | Some x => if is_empty x then d else x
          | None => d
          end in
        let category := or_default 1%nat (lit "otro") in
        let gender := or_default 2%nat (lit "_") in
        let number := or_default 3%nat (lit "_") in
        let lemma := default [] (field 4%nat) in
        let frequency :=
          match parts !! 5%nat with
          | Some text =>
              match py_int (strip text) with
              | Some n => Z.max 1 n
              | None => 1
              end
          | None => 1
          end in
        Some (mkEntry word category gender number lemma frequency (lit "current")).

Definition current_line_step
      (st : dict pystr loc * heap * stats_t) (line : pystr)
      : result (dict pystr loc * heap * stats_t) :=
    let '(current, h, stats) := st in
    match parse_current_line line with
    | None => Ok (current, h, stats)
    | Some entry =>
        let '(h, l) := alloc entry h in
        let word := e_word entry in
        match dict_get word current with
        | Some l0 =>
            stats ← bump "current_duplicates" stats;
            (* Mirror Trie behavior: keep duplicate with higher frequency. *)
            if e_frequency (h !!! l0) <? e_frequency entry
            then Ok (dict_set word l current, h, stats)
            else Ok (current, h, stats)
        | None => Ok (dict_set word l current, h, stats)
        end
    end.

Definition parse_current_dictionary
      (lines : list pystr) (h : heap) (stats : stats_t)
      : result (dict pystr loc * heap * stats_t) :=
    foldM current_line_step ([], h, stats) lines.

  (** *** Frequency normalizer *)

  (** What a line of the frequency file contributes: nothing (skipped), a
      malformed line (counted), or a word with its count. *)
Inductive doozan_line :=
  | DSkip
  | DBad
  | DCount (word : pystr) (count : Z).

Definition parse_doozan_line (raw : pystr) : doozan_line :=
    let line := strip raw in
    if is_empty line || startswith line (lit "#") then DSkip
    else
      let fields : option (pystr * pystr) :=
        if bool_decide (9%N ∈ line)   (* "\t" in line *)
        then match split_sep 9 1 line with
             | [word; count_text] => Some (word, count_text)
             | _ => None
             end
        else match split_ws line with
             | word :: count_text :: _ => Some (word, count_text)
             | _ => None
             end in
      match fields with
      | None => DBad
      | Some (word, count_text) =>
          let word := lower (strip word) in
          if is_empty word then DSkip
          else match py_int (strip count_text) with
               | None => DBad
               | Some count => DCount word count
               end
      end.

Definition doozan_line_step
      (st : dict pystr Z * Z * stats_t) (raw : pystr)
      : result (dict pystr Z * Z * stats_t) :=
    let '(raw_freq, max_raw, stats) := st in
    match parse_doozan_line raw with
    | DSkip => Ok (raw_freq, max_raw, stats)
    | DBad =>
        stats ← bump "doozan_bad_lines" stats;
        Ok (raw_freq, max_raw, stats)
    | DCount word count =>
        if count <=? 0 then Ok (raw_freq, max_raw, stats)
        else
          let better :=
            match dict_get word raw_freq with
            | None => true
            | Some prev => prev <? count
            end in
          if better
          then Ok (dict_set word count raw_freq,
                   (if max_raw <? count then count else max_raw), stats)
          else Ok (raw_freq, max_raw, stats)
    end.

  (** [x / y] on floats *)
Definition py_float_div (x y : float) : result float :=
    if PrimFloat.eqb y 0%float then Raise ZeroDivisionError
    else Ok (PrimFloat.div x y).

  (** [int(x)] on a float: truncation toward zero. *)
Definition py_int_of_float (x : float) : result Z :=
    match Prim2SF x with
    | S754_zero _ => Ok 0
    | S754_infinity _ => Raise OverflowError
    | S754_nan => Raise ValueError
    | S754_finite s m e =>
        let a := if 0 <=? e then Z.pos m * 2 ^ e else Z.pos m / 2 ^ (- e) in
        Ok (if s then - a else a)
    end.

Definition normalize_count (denom : float) (count : Z) : result Z :=
    if count <=? 1 then Ok 1
    else
      q ← py_float_div (log10 count) denom;
      value ← py_int_of_float (PrimFloat.mul q 1000%float);
      Ok (Z.max 1 (Z.min 1000 value)).

Definition no_positive_counts : pystr :=
    lit "doozan frequency file had no positive counts".

Definition load_doozan_frequency (lines : list pystr) (stats : stats_t)
      : result (dict pystr Z * dict pystr Z * stats_t) :=
    '(raw_freq, max_raw, stats) ← foldM doozan_line_step ([], 0, stats) lines;
    if max_raw <=? 0 then Raise (RuntimeError no_positive_counts)
    else
      let stats := <["doozan_max_raw"%string := max_raw]> stats in
      let denom := log10 max_raw in
      normalized ←
        foldM (fun normalized '(word, count) =>
                 norm ← normalize_count denom count;
                 Ok (dict_set word norm normalized))
              [] raw_freq;
      Ok (normalized, raw_freq, stats).

  (** *** Output and driver

      The driver is modelled from step 3 of [build] on: the downloads of
      steps 1 and 2 have been made, and the three inputs are the lines of the
      files.  What the run does to the outside is a list of events.  The
      failures of the file system and of the terminal (opening, reading and
      decoding an input, copying, writing, printing) are not modelled: the
      model has the exceptions of the computation on the lines only. *)

Inductive event :=
  | Copy2 (stamped : bool)          (* shutil.copy2(path, backup) *)
  | WriteFile (lines : list pystr)  (* the output file *)
  | Print (msg : pystr)
  | PrintStats (stats : stats_t) (current_count final_count : nat)
  | EPrint (e : exn).

Record args_t := mkArgs {
    dry_run : bool;
    no_backup : bool
  }.

Record inputs_t := mkInputs {
    current_lines : list pystr;
    doozan_lines : list pystr;
    freeling_files : dict pystr (list pystr);
    output_path : pystr;
    output_exists : bool;   (* path.exists() *)
    backup_exists : bool;   (* backup.exists() *)
    now : pystr             (* the UTC time, ISO format *)
  }.

Definition str_le (a b : pystr) : Prop := lexico_ltb b a = false.
Local Instance str_le_dec a b : Decision (str_le a b).
  Proof. unfold str_le. apply _. Defined.

Definition output_line (e : Entry) : pystr :=
    let lemma := if is_empty (e_lemma e) then [] else e_lemma e in
    e_word e ++ lit "|" ++ e_category e ++ lit "|" ++ e_gender e ++ lit "|"
    ++ e_number e ++ lit "|" ++ lemma ++ lit "|"
    ++ lit (pretty (Z.max 1 (e_frequency e))).

Definition write_output (inp : inputs_t) (entries : dict pystr loc) (h : heap)
      (no_backup : bool) : list event * bool :=
    let backup := output_exists inp && negb no_backup in
    let header :=
      [ lit "# Diccionario de espanol combinado (generado automaticamente)";
        lit "# Formato: palabra|categoria|genero|numero|lema|frecuencia";
        lit "# Generado UTC: " ++ now inp;
        [] ] in
    let body :=
      omap (fun word => (fun l => output_line (h !!! l)) <$> dict_get word entries)
           (merge_sort str_le (dict_keys entries)) in
    ((if backup then [Copy2 (backup_exists inp)] else [])
       ++ [WriteFile (header ++ body)],
     backup).

Definition initial_stats (n_files : nat) : stats_t :=
    list_to_map
      [ ("freeling_files", Z.of_nat n_files);
        ("freeling_kept_candidates", 0);
        ("freeling_unique_forms", 0);
        ("freeling_infinitive_candidates", 0);
        ("freeling_participle_candidates", 0);
        ("freeling_skipped_conjugated_verbs", 0);
        ("freeling_skipped_unknown_tag", 0);
        ("freeling_skipped_np", 0);
        ("freeling_bad_lines", 0);
        ("doozan_bad_lines", 0);
        ("conflicts_with_current", 0);
        ("added_from_freeling", 0);
        ("filled_current_lemmas_from_freeling", 0);
        ("freq_from_doozan", 0);
        ("freq_missing_freeling_to_1", 0);
        ("freq_kept_current", 0);
        ("current_duplicates", 0);
        ("skipped_infinitive_not_in_doozan", 0);
        ("skipped_probable_unaccented_typos", 0) ]%string.

  (** Steps 3 to 6 of [build]: the curated mapping, the merged mapping, the
      store and the counters. *)
Definition build_merged (inp : inputs_t)
      : result (dict pystr loc * dict pystr loc * heap * stats_t) :=
    let stats := initial_stats (length (freeling_files inp)) in
    (* 3) Load current dictionary *)
    '(current, h, stats) ← parse_current_dictionary (current_lines inp) [] stats;
    (* 4) Frequencies (needed before merge to filter rare infinitives) *)
    '(doozan_freq, doozan_raw, stats) ← load_doozan_frequency (doozan_lines inp) stats;
    let doozan_vocab : gset pystr := list_to_set (dict_keys doozan_freq) in
    (* 5) Parse FreeLing + resolve ambiguity *)
    '(freeling_candidates, stats) ← parse_freeling_files (freeling_files inp) stats;
    (* 6) Merge (current wins) *)
    '(merged, h, stats) ←
      merge_entries current freeling_candidates doozan_vocab doozan_raw h stats;
    '(h, stats) ← assign_frequencies merged doozan_freq h stats;
    Ok (current, merged, h, stats).

Definition build (args : args_t) (inp : inputs_t) : list event * result Z :=
    match
      '(current, merged, h, stats) ← build_merged inp;
      (* 7) Validation *)
      _ ← validate merged h;
      Ok (current, merged, h, stats)
    with
    | Raise e => ([], Raise e)
    | Ok (current, merged, h, stats) =>
        (* 8) Write output + backup *)
        let written :=
          if dry_run args
          then [Print (lit "Dry run enabled: output file not written.")]
          else
            let '(evs, backup) := write_output inp merged h (no_backup args) in
            evs ++ [Print (lit "Wrote dictionary: " ++ output_path inp)]
                ++ (if backup then [Print (lit "Backup path")] else []) in
        (written ++ [PrintStats stats (length current) (length merged)], Ok 0)
    end.

Definition main (args : args_t) (inp : inputs_t) : list event * Z :=
    match build args inp with
    | (evs, Ok code) => (evs, code)
    | (evs, Raise e) => (evs ++ [EPrint e], 1)
    end.

  (** The run wrote the output file. *)
Definition wrote_output (evs : list event) : bool :=
    existsb (fun ev => match ev with WriteFile _ => true | _ => false end) evs.
End Runtime.


(** ** The order of the selection key, as the specification words it *)

Definition category_order : list pystr :=
  [ lit "sustantivo"; lit "adjetivo"; lit "adverbio"; lit "articulo";
    lit "determinante"; lit "pronombre"; lit "preposicion"; lit "conjuncion";
    lit "verbo"; lit "otro" ].

Definition rank (c : Candidate) : Z :=
  default 999 (dict_get (c_category c) CATEGORY_PRIORITY).

Definition tiebreak (c : Candidate) : pystr * pystr * pystr * pystr * pystr :=
  (c_category c, c_gender c, c_number c, c_lemma c, c_tag c).

(** The value of an attribute that is not specified. *)
Definition unspecified : pystr := lit "_".

(** How many of the attributes gender and number are not unspecified. *)
Definition specified_attributes (c : Candidate) : nat :=
  length (filter (λ a, a ≠ unspecified) [c_gender c; c_number c]).

(** [a] comes strictly before [b]: a lower category rank, then more
    specified attributes, then the lexicographic tie-break. *)
Definition key_before (a b : Candidate) : Prop :=
  rank a < rank b
  ∨ (rank a = rank b
     ∧ ((specified_attributes b < specified_attributes a)%nat
        ∨ (specified_attributes a = specified_attributes b
           ∧ lexico (tiebreak a) (tiebreak b)))).

(** ** Well-formed states *)

(** The counters that [build] initialises are present. *)
Definition counters_ready (stats : stats_t) : Prop :=
  ∀ k, is_Some (initial_stats 0 !! k) → is_Some (stats !! k).

(** The dictionary [d] refers to objects of the store [h], a different
    object for each word. *)
Definition dict_wf (d : dict pystr loc) (h : heap) : Prop :=
  NoDup (dict_keys d) ∧ NoDup (dict_values d)
  ∧ Forall (λ l, l < length h)%nat (dict_values d).

(** The candidate [cand] is in the list of its word. *)
Definition filed (by_word : dict pystr (list Candidate)) (cand : Candidate) : Prop :=
  ∃ cands, dict_get (c_word cand) by_word = Some cands ∧ cand ∈ cands.

(** Each word of the mapping refers to an entry of that word. *)
Definition keyed (d : dict pystr loc) (h : heap) : Prop :=
  ∀ w l, dict_get w d = Some l → e_word (h !!! l) = w.

Definition same_but_lemma (e e' : Entry) : Prop :=
  e_word e' = e_word e ∧ e_category e' = e_category e
  ∧ e_gender e' = e_gender e ∧ e_number e' = e_number e
  ∧ e_frequency e' = e_frequency e ∧ e_source e' = e_source e.

Definition same_but_frequency (e e' : Entry) : Prop :=
  e_word e' = e_word e ∧ e_category e' = e_category e
  ∧ e_gender e' = e_gender e ∧ e_number e' = e_number e
  ∧ e_lemma e' = e_lemma e ∧ e_source e' = e_source e.

(** The lemma went from [e] to [e'] unchanged, or from empty to
    non-empty. *)
Definition lemma_filled (e e' : Entry) : Prop :=
  e_lemma e' = e_lemma e ∨ (e_lemma e = [] ∧ e_lemma e' ≠ []).

(** The lemma of the curated entry [e] of [word] after the merge: filled
    from the best candidate when it was empty and the candidate has one. *)
Definition merged_lemma (freeling_candidates : dict pystr (list Candidate))
    (word : pystr) (e : Entry) : pystr :=
  match dict_get word freeling_candidates with
  | Some candidates =>
      match select_best_candidate candidates with
      | Ok best =>
          if is_empty (e_lemma e) && negb (is_empty (c_lemma best))
          then c_lemma best else e_lemma e
      | Raise _ => e_lemma e
      end
  | None => e_lemma e
  end.

(** The frequency [assign_frequencies] gives the entry [e] of [word]. *)
Definition assigned_frequency (doozan_freq : dict pystr Z)
    (word : pystr) (e : Entry) : Z :=
  match dict_get word doozan_freq with
  | Some freq => freq
  | None =>
      if str_eqb (e_source e) (lit "freeling") then 1
      else Z.max 1 (e_frequency e)
  end.

(** ** The accent filter, as the specification words it *)

(** A bare vowel with its accented counterpart: a/á, e/é, i/í, o/ó, u/ú. *)
Definition accent_pairs : list (N * N) :=
  [ (97, 225); (101, 233); (105, 237); (111, 243); (117, 250) ]%N.

(** [word], of the category [category], looks like the accent-dropped
    spelling of a curated verb: the category is one of the four, the word
    has no accented vowel, and accenting one of its vowels gives a curated
    verb whose raw count is at least max(2000, 5 x the raw count of
    [word]), an absent count being 0. *)
Definition accent_typo_of_verb (word category : pystr)
    (current : dict pystr loc) (h : heap) (doozan_raw : dict pystr Z) : Prop :=
  category ∈ [lit "sustantivo"; lit "adjetivo"; lit "adverbio"; lit "otro"]
  ∧ (∀ ch, ch ∈ word → ch ∉ accented_vowels)
  ∧ ∃ idx bare accented l,
      word !! idx = Some bare
      ∧ (bare, accented) ∈ accent_pairs
      ∧ dict_get (<[idx := accented]> word) current = Some l
      ∧ e_category (h !!! l) = lit "verbo"
      ∧ Z.max 2000 (5 * default 0 (dict_get word doozan_raw))
        ≤ default 0 (dict_get (<[idx := accented]> word) doozan_raw).

(** ** Conditions that the theorems name *)

(** The counter [k] went up by one from [stats] to [stats']. *)
Definition incremented (k : string) (stats stats' : stats_t) : Prop :=
  ∃ n, stats !! k = Some n ∧ stats' = <[k := n + 1]> stats.

(** A record the tag decoder gives up on before it looks at the tag: no
    form, no tag, or white space inside the form (all after stripping). *)
Definition malformed (form tag : pystr) : Prop :=
  form = [] ∨ tag = [] ∨ ∃ ch, ch ∈ form ∧ isspace ch = true.

(** The tag prefixes the decoder knows. *)
Definition known_prefixes : list string :=
  [ "NP"; "NC"; "AQ"; "AO"; "DA"; "DD"; "DI"; "DP"; "DT"; "DE"; "PP"; "PD";
    "PR"; "PT"; "PI"; "PE"; "SP"; "CC"; "CS"; "RG"; "RN"; "I"; "V" ]%string.

(** The largest count of the frequency file, 0 when no line has a positive
    count. *)
Definition max_count (lower : pystr -> pystr) (py_int : pystr -> option Z)
    (lines : list pystr) : Z :=
  foldr (fun line m =>
           match parse_doozan_line lower py_int line with
           | DCount _ count => Z.max count m
           | _ => m
           end) 0 lines.

(** What the reading loop of the frequency file keeps: no word is stored
    twice, the counts stored are positive and at most [max_raw], and
    [max_raw] is 0 or one of them. *)
Definition doozan_inv (raw_freq : dict pystr Z) (max_raw : Z) : Prop :=
  NoDup (dict_keys raw_freq)
  ∧ (∀ w c, dict_get w raw_freq = Some c → 0 < c ≤ max_raw)
  ∧ (max_raw = 0 ∨ ∃ w, dict_get w raw_freq = Some max_raw).

(** The candidates are grouped by word: no word twice, no empty group,
    and every candidate of a group carries the word of the group and a
    category that has a priority. *)
Definition grouped (by_word : dict pystr (list Candidate)) : Prop :=
  NoDup (dict_keys by_word)
  ∧ Forall (λ item, item.2 ≠ []
                    ∧ Forall (λ c, c_word c = item.1
                                   ∧ c_category c ∈ dict_keys CATEGORY_PRIORITY)
                             item.2) by_word.

(** What the loop of the curated parser keeps, [seen] being the records
    read so far: every word has an entry object of its own; the entry of a
    word is one of the records read, and a record of that word; and every
    record read has its word in the mapping, with an entry of at least its
    frequency. *)
Definition current_inv (current : dict pystr loc) (h : heap) (seen : list Entry)
    : Prop :=
  dict_wf current h
  ∧ (∀ w l, dict_get w current = Some l →
            h !!! l ∈ seen ∧ e_word (h !!! l) = w)
  ∧ (∀ e, e ∈ seen →
          ∃ l, dict_get (e_word e) current = Some l
               ∧ e_frequency e ≤ e_frequency (h !!! l)).

(** The anchor [chk] is missing from the mapping, or its entry has another
    category, gender or number than the expected one. *)
Definition anchor_fails (entries : dict pystr loc) (h : heap)
    (chk : pystr * option pystr * option pystr * option pystr) : Prop :=
  let '(word, exp_cat, exp_gen, exp_num) := chk in
  match dict_get word entries with
  | None => True
  | Some l =>
      mismatch exp_cat (e_category (h !!! l)) = true
      ∨ mismatch exp_gen (e_gender (h !!! l)) = true
      ∨ mismatch exp_num (e_number (h !!! l)) = true
  end.

(** ** Sample runtime

    The runtime functions on the inputs of the examples: ASCII letters,
    unsigned decimal numerals, and [math.log10] at the powers of ten that
    occur, where it is exact. *)

Definition ascii_lower (s : pystr) : pystr :=
  (fun c => if (65 <=? c)%N && (c <=? 90)%N then (c + 32)%N else c) <$> s.

Definition ascii_upper (s : pystr) : pystr :=
  (fun c => if (97 <=? c)%N && (c <=? 122)%N then (c - 32)%N else c) <$> s.

Definition dec_int (s : pystr) : option Z :=
  match s with
  | [] => None
  | _ =>
      foldl (fun acc c =>
               a ← acc;
               if (48 <=? c)%N && (c <=? 57)%N
               then Some (10 * a + Z.of_N c - 48) else None)
            (Some 0) s
  end.

Definition log10_tab (z : Z) : float :=
  if z =? 10 then 1%float
  else if z =? 100 then 2%float
  else if z =? 1000 then 3%float
  else if z =? 1000000 then 6%float
  else 0%float.

(** ** Sample data *)

Definition bajo_noun : Candidate :=
  mkCandidate (lit "bajo") (lit "bajo") (lit "sustantivo") (lit "m") (lit "s")
              (lit "NCMS000") (lit "MM.nom").

Definition bajo_noun_again : Candidate :=
  mkCandidate (lit "bajo") (lit "bajo") (lit "sustantivo") (lit "m") (lit "s")
              (lit "NCMS000") (lit "MM.tanc").

(** A reading of [bajo] as a noun that specifies neither gender nor
    number. *)
Definition bajo_bare : Candidate :=
  mkCandidate (lit "bajo") (lit "bajo") (lit "sustantivo") (lit "_") (lit "_")
              (lit "NC00000") (lit "MM.nom").

Definition bajo_prep : Candidate :=
  mkCandidate (lit "bajo") (lit "bajo") (lit "preposicion") (lit "_") (lit "_")
              (lit "SP") (lit "MM.tanc").

(** A curated store with one entry, [casa|sustantivo|f|s||500], an
    analysis of [casa] as an interjection, and a frequency table in which
    [casa] scores 1000. *)
Definition casa_entry : Entry :=
  mkEntry (lit "casa") (lit "sustantivo") (lit "f") (lit "s") [] 500 (lit "current").

Definition casa_store : heap := [casa_entry].
Definition casa_current : dict pystr loc := [(lit "casa", 0%nat)].

Definition casa_otro : Candidate :=
  mkCandidate (lit "casa") (lit "casa") (lit "otro") (lit "_") (lit "_")
              (lit "I") (lit "MM.int").

Definition casa_candidates : dict pystr (list Candidate) :=
  [(lit "casa", [casa_otro])].

Definition casa_freq : dict pystr Z := [(lit "casa", 1000)].
Definition casa_raw : dict pystr Z := [(lit "casa", 10000)].
Definition casa_vocab : gset pystr := {[ lit "casa" ]}.

(** An infinitive the frequency corpus does not know. *)
Definition caminar_verb : Candidate :=
  mkCandidate (lit "caminar") (lit "caminar") (lit "verbo") (lit "_") (lit "_")
              (lit "VMN0000") (lit "MM.verb").

Definition caminar_candidates : dict pystr (list Candidate) :=
  [(lit "caminar", [caminar_verb])].

(** The curated verb form [cantó], frequent in the corpus, and the
    analysis of [canto] as a noun. *)
Definition canto_accented : pystr := lit "cant" ++ [243%N].

Definition canto_entry : Entry :=
  mkEntry canto_accented (lit "verbo") (lit "_") (lit "_") (lit "cantar") 300
          (lit "current").

Definition canto_store : heap := [canto_entry].
Definition canto_current : dict pystr loc := [(canto_accented, 0%nat)].

Definition canto_noun : Candidate :=
  mkCandidate (lit "canto") (lit "canto") (lit "sustantivo") (lit "m") (lit "s")
              (lit "NCMS000") (lit "MM.nom").

Definition canto_candidates : dict pystr (list Candidate) :=
  [(lit "canto", [canto_noun])].

Definition canto_raw : dict pystr Z := [(lit "canto", 100); (canto_accented, 5000)].
Definition canto_vocab : gset pystr := {[ lit "canto"; canto_accented ]}.

(** A second record for [casa], a small frequency file, one whose only
    count is 1, and the inputs of a run whose frequency file is empty. *)
Definition casa_line : pystr := lit "casa|sustantivo|f|s|casa|900".

Definition casa_record : Entry :=
  mkEntry (lit "casa") (lit "sustantivo") (lit "f") (lit "s") (lit "casa") 900
          (lit "current").

Definition corpus_lines : list pystr := [lit "de 1000"; lit "casa 100"].
Definition unit_corpus : list pystr := [lit "de 1"].

Definition no_corpus_inputs : inputs_t :=
  mkInputs [lit "casa|sustantivo|f|s|casa|500"] [] [] (lit "words.txt")
           true false (lit "2026-01-01T00:00:00+00:00").

(** A run that passes the validator: the three anchors in the curated file,
    two counts in the corpus and one new noun in the analyzer file. *)
Definition full_lines : list pystr :=
  [ lit "el|articulo|m|s|el|900"; lit "casa|sustantivo|f|s|casa|500";
    lit "agua|sustantivo|f|s|agua|10" ].

Definition full_files : dict pystr (list pystr) :=
  [(lit "MM.nom", [lit "casa casa NCFS000"; lit "casa casar VMIP3S0";
                   lit "Juan juan NP00000"; lit "perro perro NCMS000"])].

Definition full_inputs : inputs_t :=
  mkInputs full_lines corpus_lines full_files (lit "words.txt")
           true false (lit "2026-01-01T00:00:00+00:00").

(** One analyzer file with two readings of [casa] and a proper noun. *)
Definition sample_files : dict pystr (list pystr) :=
  [(lit "MM.nom", [lit "casa casa NCFS000"; lit "casa casar VMIP3S0";
                   lit "Juan juan NP00000"])].

(** A curated file with [casa] twice. *)
Definition casa_lines : list pystr :=
  [lit "casa|sustantivo|f|s|casa|500"; lit "# comentario"; casa_line].

(** A noun the curated dictionary lacks. *)
Definition perro_noun : Candidate :=
  mkCandidate (lit "perro") (lit "perro") (lit "sustantivo") (lit "m") (lit "s")
              (lit "NCMS000") (lit "MM.nom").

Definition perro_candidates : dict pystr (list Candidate) :=
  [(lit "perro", [perro_noun])].

(** * Properties *)

(** ** The lexicographic order *)

Section Lexico.
  Context `{Lexico T, !TrichotomyT (@lexico T _), !StrictOrder (@lexico T _)}.

Lemma lexico_ltb_true (a b : T) : lexico_ltb a b = true <-> lexico a b.
  Proof.
    unfold lexico_ltb.
    destruct (trichotomyT lexico a b) as [[Hlt | Heq] | Hgt]; split; intros Hx;
      try done.
    - subst. destruct (irreflexivity lexico _ Hx).
    - exfalso. apply (irreflexivity lexico a). by trans b.
  Qed.

Lemma lexico_ltb_false (a b : T) : lexico_ltb a b = false <-> ¬ lexico a b.
  Proof.
    rewrite <- lexico_ltb_true. destruct (lexico_ltb a b); naive_solver.
  Qed.

  (** Two values neither of which is below the other are equal. *)
Lemma lexico_antisym (a b : T) : ¬ lexico a b → ¬ lexico b a → a = b.
  Proof.
    intros Hab Hba.
    destruct (trichotomyT lexico a b) as [[Hlt | Heq] | Hgt]; done.
  Qed.

Lemma lexico_not_lt_trans (a b c : T) :
    ¬ lexico b a → ¬ lexico c b → ¬ lexico c a.
  Proof.
    intros Hab Hbc Hca.
    destruct (trichotomyT lexico a b) as [[Hlt | Heq] | Hgt]; [| by subst | done].
    apply Hbc. by trans a.
  Qed.
End Lexico.

(** ** [min] *)

Section MinFacts.
  Context {A T : Type} `{Lexico T, !TrichotomyT (@lexico T _),
                         !StrictOrder (@lexico T _)} (key : A -> T).

Lemma min_from_elem (best : A) (rest : list A) :
    min_from key best rest ∈ best :: rest.
  Proof.
    revert best. induction rest as [| x rest IH]; intros best; simpl.
    - apply elem_of_cons; by left.
    - destruct (lexico_ltb (key x) (key best)).
      + apply elem_of_cons; right. apply IH.
      + destruct (elem_of_cons rest (min_from key best rest) best) as [Hc _].
        destruct (Hc (IH best)) as [-> | Hin]; [by left | by do 2 right].
  Qed.

Lemma min_from_le_best (best : A) (rest : list A) :
    ¬ lexico (key best) (key (min_from key best rest)).
  Proof.
    revert best. induction rest as [| x rest IH]; intros best; simpl.
    - apply (irreflexivity lexico).
    - destruct (lexico_ltb (key x) (key best)) eqn:Hlt.
      + apply lexico_ltb_true in Hlt.
        intros Hbad. apply (IH x). by trans (key best).
      + apply IH.
  Qed.

Lemma min_from_lower_bound (best : A) (rest : list A) (x : A) :
    x ∈ best :: rest → ¬ lexico (key x) (key (min_from key best rest)).
  Proof.
    revert best. induction rest as [| y rest IH]; intros best Hx; simpl.
    - apply list_elem_of_singleton in Hx as ->. apply (irreflexivity lexico).
    - destruct (lexico_ltb (key y) (key best)) eqn:Hlt.
      + apply elem_of_cons in Hx as [-> | Hx]; [| by apply IH].
        apply lexico_ltb_true in Hlt.
        pose proof (min_from_le_best y rest) as Hy.
        intros Hbad. apply Hy. trans (key best); [done |].
        done.
      + apply lexico_ltb_false in Hlt.
        apply elem_of_cons in Hx as [-> | Hx]; [apply IH; set_solver |].
        apply elem_of_cons in Hx as [-> | Hx]; [| apply IH; set_solver].
        eapply lexico_not_lt_trans; [| exact Hlt].
        apply min_from_le_best.
  Qed.

  (** The minimum sits at some index, and every element before that index
      has a strictly greater key: ties go to the earliest element. *)
Lemma min_from_first (best : A) (rest : list A) :
    ∃ i, (best :: rest) !! i = Some (min_from key best rest)
         ∧ ∀ j y, (j < i)%nat → (best :: rest) !! j = Some y →
                  lexico (key (min_from key best rest)) (key y).
  Proof.
    revert best. induction rest as [| x rest IH]; intros best; simpl.
    - exists 0%nat. split; [done |]. intros; lia.
    - destruct (lexico_ltb (key x) (key best)) eqn:Hlt.
      + destruct (IH x) as (i & Hi & Hbefore).
        exists (S i). split; [done |].
        intros [| j] y Hj Hy; simplify_eq/=.
        * apply lexico_ltb_true in Hlt.
          destruct (trichotomyT lexico (key (min_from key x rest)) (key x))
            as [[Hm | Hm] | Hm].
          -- by trans (key x).
          -- by rewrite Hm.
          -- by apply min_from_le_best in Hm.
        * apply (Hbefore j); [lia | done].
      + destruct (IH best) as (i & Hi & Hbefore).
        destruct i as [| i].
        * exists 0%nat. simplify_eq/=. split; [by f_equal |]. intros; lia.
        * exists (S (S i)). split; [done |].
          intros [| [| j]] y Hj Hy; simplify_eq/=.
          -- apply (Hbefore 0%nat); [lia | done].
          -- apply lexico_ltb_false in Hlt.
             assert (lexico (key (min_from key best rest)) (key best)) as Hmb
               by (apply (Hbefore 0%nat); [lia | done]).
             destruct (trichotomyT lexico (key (min_from key best rest)) (key y))
               as [[Hm | Hm] | Hm]; [done | |].
             ++ exfalso. apply Hlt. by rewrite <- Hm.
             ++ exfalso. apply Hlt. by trans (key (min_from key best rest)).
          -- apply (Hbefore (S j)); [lia | done].
  Qed.
End MinFacts.

(** ** Candidate selector *)

(** The number that the score negates is the count of the attributes,
    gender and number, that are not unspecified. *)
Lemma specificity_count (c : Candidate) :
  specificity c = Z.of_nat (specified_attributes c).
Proof.
  unfold specificity, specified_attributes, unspecified.
  rewrite !filter_cons, filter_nil.
  destruct (decide (c_gender c ≠ lit "_")) as [Hg | Hg],
           (decide (c_number c ≠ lit "_")) as [Hn | Hn];
    rewrite ?(bool_decide_eq_true_2 _ Hg), ?(bool_decide_eq_false_2 _ Hg),
            ?(bool_decide_eq_true_2 _ Hn), ?(bool_decide_eq_false_2 _ Hn);
    reflexivity.
Qed.

Lemma score_lt_key_before (a b : Candidate) :
  lexico (score a) (score b) <-> key_before a b.
Proof.
  unfold key_before, score, tiebreak, rank. rewrite !specificity_count.
  generalize (default 999 (dict_get (c_category a) CATEGORY_PRIORITY)).
  generalize (default 999 (dict_get (c_category b) CATEGORY_PRIORITY)).
  generalize (specified_attributes a), (specified_attributes b).
  destruct a, b; simpl. intros sa sb rb ra.
  repeat (unfold lexico at 1, prod_lexico; simpl).
  unfold Z_lexico.
  split.
  - intros Hlt.
    repeat match goal with
           | H : _ ∨ _ |- _ => destruct H
           | H : _ ∧ _ |- _ => destruct H
           end; simplify_eq;
      try (assert (sa = sb) by lia; subst sb);
      first [ by left | by (right; split; [done |]; left; lia)
            | right; split; [done |]; right; split; [done |]; eauto 10 ].
  - intros Hlt.
    repeat match goal with
           | H : _ ∨ _ |- _ => destruct H
           | H : _ ∧ _ |- _ => destruct H
           end; simplify_eq; eauto 10.
    do 5 left. right. split; [done | lia].
Qed.

Lemma select_best_candidate_spec (l : list Candidate) (best : Candidate) :
  select_best_candidate l = Ok best →
  best ∈ l ∧ ∀ c, c ∈ l → ¬ lexico (score c) (score best).
Proof.
  destruct l as [| x rest]; [done |]. intros [= <-]. split.
  - apply min_from_elem.
  - intros c Hc. by apply min_from_lower_bound.
Qed.

(** C7: on a non-empty list the selector returns a candidate of the list
    that no candidate precedes under the key: category rank in the fixed
    order, then the greater count of attributes, gender and number, that are
    not unspecified, then category, gender, number, lemma and tag
    lexicographically.  It is the earliest such candidate, every candidate
    before it being strictly after it under the key. *)
Theorem select_best_candidate_minimal (candidates : list Candidate) :
  candidates ≠ [] →
  Forall2 (λ cat r, dict_get cat CATEGORY_PRIORITY = Some r)
          category_order [1; 2; 3; 4; 5; 6; 7; 8; 9; 10]
  ∧ ∃ best i,
      select_best_candidate candidates = Ok best
      ∧ candidates !! i = Some best
      ∧ (∀ c, c ∈ candidates → ¬ key_before c best)
      ∧ (∀ j c, (j < i)%nat → candidates !! j = Some c → key_before best c).
Proof.
  intros Hne. split.
  { repeat constructor. }
  destruct candidates as [| x rest]; [done |].
  destruct (min_from_first score x rest) as (i & Hi & Hbefore).
  exists (min_from score x rest), i. repeat split; [done | |].
  - intros c Hc Hlt. apply score_lt_key_before in Hlt.
    by apply (min_from_lower_bound score x rest c).
  - intros j c Hj Hc. apply score_lt_key_before. by apply (Hbefore j).
Qed.

(** Two nouns of one rank: the one without gender and number comes first in
    the list and first in the lexicographic tie-break, and the one that
    specifies both is returned. *)
Lemma select_best_candidate_minimal_witness :
  [bajo_bare; bajo_prep; bajo_noun] ≠ []
  ∧ rank bajo_bare = rank bajo_noun
  ∧ (specified_attributes bajo_bare < specified_attributes bajo_noun)%nat
  ∧ lexico (tiebreak bajo_bare) (tiebreak bajo_noun)
  ∧ ∃ i,
      select_best_candidate [bajo_bare; bajo_prep; bajo_noun] = Ok bajo_noun
      ∧ [bajo_bare; bajo_prep; bajo_noun] !! i = Some bajo_noun
      ∧ (∀ c, c ∈ [bajo_bare; bajo_prep; bajo_noun] → ¬ key_before c bajo_noun)
      ∧ (∀ j c, (j < i)%nat →
                [bajo_bare; bajo_prep; bajo_noun] !! j = Some c →
                key_before bajo_noun c).
Proof.
  split; [done |]. split; [reflexivity |].
  split; [vm_compute; lia |].
  split; [apply lexico_ltb_true; vm_compute; reflexivity |].
  destruct (proj2 (select_best_candidate_minimal
                     [bajo_bare; bajo_prep; bajo_noun] ltac:(done)))
    as (best & i & Hsel & Hi & Hmin & Hbefore).
  assert (select_best_candidate [bajo_bare; bajo_prep; bajo_noun] = Ok bajo_noun)
    as Hrun by (vm_compute; reflexivity).
  rewrite Hrun in Hsel. injection Hsel as <-.
  exists i. split; [exact Hrun |]. split; [exact Hi |].
  split; [exact Hmin | exact Hbefore].
Defined.

(** C3, as stated, fails: two candidates that differ in the source file
    only have the same key, and the selector returns whichever comes
    first. *)
Lemma select_best_candidate_order_dependent :
  [bajo_noun; bajo_noun_again] ≡ₚ [bajo_noun_again; bajo_noun]
  ∧ c_word bajo_noun = c_word bajo_noun_again
  ∧ select_best_candidate [bajo_noun; bajo_noun_again] = Ok bajo_noun
  ∧ select_best_candidate [bajo_noun_again; bajo_noun] = Ok bajo_noun_again
  ∧ bajo_noun ≠ bajo_noun_again.
Proof.
  split; [apply Permutation_swap |]. by vm_compute.
Qed.

(** C3, amended: under every permutation of a list of candidates of one
    word the selector returns a winner with the same word, category,
    gender, number, lemma and tag; only the source file may differ. *)
Theorem select_best_candidate_permutation
    (l l' : list Candidate) (best : Candidate) :
  l ≡ₚ l' →
  (∀ c c', c ∈ l → c' ∈ l → c_word c = c_word c') →
  select_best_candidate l = Ok best →
  ∃ best',
    select_best_candidate l' = Ok best'
    ∧ c_word best' = c_word best
    ∧ c_category best' = c_category best
    ∧ c_gender best' = c_gender best
    ∧ c_number best' = c_number best
    ∧ c_lemma best' = c_lemma best
    ∧ c_tag best' = c_tag best.
Proof.
  intros Hperm Hword Hsel.
  destruct (select_best_candidate_spec _ _ Hsel) as [Hin Hmin].
  destruct l' as [| x rest].
  { apply Permutation_nil_r in Hperm. subst. set_solver. }
  exists (min_from score x rest).
  assert (select_best_candidate (x :: rest) = Ok (min_from score x rest)) as Hsel'
    by done.
  destruct (select_best_candidate_spec _ _ Hsel') as [Hin' Hmin'].
  assert (score (min_from score x rest) = score best) as Hscore.
  { apply lexico_antisym.
    - apply Hmin. by rewrite Hperm.
    - apply Hmin'. by rewrite <- Hperm. }
  split; [done |]. split.
  - apply Hword; [by rewrite Hperm | done].
  - unfold score in Hscore. by simplify_eq.
Qed.

Lemma select_best_candidate_permutation_witness :
  ∃ best',
    select_best_candidate [bajo_noun_again; bajo_prep; bajo_noun] = Ok best'
    ∧ c_word best' = c_word bajo_noun
    ∧ c_category best' = c_category bajo_noun
    ∧ c_gender best' = c_gender bajo_noun
    ∧ c_number best' = c_number bajo_noun
    ∧ c_lemma best' = c_lemma bajo_noun
    ∧ c_tag best' = c_tag bajo_noun.
Proof.
  apply (select_best_candidate_permutation
           [bajo_prep; bajo_noun; bajo_noun_again]
           [bajo_noun_again; bajo_prep; bajo_noun] bajo_noun).
  - symmetry. apply (Permutation_cons_append [bajo_prep; bajo_noun]).
  - intros c c' Hc Hc'.
    repeat (apply elem_of_cons in Hc as [-> | Hc]);
      repeat (apply elem_of_cons in Hc' as [-> | Hc']);
      first [reflexivity | by apply elem_of_nil in Hc | by apply elem_of_nil in Hc'].
  - vm_compute. reflexivity.
Defined.

(** ** The result monad and loops *)

Lemma bind_Ok {A B} (m : result A) (k : A -> result B) (b : B) :
  m ≫= k = Ok b <-> ∃ a, m = Ok a ∧ k a = Ok b.
Proof.
  destruct m as [a | e]; simpl; split.
  - intros Hk. by exists a.
  - by intros (a' & [= ->] & Hk).
  - done.
  - by intros (a' & [=] & _).
Qed.

Lemma foldM_app {S X} (step : S -> X -> result S) (s : S) (l1 l2 : list X) :
  foldM step s (l1 ++ l2) = foldM step s l1 ≫= λ s', foldM step s' l2.
Proof.
  revert s. induction l1 as [| x l1 IH]; intros s; simpl; [done |].
  destruct (step s x) as [s' | e]; simpl; [apply IH | done].
Qed.

(** A loop invariant: kept by every iteration that returns, hence by the
    loop. *)
Lemma foldM_invariant {S X} (step : S -> X -> result S) (I : S -> Prop)
    (l : list X) (s s' : S) :
  (∀ s x s', x ∈ l → I s → step s x = Ok s' → I s') →
  I s → foldM step s l = Ok s' → I s'.
Proof.
  revert s. induction l as [| x l IH]; intros s Hstep Hs Hfold; simpl in *.
  - by simplify_eq.
  - apply bind_Ok in Hfold as (s1 & Hx & Hfold).
    apply (IH s1); [| | done].
    + intros ???? ; apply Hstep. by right.
    + apply (Hstep s x); [by left | done | done].
Qed.

(** A loop returns when its body does under an invariant. *)
Lemma foldM_total {S X} (step : S -> X -> result S) (I : S -> Prop)
    (l : list X) (s : S) :
  (∀ s x, x ∈ l → I s → ∃ s', step s x = Ok s' ∧ I s') →
  I s → ∃ s', foldM step s l = Ok s' ∧ I s'.
Proof.
  revert s. induction l as [| x l IH]; intros s Hstep Hs; simpl.
  - by exists s.
  - destruct (Hstep s x) as (s1 & -> & Hs1); [by left | done |]. simpl.
    apply IH; [| done]. intros ????; apply Hstep; [by right | done].
Qed.

(** ** Dictionaries *)

Section DictFacts.
  Context {K V : Type} `{EqDecision K}.
  Implicit Types (k : K) (v : V) (d : dict K V).

Lemma dict_get_app k d1 d2 :
    dict_get k (d1 ++ d2) =
    match dict_get k d1 with Some v => Some v | None => dict_get k d2 end.
  Proof.
    induction d1 as [| [k' v'] d1 IH]; simpl; [done |]. by case_decide.
  Qed.

Lemma dict_get_None k d : dict_get k d = None <-> k ∉ dict_keys d.
  Proof.
    unfold dict_keys. induction d as [| [k' v'] d IH]; simpl.
    - split; [intros _; apply not_elem_of_nil | done].
    - rewrite not_elem_of_cons. case_decide as Hk.
      + split; [done | by intros [? _]].
      + rewrite IH. split; [by split | by intros [_ ?]].
  Qed.

Lemma dict_get_Some_elem k v d : dict_get k d = Some v → (k, v) ∈ d.
  Proof.
    induction d as [| [k' v'] d IH]; simpl; [done |].
    case_decide; intros Hget; simplify_eq; [by left | right; auto].
  Qed.

Lemma dict_get_is_Some k d : is_Some (dict_get k d) <-> k ∈ dict_keys d.
  Proof.
    destruct (dict_get k d) eqn:Hget.
    - split; [intros _ | by eauto].
      apply dict_get_Some_elem in Hget. unfold dict_keys.
      apply list_elem_of_fmap. by exists (k, v).
    - apply dict_get_None in Hget. split; [by intros [? ?] | done].
  Qed.

Lemma dict_get_elem k v d : NoDup (dict_keys d) → (k, v) ∈ d → dict_get k d = Some v.
  Proof.
    unfold dict_keys. induction d as [| [k' v'] d IH]; simpl.
    - intros _ Hin. by apply elem_of_nil in Hin.
    - rewrite NoDup_cons. intros [Hk' Hnd] Hin.
      apply elem_of_cons in Hin as [Heq | Hin]; simplify_eq.
      + by rewrite decide_True.
      + rewrite decide_False; [auto |]. intros ->. apply Hk'.
        apply list_elem_of_fmap. by exists (k', v).
  Qed.

Lemma dict_set_fresh k v d : dict_get k d = None → dict_set k v d = d ++ [(k, v)].
  Proof.
    induction d as [| [k' v'] d IH]; simpl; [done |].
    case_decide; [done |]. intros Hget. by rewrite IH.
  Qed.

Lemma dict_get_set_eq k v d : dict_get k (dict_set k v d) = Some v.
  Proof.
    induction d as [| [k' v'] d IH]; simpl.
    - by rewrite decide_True.
    - case_decide; simpl; [by rewrite decide_True | by rewrite decide_False].
  Qed.

Lemma dict_get_set_ne k k' v d :
    k ≠ k' → dict_get k' (dict_set k v d) = dict_get k' d.
  Proof.
    intros Hne. induction d as [| [k1 v1] d IH]; simpl.
    - by rewrite decide_False.
    - case_decide; simpl; subst.
      + by rewrite !decide_False.
      + case_decide; [done | apply IH].
  Qed.

Lemma dict_keys_set_present k v d :
    is_Some (dict_get k d) → dict_keys (dict_set k v d) = dict_keys d.
  Proof.
    unfold dict_keys. induction d as [| [k1 v1] d IH]; simpl.
    - by intros [? ?].
    - case_decide; simpl; [done |]. intros Hs. f_equal. by apply IH.
  Qed.
End DictFacts.

(** ** Counters *)

Lemma bump_Ok_inv (k : string) (stats stats' : stats_t) :
  bump k stats = Ok stats' →
  ∃ n, stats !! k = Some n ∧ stats' = <[k := n + 1]> stats.
Proof. unfold bump. destruct (stats !! k) as [n |]; naive_solver. Qed.

Lemma bump_keeps_counters (k : string) (stats stats' : stats_t) :
  bump k stats = Ok stats' → counters_ready stats → counters_ready stats'.
Proof.
  intros (n & Hk & ->)%bump_Ok_inv Hready k' Hk'.
  destruct (decide (k = k')) as [-> | Hne].
  - rewrite lookup_insert_eq. by eexists.
  - rewrite lookup_insert_ne; auto.
Qed.

Lemma bump_ready (k : string) (stats : stats_t) :
  is_Some (initial_stats 0 !! k) → counters_ready stats →
  ∃ stats', bump k stats = Ok stats' ∧ counters_ready stats'.
Proof.
  intros Hk Hready. destruct (Hready k Hk) as [n Hn].
  exists (<[k := n + 1]> stats). unfold bump. rewrite Hn. split; [done |].
  apply (bump_keeps_counters k stats); [| done]. unfold bump. by rewrite Hn.
Qed.

Lemma initial_stats_ready (n : nat) : counters_ready (initial_stats n).
Proof.
  intros k. unfold initial_stats.
  rewrite <- !elem_of_dom, !dom_list_to_map_L. simpl. done.
Qed.

Lemma insert_keeps_counters (k : string) (v : Z) (stats : stats_t) :
  counters_ready stats → counters_ready (<[k := v]> stats).
Proof.
  intros Hready k' Hk'. destruct (decide (k = k')) as [-> | Hne].
  - rewrite lookup_insert_eq. by eexists.
  - rewrite lookup_insert_ne; auto.
Qed.

(** ** The store *)

Lemma heap_insert_total_eq (h : heap) (l : loc) (e : Entry) :
  (l < length h)%nat → <[l := e]> h !!! l = e.
Proof. intros Hl. apply list_lookup_total_correct. by apply list_lookup_insert_eq. Qed.

Lemma heap_insert_total_ne (h : heap) (l l' : loc) (e : Entry) :
  l ≠ l' → <[l := e]> h !!! l' = h !!! l'.
Proof. intros Hne. by rewrite !list_lookup_total_alt, list_lookup_insert_ne. Qed.

Lemma heap_app_total (h h2 : heap) (l : loc) :
  (l < length h)%nat → (h ++ h2) !!! l = h !!! l.
Proof. intros Hl. by rewrite !list_lookup_total_alt, lookup_app_l. Qed.

Lemma same_but_lemma_refl (e : Entry) : same_but_lemma e e.
Proof. by repeat split. Qed.

Lemma same_but_lemma_trans (e1 e2 e3 : Entry) :
  same_but_lemma e1 e2 → same_but_lemma e2 e3 → same_but_lemma e1 e3.
Proof. unfold same_but_lemma. intros ? ?. destruct_and!. repeat split; congruence. Qed.

Lemma same_but_frequency_refl (e : Entry) : same_but_frequency e e.
Proof. by repeat split. Qed.

Lemma same_but_frequency_trans (e1 e2 e3 : Entry) :
  same_but_frequency e1 e2 → same_but_frequency e2 e3 → same_but_frequency e1 e3.
Proof.
  unfold same_but_frequency. intros ? ?. destruct_and!. repeat split; congruence.
Qed.

(** ** Merge resolver: one candidate list *)

(** What an iteration of [merge_entries] that returns has done: nothing but
    a lemma fill on the entry of a word already present, nothing for a
    filtered word, a new entry at the end of the store otherwise. *)
Lemma merge_step_inv current doozan_vocab doozan_raw final h stats
    word candidates final' h' stats' :
  merge_step current doozan_vocab doozan_raw (final, h, stats) (word, candidates)
    = Ok (final', h', stats') →
  ∃ best,
    select_best_candidate candidates = Ok best
    ∧ match dict_get word final with
      | Some l =>
          final' = final
          ∧ h' = (if is_empty (e_lemma (h !!! l)) && negb (is_empty (c_lemma best))
                  then <[l := set_lemma (c_lemma best) (h !!! l)]> h else h)
      | None =>
          if (str_eqb (c_category best) (lit "verbo")
              && negb (bool_decide (word ∈ doozan_vocab)))
             || is_probable_unaccented_verb_variant
                  word (c_category best) current h doozan_raw
          then final' = final ∧ h' = h
          else final' = dict_set word (length h) final
               ∧ h' = h ++ [mkEntry word (c_category best) (c_gender best)
                                    (c_number best) (c_lemma best) 1
                                    (lit "freeling")]
      end.
Proof.
  unfold merge_step. intros Hstep.
  destruct (select_best_candidate candidates) as [best | e]; [| done].
  exists best. split; [done |]. simpl in Hstep.
  destruct (bump "freeling_unique_forms" stats) as [s1 | e]; [| done].
  simpl in Hstep.
  destruct (dict_get word final) as [l |].
  - destruct (bump "conflicts_with_current" s1) as [s2 | e]; [| done].
    simpl in Hstep.
    destruct (is_empty (e_lemma (h !!! l)) && negb (is_empty (c_lemma best))).
    + destruct (bump "filled_current_lemmas_from_freeling" s2); [| done].
      simpl in Hstep. by simplify_eq.
    + by simplify_eq.
  - destruct (str_eqb (c_category best) (lit "verbo")
              && negb (bool_decide (word ∈ doozan_vocab))); simpl in *.
    + destruct (bump "skipped_infinitive_not_in_doozan" s1); [| done].
      simpl in Hstep. by simplify_eq.
    + destruct (is_probable_unaccented_verb_variant _ _ _ _ _); simpl in *.
      * destruct (bump "skipped_probable_unaccented_typos" s1); [| done].
        simpl in Hstep. by simplify_eq.
      * simpl in Hstep.
        destruct (bump "added_from_freeling" s1); [| done].
        simpl in Hstep. by simplify_eq.
Qed.

(** An iteration returns as soon as the counters exist and the candidate
    list is not empty. *)
Lemma merge_step_total current doozan_vocab doozan_raw final h stats
    word candidates :
  counters_ready stats → candidates ≠ [] →
  ∃ final' h' stats',
    merge_step current doozan_vocab doozan_raw (final, h, stats) (word, candidates)
      = Ok (final', h', stats')
    ∧ counters_ready stats'.
Proof.
  intros Hready Hne. unfold merge_step.
  destruct candidates as [| c rest]; [done |]. simpl.
  destruct (bump_ready "freeling_unique_forms" stats) as (s1 & -> & Hs1);
    [by eexists | done |]. simpl.
  destruct (dict_get word final) as [l |].
  - destruct (bump_ready "conflicts_with_current" s1) as (s2 & -> & Hs2);
      [by eexists | done |]. simpl.
    destruct (is_empty _ && negb _).
    + destruct (bump_ready "filled_current_lemmas_from_freeling" s2)
        as (s3 & -> & Hs3); [by eexists | done |]. simpl. eauto.
    + eauto.
  - destruct (str_eqb _ _ && negb _).
    + destruct (bump_ready "skipped_infinitive_not_in_doozan" s1)
        as (s2 & -> & Hs2); [by eexists | done |]. simpl. eauto.
    + destruct (is_probable_unaccented_verb_variant _ _ _ _ _).
      * destruct (bump_ready "skipped_probable_unaccented_typos" s1)
          as (s2 & -> & Hs2); [by eexists | done |]. simpl. eauto.
      * simpl. destruct (bump_ready "added_from_freeling" s1)
          as (s2 & -> & Hs2); [by eexists | done |]. simpl. eauto.
Qed.

Lemma lemma_filled_refl (e : Entry) : lemma_filled e e.
Proof. by left. Qed.

Lemma lemma_filled_trans (e1 e2 e3 : Entry) :
  lemma_filled e1 e2 → lemma_filled e2 e3 → lemma_filled e1 e3.
Proof.
  unfold lemma_filled. intros [H12 | [H1 H2]] [H23 | [H2' H3]].
  - left. congruence.
  - right. split; congruence.
  - right. split; congruence.
  - congruence.
Qed.

Lemma is_empty_true (s : pystr) : is_empty s = true <-> s = [].
Proof. by destruct s. Qed.

Lemma set_lemma_fills (v : pystr) (e : Entry) :
  is_empty (e_lemma e) && negb (is_empty v) = true →
  same_but_lemma e (set_lemma v e) ∧ lemma_filled e (set_lemma v e).
Proof.
  intros [He Hv]%andb_true_iff. split; [by repeat split |].
  right. simpl. split; [by apply is_empty_true |].
  intros ->. done.
Qed.

Section MergeStep.
  Context (current : dict pystr loc) (doozan_vocab : gset pystr)
          (doozan_raw : dict pystr Z).
  Implicit Types (final : dict pystr loc) (h : heap) (stats : stats_t).

  Abbreviation step := (merge_step current doozan_vocab doozan_raw).

  (** The store only grows, and an object already in it changes by a lemma
      fill at most. *)
Lemma merge_step_frame final h stats item final' h' stats' :
    step (final, h, stats) item = Ok (final', h', stats') →
    (length h ≤ length h')%nat
    ∧ ∀ l, (l < length h)%nat →
           same_but_lemma (h !!! l) (h' !!! l) ∧ lemma_filled (h !!! l) (h' !!! l).
  Proof.
    destruct item as [word candidates].
    intros (best & _ & Hcase)%merge_step_inv.
    destruct (dict_get word final) as [l0 |].
    - destruct Hcase as [-> ->].
      destruct (is_empty _ && negb _) eqn:Hfill.
      + rewrite length_insert. split; [done |]. intros l Hl.
        destruct (decide (l0 = l)) as [-> | Hne].
        * rewrite heap_insert_total_eq by done. by apply set_lemma_fills.
        * rewrite heap_insert_total_ne by done.
          split; [apply same_but_lemma_refl | apply lemma_filled_refl].
      + split; [done |]. intros l _.
        split; [apply same_but_lemma_refl | apply lemma_filled_refl].
    - destruct (_ || _).
      + destruct Hcase as [-> ->]. split; [done |]. intros l _.
        split; [apply same_but_lemma_refl | apply lemma_filled_refl].
      + destruct Hcase as [-> ->]. rewrite length_app. split; [lia |].
        intros l Hl. rewrite heap_app_total by done.
        split; [apply same_but_lemma_refl | apply lemma_filled_refl].
  Qed.

  (** The iteration for one word leaves the other words of the mapping
      alone. *)
Lemma merge_step_get_other final h stats word candidates final' h' stats' w :
    step (final, h, stats) (word, candidates) = Ok (final', h', stats') →
    word ≠ w → dict_get w final' = dict_get w final.
  Proof.
    intros (best & _ & Hcase)%merge_step_inv Hne.
    destruct (dict_get word final) as [l0 |]; [by destruct Hcase as [-> _] |].
    destruct (_ || _); destruct Hcase as [-> _]; [done |].
    by apply dict_get_set_ne.
  Qed.

  (** A mapping that grows is the old one followed by new words. *)
Lemma merge_step_extends final h stats item final' h' stats' :
    step (final, h, stats) item = Ok (final', h', stats') →
    ∃ extra, final' = final ++ extra.
  Proof.
    destruct item as [word candidates].
    intros (best & _ & Hcase)%merge_step_inv.
    destruct (dict_get word final) as [l0 |] eqn:Hget.
    - destruct Hcase as [-> _]. exists []. by rewrite app_nil_r.
    - destruct (_ || _); destruct Hcase as [-> _].
      + exists []. by rewrite app_nil_r.
      + eexists. by apply dict_set_fresh.
  Qed.

Lemma merge_step_wf final h stats item final' h' stats' :
    step (final, h, stats) item = Ok (final', h', stats') →
    dict_wf final h → dict_wf final' h'.
  Proof.
    destruct item as [word candidates].
    intros (best & _ & Hcase)%merge_step_inv (Hkeys & Hvals & Hlt).
    destruct (dict_get word final) as [l0 |] eqn:Hget.
    - destruct Hcase as [-> ->]. repeat split; [done | done |].
      destruct (_ && _); [by rewrite length_insert | done].
    - destruct (_ || _); destruct Hcase as [-> ->]; [done |].
      rewrite dict_set_fresh by done. unfold dict_wf, dict_keys, dict_values.
      rewrite !fmap_app, length_app. simpl. repeat split.
      + apply NoDup_app. repeat split; [done | | apply NoDup_singleton].
        intros k Hk ->%list_elem_of_singleton.
        by apply dict_get_None in Hget.
      + apply NoDup_app. repeat split; [done | | apply NoDup_singleton].
        intros l Hl ->%list_elem_of_singleton.
        rewrite Forall_forall in Hlt. specialize (Hlt _ Hl). lia.
      + apply Forall_app. split.
        * eapply Forall_impl; [exact Hlt |]. simpl. intros; lia.
        * apply Forall_singleton. lia.
  Qed.

  (** Two words of a well-formed mapping have different objects. *)
Lemma dict_wf_inj final h w w' l :
    dict_wf final h → dict_get w final = Some l → dict_get w' final = Some l →
    w = w'.
  Proof.
    intros (_ & Hvals & _) Hw%dict_get_Some_elem Hw'%dict_get_Some_elem.
    apply list_elem_of_lookup in Hw as [i Hi], Hw' as [j Hj].
    assert (i = j) as ->.
    { eapply NoDup_lookup; [exact Hvals | |]; unfold dict_values;
        rewrite list_lookup_fmap; [by rewrite Hi | by rewrite Hj]. }
    congruence.
  Qed.

Lemma dict_wf_lt final h w l :
    dict_wf final h → dict_get w final = Some l → (l < length h)%nat.
  Proof.
    intros (_ & _ & Hlt) Hw%dict_get_Some_elem.
    rewrite Forall_forall in Hlt. apply Hlt. unfold dict_values.
    apply list_elem_of_fmap. by exists (w, l).
  Qed.

  (** The iteration for one word leaves the objects of the other words
      alone. *)
Lemma merge_step_obj_other final h stats word candidates final' h' stats' w l :
    step (final, h, stats) (word, candidates) = Ok (final', h', stats') →
    dict_wf final h → dict_get w final = Some l → word ≠ w →
    h' !!! l = h !!! l.
  Proof.
    intros (best & _ & Hcase)%merge_step_inv Hwf Hw Hne.
    destruct (dict_get word final) as [l0 |] eqn:Hget.
    - destruct Hcase as [_ ->]. destruct (_ && _); [| done].
      apply heap_insert_total_ne. intros ->. apply Hne.
      by eapply dict_wf_inj.
    - destruct (_ || _); destruct Hcase as [_ ->]; [done |].
      apply heap_app_total. by eapply dict_wf_lt.
  Qed.

  (** The iteration for a word of the mapping fills its lemma. *)
Lemma merge_step_obj_self final h stats word candidates final' h' stats' l :
    step (final, h, stats) (word, candidates) = Ok (final', h', stats') →
    dict_wf final h → dict_get word final = Some l →
    e_lemma (h' !!! l) = merged_lemma [(word, candidates)] word (h !!! l).
  Proof.
    intros (best & Hbest & Hcase)%merge_step_inv Hwf Hw.
    unfold merged_lemma. simpl. rewrite decide_True by done.
    rewrite Hbest, Hw in *. destruct Hcase as [_ ->].
    destruct (_ && _); [| done].
    rewrite heap_insert_total_eq; [done |]. by eapply dict_wf_lt.
  Qed.
End MergeStep.

(** ** Merge resolver: the loop *)

Local Arguments merge_step : simpl never.
Local Arguments assign_step : simpl never.

Section MergeLoop.
  Context (current : dict pystr loc) (doozan_vocab : gset pystr)
          (doozan_raw : dict pystr Z).
  Implicit Types (final : dict pystr loc) (h : heap) (stats : stats_t)
           (F : dict pystr (list Candidate)).

  Abbreviation loop := (foldM (merge_step current doozan_vocab doozan_raw)).

Lemma merge_loop_frame F final h stats final' h' stats' :
    loop (final, h, stats) F = Ok (final', h', stats') →
    (length h ≤ length h')%nat
    ∧ ∀ l, (l < length h)%nat →
           same_but_lemma (h !!! l) (h' !!! l) ∧ lemma_filled (h !!! l) (h' !!! l).
  Proof.
    revert final h stats. induction F as [| item F IH]; intros final h stats Hloop;
      simpl in Hloop.
    - simplify_eq. split; [done |]. intros l _.
      split; [apply same_but_lemma_refl | apply lemma_filled_refl].
    - apply bind_Ok in Hloop as ([[final1 h1] stats1] & Hstep & Hloop).
      apply merge_step_frame in Hstep as [Hlen1 Hframe1].
      apply IH in Hloop as [Hlen2 Hframe2]. split; [lia |].
      intros l Hl. destruct (Hframe1 l Hl) as [Ha Hb].
      destruct (Hframe2 l ltac:(lia)) as [Hc Hd]. split.
      + by eapply same_but_lemma_trans.
      + by eapply lemma_filled_trans.
  Qed.

Lemma merge_loop_wf F final h stats final' h' stats' :
    loop (final, h, stats) F = Ok (final', h', stats') →
    dict_wf final h → dict_wf final' h' ∧ ∃ extra, final' = final ++ extra.
  Proof.
    revert final h stats. induction F as [| item F IH]; intros final h stats Hloop Hwf;
      simpl in Hloop.
    - simplify_eq. split; [done |]. exists []. by rewrite app_nil_r.
    - apply bind_Ok in Hloop as ([[final1 h1] stats1] & Hstep & Hloop).
      pose proof (merge_step_wf _ _ _ _ _ _ _ _ _ _ Hstep Hwf) as Hwf1.
      apply merge_step_extends in Hstep as [extra1 ->].
      destruct (IH _ _ _ Hloop Hwf1) as [Hwf2 [extra2 ->]].
      split; [done |]. exists (extra1 ++ extra2). by rewrite app_assoc.
  Qed.

  (** A word without candidates keeps its place in the mapping, or its
      absence from it. *)
Lemma merge_loop_get_other F final h stats final' h' stats' w :
    loop (final, h, stats) F = Ok (final', h', stats') →
    w ∉ dict_keys F → dict_get w final' = dict_get w final.
  Proof.
    revert final h stats.
    induction F as [| [word candidates] F IH]; intros final h stats Hloop Hw;
      simpl in Hloop.
    - by simplify_eq.
    - apply bind_Ok in Hloop as ([[final1 h1] stats1] & Hstep & Hloop).
      unfold dict_keys in Hw. simpl in Hw. apply not_elem_of_cons in Hw as [Hne Hw].
      rewrite (IH _ _ _ Hloop Hw).
      eapply merge_step_get_other; [exact Hstep | done].
  Qed.

  (** ... and its object is not touched. *)
Lemma merge_loop_obj_other F final h stats final' h' stats' w l :
    loop (final, h, stats) F = Ok (final', h', stats') →
    dict_wf final h → dict_get w final = Some l → w ∉ dict_keys F →
    h' !!! l = h !!! l.
  Proof.
    revert final h stats.
    induction F as [| [word candidates] F IH]; intros final h stats Hloop Hwf Hget Hw;
      simpl in Hloop.
    - by simplify_eq.
    - apply bind_Ok in Hloop as ([[final1 h1] stats1] & Hstep & Hloop).
      unfold dict_keys in Hw. simpl in Hw. apply not_elem_of_cons in Hw as [Hne Hw].
      pose proof (merge_step_wf _ _ _ _ _ _ _ _ _ _ Hstep Hwf) as Hwf1.
      assert (dict_get w final1 = Some l) as Hget1.
      { rewrite <- Hget. eapply merge_step_get_other; [exact Hstep | done]. }
      rewrite (IH _ _ _ Hloop Hwf1 Hget1 Hw).
      eapply merge_step_obj_other; [exact Hstep | done | exact Hget | done].
  Qed.

Lemma merged_lemma_cons_ne word candidates F w e :
    word ≠ w → merged_lemma ((word, candidates) :: F) w e = merged_lemma F w e.
  Proof. intros Hne. unfold merged_lemma. simpl. by rewrite decide_False. Qed.

  (** The lemma of a word of the mapping after the loop. *)
Lemma merge_loop_lemma F final h stats final' h' stats' w l :
    loop (final, h, stats) F = Ok (final', h', stats') →
    NoDup (dict_keys F) → dict_wf final h → dict_get w final = Some l →
    e_lemma (h' !!! l) = merged_lemma F w (h !!! l).
  Proof.
    revert final h stats.
    induction F as [| [word candidates] F IH];
      intros final h stats Hloop Hnd Hwf Hget; simpl in Hloop.
    - by simplify_eq.
    - apply bind_Ok in Hloop as ([[final1 h1] stats1] & Hstep & Hloop).
      unfold dict_keys in Hnd. simpl in Hnd. apply NoDup_cons in Hnd as [Hfresh Hnd].
      pose proof (merge_step_wf _ _ _ _ _ _ _ _ _ _ Hstep Hwf) as Hwf1.
      destruct (decide (word = w)) as [-> | Hne].
      + assert (dict_get w final1 = Some l) as Hget1.
        { apply merge_step_inv in Hstep as (best & _ & Hcase).
          rewrite Hget in Hcase. by destruct Hcase as [-> _]. }
        rewrite (merge_loop_obj_other _ _ _ _ _ _ _ _ _ Hloop Hwf1 Hget1 Hfresh).
        rewrite (merge_step_obj_self _ _ _ _ _ _ _ _ _ _ _ _ Hstep Hwf Hget).
        unfold merged_lemma. simpl. by rewrite !decide_True.
      + rewrite merged_lemma_cons_ne by done.
        rewrite <- (merge_step_obj_other _ _ _ _ _ _ _ _ _ _ _ _ _ Hstep Hwf Hget Hne).
        apply (IH _ _ _ Hloop Hnd Hwf1).
        rewrite <- Hget. eapply merge_step_get_other; [exact Hstep | done].
  Qed.

  (** The loop returns when the counters exist and no candidate list is
      empty. *)
Lemma merge_loop_total F final h stats :
    counters_ready stats → Forall (λ item, item.2 ≠ []) F →
    ∃ final' h' stats',
      loop (final, h, stats) F = Ok (final', h', stats') ∧ counters_ready stats'.
  Proof.
    intros Hready HF.
    destruct (foldM_total (merge_step current doozan_vocab doozan_raw)
                (λ st, counters_ready st.2) F (final, h, stats))
      as ([[final' h'] stats'] & Hloop & Hready'); [| done | by eauto].
    intros [[final1 h1] stats1] [word candidates] Hin Hready1. simpl in *.
    rewrite Forall_forall in HF. specialize (HF _ Hin).
    destruct (merge_step_total current doozan_vocab doozan_raw final1 h1 stats1
                word candidates Hready1 HF) as (f2 & h2 & s2 & -> & Hs2).
    by exists (f2, h2, s2).
  Qed.
End MergeLoop.

(** ** Frequency assignment *)

Lemma assign_step_inv doozan_freq h stats word l h' stats' :
  assign_step doozan_freq (h, stats) (word, l) = Ok (h', stats') →
  h' = <[l := set_frequency (assigned_frequency doozan_freq word (h !!! l))
                            (h !!! l)]> h.
Proof.
  unfold assign_step, assigned_frequency. intros Hstep.
  destruct (dict_get word doozan_freq) as [freq |]; simpl in Hstep.
  - destruct (bump "freq_from_doozan" stats); [| done]. simpl in Hstep.
    by simplify_eq.
  - destruct (str_eqb (e_source (h !!! l)) (lit "freeling")); simpl in Hstep.
    + destruct (bump "freq_missing_freeling_to_1" stats); [| done].
      simpl in Hstep. by simplify_eq.
    + destruct (bump "freq_kept_current" stats); [| done].
      simpl in Hstep. by simplify_eq.
Qed.

Lemma assign_step_total doozan_freq h stats word l :
  counters_ready stats →
  ∃ h' stats',
    assign_step doozan_freq (h, stats) (word, l) = Ok (h', stats')
    ∧ counters_ready stats'.
Proof.
  intros Hready. unfold assign_step.
  destruct (dict_get word doozan_freq) as [freq |]; simpl.
  - destruct (bump_ready "freq_from_doozan" stats) as (s1 & -> & Hs1);
      [by eexists | done |]. simpl. eauto.
  - destruct (str_eqb _ _); simpl.
    + destruct (bump_ready "freq_missing_freeling_to_1" stats) as (s1 & -> & Hs1);
        [by eexists | done |]. simpl. eauto.
    + destruct (bump_ready "freq_kept_current" stats) as (s1 & -> & Hs1);
        [by eexists | done |]. simpl. eauto.
Qed.

Lemma assign_loop_total doozan_freq entries h stats :
  counters_ready stats →
  ∃ h' stats',
    assign_frequencies entries doozan_freq h stats = Ok (h', stats')
    ∧ counters_ready stats'.
Proof.
  intros Hready. unfold assign_frequencies.
  destruct (foldM_total (assign_step doozan_freq) (λ st, counters_ready st.2)
              entries (h, stats)) as ([h' stats'] & Hloop & Hready');
    [| done | by eauto].
  intros [h1 stats1] [word l] _ Hready1. simpl in *.
  destruct (assign_step_total doozan_freq h1 stats1 word l Hready1)
    as (h2 & s2 & -> & Hs2).
  by exists (h2, s2).
Qed.

(** The assignment writes frequencies only. *)
Lemma assign_loop_frame doozan_freq entries h stats h' stats' :
  assign_frequencies entries doozan_freq h stats = Ok (h', stats') →
  length h' = length h ∧ ∀ l, same_but_frequency (h !!! l) (h' !!! l).
Proof.
  unfold assign_frequencies. revert h stats.
  induction entries as [| [word l0] entries IH]; intros h stats Hloop;
    simpl in Hloop.
  - simplify_eq. split; [done |]. intros l. apply same_but_frequency_refl.
  - apply bind_Ok in Hloop as ([h1 stats1] & Hstep & Hloop).
    apply assign_step_inv in Hstep as ->.
    apply IH in Hloop as [Hlen Hframe]. rewrite length_insert in Hlen.
    split; [done |]. intros l.
    eapply same_but_frequency_trans; [| apply Hframe].
    destruct (decide (l0 = l)) as [-> | Hne].
    + destruct (decide (l < length h)%nat) as [Hl | Hl].
      * rewrite heap_insert_total_eq by done. by repeat split.
      * rewrite list_insert_ge by lia. apply same_but_frequency_refl.
    + rewrite heap_insert_total_ne by done. apply same_but_frequency_refl.
Qed.

(** An object that is not in the mapping is not written. *)
Lemma assign_loop_obj_other doozan_freq entries h stats h' stats' l :
  assign_frequencies entries doozan_freq h stats = Ok (h', stats') →
  l ∉ dict_values entries → h' !!! l = h !!! l.
Proof.
  unfold assign_frequencies. revert h stats.
  induction entries as [| [word l0] entries IH]; intros h stats Hloop Hl;
    simpl in Hloop.
  - by simplify_eq.
  - apply bind_Ok in Hloop as ([h1 stats1] & Hstep & Hloop).
    apply assign_step_inv in Hstep as ->.
    unfold dict_values in Hl. simpl in Hl. apply not_elem_of_cons in Hl as [Hne Hl].
    rewrite (IH _ _ Hloop Hl). by apply heap_insert_total_ne.
Qed.

(** The frequency of a word of the mapping after the assignment. *)
Lemma assign_loop_frequency doozan_freq entries h stats h' stats' word l :
  assign_frequencies entries doozan_freq h stats = Ok (h', stats') →
  dict_wf entries h → dict_get word entries = Some l →
  e_frequency (h' !!! l) = assigned_frequency doozan_freq word (h !!! l).
Proof.
  unfold assign_frequencies. revert h stats.
  induction entries as [| [w0 l0] entries IH]; intros h stats Hloop Hwf Hget;
    simpl in Hloop, Hget; [done |].
  apply bind_Ok in Hloop as ([h1 stats1] & Hstep & Hloop).
  apply assign_step_inv in Hstep as ->.
  destruct Hwf as (Hkeys & Hvals & Hlt).
  unfold dict_keys, dict_values in *. simpl in *.
  apply NoDup_cons in Hkeys as [Hk Hkeys], Hvals as [Hv Hvals].
  apply Forall_cons in Hlt as [Hl0 Hlt].
  case_decide as Hw.
  - simplify_eq.
    rewrite (assign_loop_obj_other _ _ _ _ _ _ _ Hloop Hv).
    by rewrite heap_insert_total_eq.
  - assert (l ≠ l0) as Hne.
    { intros ->. apply Hv. apply dict_get_Some_elem in Hget.
      apply list_elem_of_fmap. by exists (word, l0). }
    rewrite (IH _ _ Hloop); [| | done].
    + by rewrite heap_insert_total_ne.
    + repeat split; [done | done |]. by rewrite length_insert.
Qed.

(** ** Merge and assignment together *)

Lemma merge_loop_extends current doozan_vocab doozan_raw F final h stats
    final' h' stats' :
  foldM (merge_step current doozan_vocab doozan_raw) (final, h, stats) F
    = Ok (final', h', stats') →
  ∃ extra, final' = final ++ extra.
Proof.
  revert final h stats. induction F as [| item F IH]; intros final h stats Hloop;
    simpl in Hloop.
  - simplify_eq. exists []. by rewrite app_nil_r.
  - apply bind_Ok in Hloop as ([[final1 h1] stats1] & Hstep & Hloop).
    apply merge_step_extends in Hstep as [extra1 ->].
    destruct (IH _ _ _ Hloop) as [extra2 ->].
    exists (extra1 ++ extra2). by rewrite app_assoc.
Qed.

(** What lines 612 and 613 of [build] do to the store: the two calls
    return; the merged mapping is the curated one followed by new words;
    an object of the initial store changes by a lemma fill and a frequency
    at most; and when the curated words have an object each, the object of
    a curated word gets the merged lemma and the assigned frequency. *)
Lemma merge_assign_run
    (current : dict pystr loc) (freeling_candidates : dict pystr (list Candidate))
    (doozan_vocab : gset pystr) (doozan_raw doozan_freq : dict pystr Z)
    (h : heap) (stats : stats_t) :
  counters_ready stats →
  Forall (λ item, item.2 ≠ []) freeling_candidates →
  ∃ final h1 stats1 h2 stats2,
    merge_entries current freeling_candidates doozan_vocab doozan_raw h stats
      = Ok (final, h1, stats1)
    ∧ assign_frequencies final doozan_freq h1 stats1 = Ok (h2, stats2)
    ∧ (∃ extra, final = current ++ extra)
    ∧ (∀ l, (l < length h)%nat →
            same_but_lemma (h !!! l) (h1 !!! l) ∧ lemma_filled (h !!! l) (h1 !!! l))
    ∧ (∀ l, same_but_frequency (h1 !!! l) (h2 !!! l))
    ∧ (NoDup (dict_keys freeling_candidates) → dict_wf current h →
       ∀ word l, dict_get word current = Some l →
         dict_get word final = Some l
         ∧ e_lemma (h1 !!! l) = merged_lemma freeling_candidates word (h !!! l)
         ∧ e_frequency (h2 !!! l) = assigned_frequency doozan_freq word (h1 !!! l)).
Proof.
  intros Hready Hne.
  destruct (merge_loop_total current doozan_vocab doozan_raw freeling_candidates
              current h stats Hready Hne) as (final & h1 & stats1 & Hmerge & Hready1).
  destruct (assign_loop_total doozan_freq final h1 stats1 Hready1)
    as (h2 & stats2 & Hassign & _).
  exists final, h1, stats1, h2, stats2.
  split; [done |]. split; [done |].
  pose proof (merge_loop_frame _ _ _ _ _ _ _ _ _ _ Hmerge) as [Hlen Hframe].
  pose proof (merge_loop_extends _ _ _ _ _ _ _ _ _ _ Hmerge) as [extra ->].
  pose proof (assign_loop_frame _ _ _ _ _ _ Hassign) as [_ Hframe2].
  split; [by exists extra |]. split; [done |]. split; [done |].
  intros Hnd Hwf word l Hget.
  pose proof (merge_loop_wf _ _ _ _ _ _ _ _ _ _ Hmerge Hwf) as [Hwf1 _].
  assert (dict_get word (current ++ extra) = Some l) as Hget1
    by (by rewrite dict_get_app, Hget).
  split; [done |]. split.
  - by eapply merge_loop_lemma.
  - by eapply assign_loop_frequency.
Qed.

(** The sample run: hypotheses of the lemmas above at the sample data. *)
Lemma casa_current_wf : dict_wf casa_current casa_store.
Proof.
  repeat split; try apply NoDup_singleton. apply Forall_singleton. simpl. lia.
Qed.

Lemma casa_candidates_nonempty : Forall (λ item, item.2 ≠ []) casa_candidates.
Proof. by apply Forall_singleton. Qed.

(** C1, as stated, fails: the curated frequency 500 of [casa] is replaced
    by the corpus score 1000. *)
Lemma curated_frequency_overridden :
  ∃ final h1 stats1 h2 stats2,
    merge_entries casa_current casa_candidates casa_vocab casa_raw
                  casa_store (initial_stats 1) = Ok (final, h1, stats1)
    ∧ assign_frequencies final casa_freq h1 stats1 = Ok (h2, stats2)
    ∧ dict_get (lit "casa") casa_current = Some 0%nat
    ∧ dict_get (lit "casa") final = Some 0%nat
    ∧ e_frequency (casa_store !!! 0%nat) = 500
    ∧ e_frequency (h2 !!! 0%nat) = 1000.
Proof.
  destruct (merge_assign_run casa_current casa_candidates casa_vocab casa_raw
              casa_freq casa_store (initial_stats 1)
              (initial_stats_ready 1) casa_candidates_nonempty)
    as (final & h1 & stats1 & h2 & stats2 & Hmerge & Hassign & _ & _ & _ & Hcur).
  destruct (Hcur (NoDup_singleton _) casa_current_wf (lit "casa") 0%nat eq_refl)
    as (Hget & _ & Hfreq).
  exists final, h1, stats1, h2, stats2.
  split; [exact Hmerge |]. split; [exact Hassign |].
  split; [reflexivity |]. split; [exact Hget |]. split; [reflexivity |].
  rewrite Hfreq. reflexivity.
Qed.

(** C1, amended: the merge and the frequency assignment return; a curated
    word keeps its object and its category, gender and number; its
    frequency becomes the corpus score when the corpus has the word and
    max(1, curated frequency) otherwise; its lemma is unchanged, or was
    empty and is now the non-empty lemma of the best candidate. *)
Theorem curated_precedence
    (current : dict pystr loc) (freeling_candidates : dict pystr (list Candidate))
    (doozan_vocab : gset pystr) (doozan_raw doozan_freq : dict pystr Z)
    (h : heap) (stats : stats_t) (word : pystr) (l : loc) :
  counters_ready stats →
  Forall (λ item, item.2 ≠ []) freeling_candidates →
  NoDup (dict_keys freeling_candidates) →
  dict_wf current h →
  dict_get word current = Some l →
  e_source (h !!! l) = lit "current" →
  ∃ final h1 stats1 h2 stats2,
    merge_entries current freeling_candidates doozan_vocab doozan_raw h stats
      = Ok (final, h1, stats1)
    ∧ assign_frequencies final doozan_freq h1 stats1 = Ok (h2, stats2)
    ∧ dict_get word final = Some l
    ∧ e_category (h2 !!! l) = e_category (h !!! l)
    ∧ e_gender (h2 !!! l) = e_gender (h !!! l)
    ∧ e_number (h2 !!! l) = e_number (h !!! l)
    ∧ e_frequency (h2 !!! l) =
        match dict_get word doozan_freq with
        | Some freq => freq
        | None => Z.max 1 (e_frequency (h !!! l))
        end
    ∧ e_lemma (h2 !!! l) = merged_lemma freeling_candidates word (h !!! l)
    ∧ lemma_filled (h !!! l) (h2 !!! l).
Proof.
  intros Hready Hne Hnd Hwf Hget Hsrc.
  destruct (merge_assign_run current freeling_candidates doozan_vocab doozan_raw
              doozan_freq h stats Hready Hne)
    as (final & h1 & stats1 & h2 & stats2 & Hmerge & Hassign & _
        & Hframe & Hframe2 & Hcur).
  destruct (Hcur Hnd Hwf word l Hget) as (Hget1 & Hlem & Hfreq).
  pose proof (dict_wf_lt _ _ _ _ Hwf Hget) as Hl.
  destruct (Hframe l Hl) as [(Hw & Hc & Hg & Hn & Hf & Hs) Hfill].
  destruct (Hframe2 l) as (Hw2 & Hc2 & Hg2 & Hn2 & Hl2 & Hs2).
  exists final, h1, stats1, h2, stats2.
  split; [done |]. split; [done |]. split; [done |].
  split; [congruence |]. split; [congruence |]. split; [congruence |].
  split.
  - rewrite Hfreq. unfold assigned_frequency.
    destruct (dict_get word doozan_freq); [done |].
    by rewrite Hs, Hsrc, Hf.
  - split; [congruence |]. unfold lemma_filled in *. by rewrite Hl2.
Qed.

Lemma curated_precedence_witness :
  ∃ final h1 stats1 h2 stats2,
    merge_entries casa_current casa_candidates casa_vocab casa_raw
                  casa_store (initial_stats 1) = Ok (final, h1, stats1)
    ∧ assign_frequencies final casa_freq h1 stats1 = Ok (h2, stats2)
    ∧ dict_get (lit "casa") final = Some 0%nat
    ∧ e_category (h2 !!! 0%nat) = e_category (casa_store !!! 0%nat)
    ∧ e_gender (h2 !!! 0%nat) = e_gender (casa_store !!! 0%nat)
    ∧ e_number (h2 !!! 0%nat) = e_number (casa_store !!! 0%nat)
    ∧ e_frequency (h2 !!! 0%nat) =
        match dict_get (lit "casa") casa_freq with
        | Some freq => freq
        | None => Z.max 1 (e_frequency (casa_store !!! 0%nat))
        end
    ∧ e_lemma (h2 !!! 0%nat)
      = merged_lemma casa_candidates (lit "casa") (casa_store !!! 0%nat)
    ∧ lemma_filled (casa_store !!! 0%nat) (h2 !!! 0%nat).
Proof.
  apply (curated_precedence casa_current casa_candidates casa_vocab casa_raw
           casa_freq casa_store (initial_stats 1) (lit "casa") 0%nat).
  - apply initial_stats_ready.
  - apply casa_candidates_nonempty.
  - apply NoDup_singleton.
  - apply casa_current_wf.
  - reflexivity.
  - reflexivity.
Defined.

Local Arguments merge_step : simpl never.
Local Arguments assign_step : simpl never.

(** ** Words the analyzer proposes and the curated dictionary lacks *)

Lemma existsb_pointwise {A} (f g : A → bool) (l : list A) :
  (∀ x, f x = g x) → existsb f l = existsb g l.
Proof. intros Hfg. induction l as [| x l IH]; simpl; [done |]. by rewrite Hfg, IH. Qed.

(** The accent heuristic reads the category of curated entries only. *)
Lemma is_probable_store word category current h h' doozan_raw :
  (∀ w l, dict_get w current = Some l →
          e_category (h' !!! l) = e_category (h !!! l)) →
  is_probable_unaccented_verb_variant word category current h' doozan_raw
  = is_probable_unaccented_verb_variant word category current h doozan_raw.
Proof.
  intros Hcat. unfold is_probable_unaccented_verb_variant.
  destruct (negb _); [done |]. destruct (existsb _ word); [done |].
  cbv zeta. apply existsb_pointwise. intros idx.
  destruct (dict_get (char_at word idx) accent_map) as [repl |]; [| done].
  destruct (dict_get _ current) as [l |] eqn:Hget; [| done].
  by rewrite (Hcat _ _ Hget).
Qed.

Lemma is_probable_verb word current h doozan_raw :
  is_probable_unaccented_verb_variant word (lit "verbo") current h doozan_raw = false.
Proof. reflexivity. Qed.

Section MergeNew.
  Context (current : dict pystr loc) (doozan_vocab : gset pystr)
          (doozan_raw : dict pystr Z).

  (** The fate of a new word is settled by the iteration for it: the word
      stays out of the mapping exactly when one of the two filters holds, in
      the store [hk] that iteration finds. *)
Lemma merge_loop_get_new F final h stats final' h' stats' word candidates best :
    foldM (merge_step current doozan_vocab doozan_raw) (final, h, stats) F
      = Ok (final', h', stats') →
    NoDup (dict_keys F) → dict_get word F = Some candidates →
    select_best_candidate candidates = Ok best →
    dict_get word final = None →
    ∃ hk,
      (length h ≤ length hk)%nat
      ∧ (∀ l, (l < length h)%nat → same_but_lemma (h !!! l) (hk !!! l))
      ∧ (dict_get word final' = None ↔
           (str_eqb (c_category best) (lit "verbo")
            && negb (bool_decide (word ∈ doozan_vocab)))
           || is_probable_unaccented_verb_variant
                word (c_category best) current hk doozan_raw = true).
  Proof.
    revert final h stats.
    induction F as [| [w cs] F IH]; intros final h stats Hloop Hnd HF Hbest Hget;
      simpl in Hloop; [done |].
    apply bind_Ok in Hloop as ([[final1 h1] stats1] & Hstep & Hloop).
    unfold dict_keys in Hnd. simpl in Hnd. apply NoDup_cons in Hnd as [Hfresh Hnd].
    simpl in HF. destruct (decide (word = w)) as [<- | Hne].
    - simplify_eq. exists h. split; [done |].
      split; [intros; apply same_but_lemma_refl |].
      rewrite (merge_loop_get_other _ _ _ _ _ _ _ _ _ _ _ Hloop Hfresh).
      apply merge_step_inv in Hstep as (best' & Hbest' & Hcase).
      rewrite Hget in Hcase. assert (best' = best) as -> by congruence.
      destruct (_ || _); destruct Hcase as [-> _]; [done |].
      rewrite dict_get_set_eq. split; intros; done.
    - pose proof (merge_step_frame _ _ _ _ _ _ _ _ _ _ Hstep) as [Hlen1 Hframe1].
      assert (dict_get word final1 = None) as Hget1.
      { rewrite <- Hget. eapply merge_step_get_other; [exact Hstep | done]. }
      destruct (IH _ _ _ Hloop Hnd HF Hbest Hget1) as (hk & Hlen & Hframe & Hiff).
      exists hk. split; [lia |]. split; [| done].
      intros l Hl. eapply same_but_lemma_trans; [by apply Hframe1 |].
      apply Hframe. lia.
  Qed.
End MergeNew.

(** C10: the merged mapping holds the objects of the curated mapping, so
    the lemma that the merge fills in and the frequency that the assignment
    writes are read back through the caller's curated mapping; category,
    gender and number of the curated entries are as before (the word and
    the source of an entry are never written either). *)
Theorem merge_shares_entries
    (current : dict pystr loc) (freeling_candidates : dict pystr (list Candidate))
    (doozan_vocab : gset pystr) (doozan_raw doozan_freq : dict pystr Z)
    (h : heap) (stats : stats_t) :
  counters_ready stats →
  Forall (λ item, item.2 ≠ []) freeling_candidates →
  NoDup (dict_keys freeling_candidates) →
  dict_wf current h →
  ∃ final h1 stats1 h2 stats2,
    merge_entries current freeling_candidates doozan_vocab doozan_raw h stats
      = Ok (final, h1, stats1)
    ∧ assign_frequencies final doozan_freq h1 stats1 = Ok (h2, stats2)
    ∧ (∃ extra, final = current ++ extra)
    ∧ ∀ word l, dict_get word current = Some l →
        dict_get word final = Some l
        ∧ e_lemma (h1 !!! l) = merged_lemma freeling_candidates word (h !!! l)
        ∧ e_lemma (h2 !!! l) = e_lemma (h1 !!! l)
        ∧ e_frequency (h2 !!! l) = assigned_frequency doozan_freq word (h !!! l)
        ∧ e_category (h2 !!! l) = e_category (h !!! l)
        ∧ e_gender (h2 !!! l) = e_gender (h !!! l)
        ∧ e_number (h2 !!! l) = e_number (h !!! l)
        ∧ e_word (h2 !!! l) = e_word (h !!! l)
        ∧ e_source (h2 !!! l) = e_source (h !!! l).
Proof.
  intros Hready Hne Hnd Hwf.
  destruct (merge_assign_run current freeling_candidates doozan_vocab doozan_raw
              doozan_freq h stats Hready Hne)
    as (final & h1 & stats1 & h2 & stats2 & Hmerge & Hassign & Hext
        & Hframe & Hframe2 & Hcur).
  exists final, h1, stats1, h2, stats2.
  split; [done |]. split; [done |]. split; [done |].
  intros word l Hget.
  destruct (Hcur Hnd Hwf word l Hget) as (Hget1 & Hlem & Hfreq).
  pose proof (dict_wf_lt _ _ _ _ Hwf Hget) as Hl.
  destruct (Hframe l Hl) as [(Hw & Hc & Hg & Hn & Hf & Hs) _].
  destruct (Hframe2 l) as (Hw2 & Hc2 & Hg2 & Hn2 & Hl2 & Hs2).
  split; [done |]. split; [done |]. split; [done |].
  split; [| repeat split; congruence].
  rewrite Hfreq. unfold assigned_frequency. by rewrite Hs, Hf.
Qed.

Lemma merge_shares_entries_witness :
  ∃ final h1 stats1 h2 stats2,
    merge_entries casa_current casa_candidates casa_vocab casa_raw
                  casa_store (initial_stats 1) = Ok (final, h1, stats1)
    ∧ assign_frequencies final casa_freq h1 stats1 = Ok (h2, stats2)
    ∧ dict_get (lit "casa") casa_current = Some 0%nat
    ∧ e_lemma (casa_store !!! 0%nat) = []
    ∧ e_frequency (casa_store !!! 0%nat) = 500
    ∧ e_lemma (h2 !!! 0%nat) = lit "casa"
    ∧ e_frequency (h2 !!! 0%nat) = 1000.
Proof.
  destruct (merge_shares_entries casa_current casa_candidates casa_vocab casa_raw
              casa_freq casa_store (initial_stats 1)
              (initial_stats_ready 1) casa_candidates_nonempty
              (NoDup_singleton _) casa_current_wf)
    as (final & h1 & stats1 & h2 & stats2 & Hmerge & Hassign & _ & Hcur).
  destruct (Hcur (lit "casa") 0%nat eq_refl)
    as (_ & Hlem1 & Hlem2 & Hfreq & _).
  exists final, h1, stats1, h2, stats2.
  split; [exact Hmerge |]. split; [exact Hassign |].
  split; [reflexivity |]. split; [reflexivity |]. split; [reflexivity |].
  split.
  - rewrite Hlem2, Hlem1. reflexivity.
  - rewrite Hfreq. reflexivity.
Defined.

(** C5: a new word whose best analysis is a verb is in the merged mapping
    exactly when the frequency vocabulary has the word. *)
Theorem unsupported_infinitive_filter
    (current : dict pystr loc) (freeling_candidates : dict pystr (list Candidate))
    (doozan_vocab : gset pystr) (doozan_raw : dict pystr Z)
    (h : heap) (stats : stats_t)
    (word : pystr) (candidates : list Candidate) (best : Candidate) :
  counters_ready stats →
  Forall (λ item, item.2 ≠ []) freeling_candidates →
  NoDup (dict_keys freeling_candidates) →
  dict_get word freeling_candidates = Some candidates →
  select_best_candidate candidates = Ok best →
  c_category best = lit "verbo" →
  dict_get word current = None →
  ∃ final h1 stats1,
    merge_entries current freeling_candidates doozan_vocab doozan_raw h stats
      = Ok (final, h1, stats1)
    ∧ (is_Some (dict_get word final) ↔ word ∈ doozan_vocab).
Proof.
  intros Hready Hne Hnd HF Hbest Hverb Hnew.
  destruct (merge_loop_total current doozan_vocab doozan_raw freeling_candidates
              current h stats Hready Hne) as (final & h1 & stats1 & Hmerge & _).
  exists final, h1, stats1. split; [done |].
  destruct (merge_loop_get_new _ _ _ _ _ _ _ _ _ _ _ _ _ Hmerge Hnd HF Hbest Hnew)
    as (hk & _ & _ & Hiff).
  rewrite Hverb, is_probable_verb, orb_false_r in Hiff.
  unfold str_eqb in Hiff. rewrite bool_decide_eq_true_2 in Hiff by done.
  simpl in Hiff. rewrite negb_true_iff, bool_decide_eq_false in Hiff.
  rewrite <- not_eq_None_Some, Hiff. split.
  - intros Hnn. by destruct (decide (word ∈ doozan_vocab)).
  - tauto.
Qed.

Lemma unsupported_infinitive_filter_witness :
  ∃ final h1 stats1,
    merge_entries casa_current caminar_candidates casa_vocab casa_raw
                  casa_store (initial_stats 1) = Ok (final, h1, stats1)
    ∧ dict_get (lit "caminar") final = None.
Proof.
  destruct (unsupported_infinitive_filter casa_current caminar_candidates
              casa_vocab casa_raw casa_store (initial_stats 1)
              (lit "caminar") [caminar_verb] caminar_verb)
    as (final & h1 & stats1 & Hmerge & Hiff).
  - apply initial_stats_ready.
  - by apply Forall_singleton.
  - apply NoDup_singleton.
  - reflexivity.
  - reflexivity.
  - reflexivity.
  - reflexivity.
  - exists final, h1, stats1. split; [exact Hmerge |].
    destruct (dict_get (lit "caminar") final) as [l |]; [| reflexivity].
    assert (lit "caminar" ∈ casa_vocab) as Hin by (apply Hiff; by eexists).
    apply elem_of_singleton in Hin. discriminate Hin.
Defined.

Local Arguments merge_step : simpl never.

(** ** Accent filter *)

Lemma accent_map_spec (word : pystr) (idx : nat) (repl : pystr) :
  dict_get (char_at word idx) accent_map = Some repl
  ↔ ∃ bare accented,
      word !! idx = Some bare ∧ (bare, accented) ∈ accent_pairs
      ∧ repl = [accented].
Proof.
  unfold char_at, accent_map, accent_pairs.
  change (lit "a") with [97%N]. change (lit "e") with [101%N].
  change (lit "i") with [105%N]. change (lit "o") with [111%N].
  change (lit "u") with [117%N].
  destruct (word !! idx) as [c |]; simpl.
  - split.
    + intros Hget. exists c.
      repeat case_decide; simplify_eq; eexists; (split; [done |]);
        (split; [| done]); rewrite !elem_of_cons; tauto.
    + intros (bare & accented & Hc & Hin & ->). simplify_eq.
      rewrite !elem_of_cons, elem_of_nil in Hin.
      destruct Hin as [? | [? | [? | [? | [? | []]]]]]; by simplify_eq.
  - split; [done |]. by intros (? & ? & ? & _).
Qed.

(** The heuristic of the source computes the condition of the
    specification. *)
Lemma is_probable_spec word category current h doozan_raw :
  is_probable_unaccented_verb_variant word category current h doozan_raw = true
  ↔ accent_typo_of_verb word category current h doozan_raw.
Proof.
  unfold is_probable_unaccented_verb_variant, accent_typo_of_verb.
  destruct (bool_decide (category ∈ _)) eqn:Hcat; cbn [negb].
  2: { apply bool_decide_eq_false in Hcat. split; [done | tauto]. }
  apply bool_decide_eq_true in Hcat.
  destruct (existsb _ word) eqn:Hacc.
  { apply existsb_exists in Hacc as (ch & Hin & Hch).
    apply bool_decide_eq_true in Hch. apply list_elem_of_In in Hin.
    split; [done |]. intros (_ & Hno & _). by destruct (Hno ch). }
  assert (∀ ch, ch ∈ word → ch ∉ accented_vowels) as Hno.
  { intros ch Hin Hch.
    assert (existsb (λ ch, bool_decide (ch ∈ accented_vowels)) word = true)
      as Hex; [| congruence].
    apply existsb_exists. exists ch. split; [by apply list_elem_of_In |].
    by apply bool_decide_eq_true. }
  rewrite existsb_exists. split.
  - intros (idx & Hidx & Hbody). cbv beta zeta in Hbody.
    destruct (dict_get (char_at word idx) accent_map) as [repl |] eqn:Hrepl;
      [| done].
    apply accent_map_spec in Hrepl as (bare & accented & Hbare & Hpair & ->).
    apply in_seq in Hidx. simpl in Hbody.
    rewrite <- insert_take_drop in Hbody by lia.
    destruct (dict_get _ current) as [l |] eqn:Hget; [| done].
    unfold str_eqb in Hbody.
    destruct (bool_decide (e_category (h !!! l) = lit "verbo")) eqn:Hverb;
      [| done].
    apply bool_decide_eq_true in Hverb. simpl in Hbody.
    apply Z.leb_le in Hbody.
    split; [done |]. split; [done |].
    exists idx, bare, accented, l. rewrite Z.mul_comm. done.
  - intros (_ & _ & idx & bare & accented & l & Hbare & Hpair & Hget & Hverb & Hle).
    exists idx. cbv beta zeta. split.
    { apply in_seq. apply lookup_lt_Some in Hbare. lia. }
    assert (dict_get (char_at word idx) accent_map = Some [accented]) as ->
      by (apply accent_map_spec; eauto).
    simpl. rewrite <- insert_take_drop by (by eapply lookup_lt_Some).
    rewrite Hget, Hverb. unfold str_eqb. rewrite bool_decide_eq_true_2 by done.
    simpl. apply Z.leb_le. by rewrite Z.mul_comm.
Qed.

(** C4: a word that the curated dictionary lacks is left out of the merged
    mapping, without being an infinitive unknown to the corpus, exactly
    when: the category of its best analysis is noun, adjective, adverb or
    other; it has no accented vowel; and accenting one of its vowels gives a
    curated verb with a raw count of at least max(2000, 5 x the raw count of
    the word), absent counts being 0. *)
Theorem accent_typo_filter
    (current : dict pystr loc) (freeling_candidates : dict pystr (list Candidate))
    (doozan_vocab : gset pystr) (doozan_raw : dict pystr Z)
    (h : heap) (stats : stats_t)
    (word : pystr) (candidates : list Candidate) (best : Candidate) :
  counters_ready stats →
  Forall (λ item, item.2 ≠ []) freeling_candidates →
  NoDup (dict_keys freeling_candidates) →
  Forall (λ l, l < length h)%nat (dict_values current) →
  dict_get word freeling_candidates = Some candidates →
  select_best_candidate candidates = Ok best →
  dict_get word current = None →
  ∃ final h1 stats1,
    merge_entries current freeling_candidates doozan_vocab doozan_raw h stats
      = Ok (final, h1, stats1)
    ∧ (is_probable_unaccented_verb_variant
         word (c_category best) current h doozan_raw = true
       ↔ accent_typo_of_verb word (c_category best) current h doozan_raw)
    ∧ (dict_get word final = None
       ∧ ¬ (c_category best = lit "verbo" ∧ word ∉ doozan_vocab)
       ↔ accent_typo_of_verb word (c_category best) current h doozan_raw).
Proof.
  intros Hready Hne Hnd Hlt HF Hbest Hnew.
  destruct (merge_loop_total current doozan_vocab doozan_raw freeling_candidates
              current h stats Hready Hne) as (final & h1 & stats1 & Hmerge & _).
  exists final, h1, stats1. split; [done |].
  split; [apply is_probable_spec |].
  destruct (merge_loop_get_new _ _ _ _ _ _ _ _ _ _ _ _ _ Hmerge Hnd HF Hbest Hnew)
    as (hk & _ & Hframe & Hiff).
  rewrite (is_probable_store _ _ _ h hk) in Hiff.
  2: { intros w l Hget. apply Hframe.
       rewrite Forall_forall in Hlt. apply Hlt. unfold dict_values.
       apply list_elem_of_fmap. exists (w, l). split; [done |].
       by apply dict_get_Some_elem. }
  rewrite Hiff, <- is_probable_spec. clear Hiff.
  unfold str_eqb.
  destruct (is_probable_unaccented_verb_variant _ _ _ _ _) eqn:Hprob.
  - rewrite orb_true_r. split; [done |]. intros _. split; [done |].
    intros [Hverb _]. rewrite Hverb, is_probable_verb in Hprob. done.
  - rewrite orb_false_r. split; [| done]. intros [Hdrop Hnot].
    apply andb_true_iff in Hdrop as [Hverb Hout].
    apply bool_decide_eq_true in Hverb.
    apply negb_true_iff, bool_decide_eq_false in Hout. tauto.
Qed.

Lemma accent_typo_filter_witness :
  ∃ final h1 stats1,
    merge_entries canto_current canto_candidates canto_vocab canto_raw
                  canto_store (initial_stats 1) = Ok (final, h1, stats1)
    ∧ dict_get (lit "canto") final = None
    ∧ accent_typo_of_verb (lit "canto") (lit "sustantivo")
                          canto_current canto_store canto_raw.
Proof.
  destruct (accent_typo_filter canto_current canto_candidates
              canto_vocab canto_raw canto_store (initial_stats 1)
              (lit "canto") [canto_noun] canto_noun)
    as (final & h1 & stats1 & Hmerge & Hfun & Hiff).
  - apply initial_stats_ready.
  - by apply Forall_singleton.
  - apply NoDup_singleton.
  - apply Forall_singleton. simpl. lia.
  - reflexivity.
  - reflexivity.
  - reflexivity.
  - assert (accent_typo_of_verb (lit "canto") (c_category canto_noun)
              canto_current canto_store canto_raw) as Htypo
      by (apply Hfun; reflexivity).
    exists final, h1, stats1. split; [exact Hmerge |].
    split; [| exact Htypo]. apply Hiff, Htypo.
Defined.

(** ** Curated dictionary: duplicates *)

Section CurrentDictionary.
  Context (lower : pystr → pystr) (py_int : pystr → option Z).

Lemma current_line_step_skip current h stats line :
    parse_current_line lower py_int line = None →
    current_line_step lower py_int (current, h, stats) line = Ok (current, h, stats).
  Proof. intros Hline. unfold current_line_step. by rewrite Hline. Qed.

Lemma current_line_step_new current h stats line entry :
    parse_current_line lower py_int line = Some entry →
    dict_get (e_word entry) current = None →
    current_line_step lower py_int (current, h, stats) line
    = Ok (dict_set (e_word entry) (length h) current, h ++ [entry], stats).
  Proof. intros Hline Hget. unfold current_line_step. by rewrite Hline; simpl; rewrite Hget. Qed.

Lemma current_line_step_dup current h stats line entry l0 :
    parse_current_line lower py_int line = Some entry →
    dict_get (e_word entry) current = Some l0 →
    current_line_step lower py_int (current, h, stats) line
    = (stats' ← bump "current_duplicates" stats;
       Ok (if e_frequency ((h ++ [entry]) !!! l0) <? e_frequency entry
           then dict_set (e_word entry) (length h) current else current,
           h ++ [entry], stats')).
  Proof.
    intros Hline Hget. unfold current_line_step. rewrite Hline; simpl; rewrite Hget.
    destruct (bump _ stats); simpl; [| done]. by destruct (_ <? _).
  Qed.
End CurrentDictionary.



(** ** Tag decoder *)

Lemma malformed_spec (form tag : pystr) :
  is_empty form || is_empty tag || existsb isspace form = true
  ↔ malformed form tag.
Proof.
  unfold malformed. rewrite !orb_true_iff, !is_empty_true, existsb_exists. split.
  - intros [[? | ?] | (ch & Hin & Hsp)];
      [by left | by right; left | right; right; exists ch; by rewrite list_elem_of_In].
  - intros [? | [? | (ch & Hin & Hsp)]];
      [by left; left | by left; right | right; exists ch; by rewrite <- list_elem_of_In].
Qed.

Lemma startswith_cons_inv (s : pystr) (c : N) (p : pystr) :
  startswith s (c :: p) = true → ∃ s', s = c :: s' ∧ startswith s' p = true.
Proof.
  destruct s as [| d s']; simpl; [done |].
  intros [->%bool_decide_eq_true ?]%andb_true_iff. by exists s'.
Qed.

Lemma result_bind_Ok {A B} (a : A) (k : A → result B) : Ok a ≫= k = k a.
Proof. done. Qed.

Lemma known_prefix_elem (p : string) :
  bool_decide (p ∈ known_prefixes) = true → p ∈ known_prefixes.
Proof. apply bool_decide_eq_true. Qed.

(** A tag that starts with [V] starts with no other known prefix. *)
Ltac tag_starts_with_V HV HX :=
  apply startswith_cons_inv in HV as (? & -> & _);
  vm_compute in HX; discriminate HX.

(** A tag that starts with no known prefix does not satisfy [HX]. *)
Ltac tag_unknown Hunk HX :=
  rewrite ?Hunk in HX by (apply known_prefix_elem; vm_compute; reflexivity);
  simpl in HX; discriminate HX.

(** A branch that returns a candidate: none of the rejections applies. *)
Ltac branch_keeps Hwf HNP HX :=
  do 2 eexists; split; [reflexivity |];
  split; [by intros ?%Hwf |]; intros _;
  split; [intros ?; congruence |];
  split; [intros HV _ _; tag_starts_with_V HV HX | intros Hunk; tag_unknown Hunk HX].

(** C8, amended: with the counters of [build] in place the tag decoder
    returns, whatever the record.  A record without form or tag, or with
    white space in the form, gives no candidate and leaves every counter as
    it is.  Otherwise a proper-noun tag, a verb tag that is neither an
    infinitive nor a participle, and a tag with no known prefix give no
    candidate and add one to the counter of their kind. *)
Theorem tag_decoder_rejections
    (lower upper : pystr → pystr)
    (form lemma tag source_file : pystr) (stats : stats_t) :
  counters_ready stats →
  ∃ r stats',
    parse_freeling_candidate lower upper form lemma tag source_file stats
      = Ok (r, stats')
    ∧ (malformed (lower (strip form)) (strip tag) → r = None ∧ stats' = stats)
    ∧ (¬ malformed (lower (strip form)) (strip tag) →
       (startswith (strip tag) (lit "NP") = true →
          r = None ∧ incremented "freeling_skipped_np" stats stats')
       ∧ (startswith (strip tag) (lit "V") = true →
          char_at (strip tag) 2 ≠ lit "N" → char_at (strip tag) 2 ≠ lit "P" →
          r = None ∧ incremented "freeling_skipped_conjugated_verbs" stats stats')
       ∧ ((∀ p, p ∈ known_prefixes → startswith (strip tag) (lit p) = false) →
          r = None ∧ incremented "freeling_skipped_unknown_tag" stats stats')).
Proof.
  intros Hready. unfold parse_freeling_candidate. cbv zeta.
  generalize (strip tag) (lower (strip form)) (lower (strip lemma)).
  intros tag' form' lemma'.
  destruct (is_empty form' || is_empty tag' || existsb isspace form') eqn:Hmal.
  { exists None, stats. split; [done |]. split; [done |].
    intros []. by apply malformed_spec. }
  assert (malformed form' tag' → False) as Hwf.
  { intros Hm%malformed_spec. congruence. }
  destruct (startswith tag' (lit "NP")) eqn:HNP.
  { destruct (bump_ready "freeling_skipped_np" stats) as (s1 & Hb & _);
      [by eexists | done |].
    rewrite Hb, result_bind_Ok. exists None, s1. split; [done |].
    split; [by intros ?%Hwf |]. intros _.
    split; [intros _; split; [done | by apply bump_Ok_inv] |].
    split; [intros HV _ _; tag_starts_with_V HV HNP
           | intros Hunk; tag_unknown Hunk HNP]. }
  destruct (startswith tag' (lit "NC")) eqn:HNC; cbv beta iota.
  { branch_keeps Hwf HNP HNC. }
  destruct (startswith tag' (lit "AQ") || startswith tag' (lit "AO")) eqn:HA;
    cbv beta iota.
  { branch_keeps Hwf HNP HA. }
  destruct (startswith tag' (lit "DA")) eqn:HDA; cbv beta iota.
  { branch_keeps Hwf HNP HDA. }
  destruct (startswith tag' (lit "DD") || startswith tag' (lit "DI")
            || startswith tag' (lit "DP") || startswith tag' (lit "DT")
            || startswith tag' (lit "DE")) eqn:HD; cbv beta iota.
  { branch_keeps Hwf HNP HD. }
  destruct (startswith tag' (lit "PP") || startswith tag' (lit "PD")
            || startswith tag' (lit "PR") || startswith tag' (lit "PT")
            || startswith tag' (lit "PI") || startswith tag' (lit "PE")) eqn:HP;
    cbv beta iota.
  { branch_keeps Hwf HNP HP. }
  destruct (startswith tag' (lit "SP")) eqn:HSP; cbv beta iota.
  { branch_keeps Hwf HNP HSP. }
  destruct (startswith tag' (lit "CC") || startswith tag' (lit "CS")) eqn:HC;
    cbv beta iota.
  { branch_keeps Hwf HNP HC. }
  destruct (startswith tag' (lit "RG") || startswith tag' (lit "RN")) eqn:HR;
    cbv beta iota.
  { branch_keeps Hwf HNP HR. }
  destruct (startswith tag' (lit "I")) eqn:HI; cbv beta iota.
  { branch_keeps Hwf HNP HI. }
  destruct (startswith tag' (lit "V")) eqn:HV; cbv beta iota.
  - destruct (str_eqb (char_at tag' 2) (lit "N")) eqn:HmN.
    { destruct (bump_ready "freeling_infinitive_candidates" stats)
        as (s1 & Hb & _); [by eexists | done |].
      rewrite Hb, result_bind_Ok. cbv beta iota.
      do 2 eexists; split; [reflexivity |].
      split; [by intros ?%Hwf |]. intros _.
      split; [intros ?; congruence |].
      split; [intros _ HnN _; by apply bool_decide_eq_true in HmN
             | intros Hunk; tag_unknown Hunk HV]. }
    destruct (str_eqb (char_at tag' 2) (lit "P")) eqn:HmP.
    { destruct (bump_ready "freeling_participle_candidates" stats)
        as (s1 & Hb & _); [by eexists | done |].
      rewrite Hb, result_bind_Ok. cbv beta iota.
      do 2 eexists; split; [reflexivity |].
      split; [by intros ?%Hwf |]. intros _.
      split; [intros ?; congruence |].
      split; [intros _ _ HnP; by apply bool_decide_eq_true in HmP
             | intros Hunk; tag_unknown Hunk HV]. }
    destruct (bump_ready "freeling_skipped_conjugated_verbs" stats)
      as (s1 & Hb & _); [by eexists | done |].
    rewrite Hb, result_bind_Ok. exists None, s1. split; [done |].
    split; [by intros ?%Hwf |]. intros _.
    split; [intros ?; congruence |].
    split; [intros _ _ _; split; [done | by apply bump_Ok_inv]
           | intros Hunk; tag_unknown Hunk HV].
  - destruct (bump_ready "freeling_skipped_unknown_tag" stats)
      as (s1 & Hb & _); [by eexists | done |].
    rewrite Hb, result_bind_Ok. exists None, s1. split; [done |].
    split; [by intros ?%Hwf |]. intros _.
    split; [intros ?; congruence |].
    split; [intros ?; congruence |].
    intros _. split; [done | by apply bump_Ok_inv].
Qed.

(** C8, as stated, fails twice: a record with an empty form is dropped
    without any counter going up, and a tag with a space inside is
    decoded, not rejected. *)
Lemma tag_decoder_silent_and_lenient :
  parse_freeling_candidate ascii_lower ascii_upper
    [] (lit "casa") (lit "NCFS000") (lit "MM.nom") (initial_stats 1)
  = Ok (None, initial_stats 1)
  ∧ parse_freeling_candidate ascii_lower ascii_upper
      (lit "casa") (lit "casa") (lit "NC FS") (lit "MM.nom") (initial_stats 1)
    = Ok (Some (mkCandidate (lit "casa") (lit "casa") (lit "sustantivo")
                            (lit "_") (lit "_") (lit "NC FS") (lit "MM.nom")),
          initial_stats 1).
Proof. split; reflexivity. Qed.

Lemma tag_decoder_rejections_witness :
  ∃ r stats',
    parse_freeling_candidate ascii_lower ascii_upper
      (lit "Juan") (lit "juan") (lit "NP00000") (lit "MM.np") (initial_stats 1)
      = Ok (r, stats')
    ∧ r = None
    ∧ incremented "freeling_skipped_np" (initial_stats 1) stats'.
Proof.
  destruct (tag_decoder_rejections ascii_lower ascii_upper
              (lit "Juan") (lit "juan") (lit "NP00000") (lit "MM.np")
              (initial_stats 1) (initial_stats_ready 1))
    as (r & stats' & Hparse & _ & Hrest).
  destruct Hrest as ((-> & Hinc) & _).
  - intros Hm%malformed_spec. vm_compute in Hm. discriminate Hm.
  - reflexivity.
  - exists None, stats'. split; [exact Hparse |]. split; [reflexivity | exact Hinc].
Defined.

(** ** Frequency file: the reading loop *)

Section DoozanLoop.
  Context (lower : pystr → pystr) (py_int : pystr → option Z).

  Abbreviation line_count line :=
    (match parse_doozan_line lower py_int line with
     | DCount _ count => count
     | _ => 0
     end).

Lemma max_count_cons line lines :
    max_count lower py_int (line :: lines)
    = Z.max (line_count line) (max_count lower py_int lines).
  Proof.
    assert (0 ≤ max_count lower py_int lines) as Hnn.
    { induction lines as [| l ls IH]; simpl; [done |].
      destruct (parse_doozan_line lower py_int l); lia. }
    simpl. destruct (parse_doozan_line lower py_int line); lia.
  Qed.

Lemma max_count_nonneg lines : 0 ≤ max_count lower py_int lines.
  Proof.
    induction lines as [| l ls IH]; [done |]. rewrite max_count_cons. lia.
  Qed.

Lemma max_count_zero lines :
    max_count lower py_int lines = 0
    ↔ ∀ line w c, line ∈ lines →
        parse_doozan_line lower py_int line = DCount w c → c ≤ 0.
  Proof.
    induction lines as [| l ls IH].
    - split; [| done]. intros _ line w c Hin. by apply elem_of_nil in Hin.
    - rewrite max_count_cons. pose proof (max_count_nonneg ls) as Hnn. split.
      + intros Hmax line w c [-> | Hin]%elem_of_cons Hline.
        * rewrite Hline in Hmax. lia.
        * apply (proj1 IH ltac:(lia) line w c Hin Hline).
      + intros Hall.
        assert (max_count lower py_int ls = 0) as ->.
        { apply IH. intros line w c Hin. apply Hall. by right. }
        destruct (parse_doozan_line lower py_int l) as [| | w c] eqn:Hl; [lia.. |].
        pose proof (Hall l w c ltac:(by left) Hl). lia.
  Qed.

Lemma dict_set_NoDup {V} (k : pystr) (v : V) (d : dict pystr V) :
    NoDup (dict_keys d) → NoDup (dict_keys (dict_set k v d)).
  Proof.
    intros Hnd. destruct (dict_get k d) as [v0 |] eqn:Hget.
    - by rewrite dict_keys_set_present by (by eexists).
    - rewrite dict_set_fresh by done. unfold dict_keys. rewrite fmap_app. simpl.
      apply NoDup_app. split; [done |]. split; [| apply NoDup_singleton].
      intros k' Hk' ->%list_elem_of_singleton.
      apply dict_get_None in Hget. by apply Hget.
  Qed.

Lemma doozan_line_step_spec raw_freq max_raw stats line :
    counters_ready stats → doozan_inv raw_freq max_raw →
    ∃ raw_freq' stats',
      doozan_line_step lower py_int (raw_freq, max_raw, stats) line
        = Ok (raw_freq', Z.max (line_count line) max_raw, stats')
      ∧ counters_ready stats'
      ∧ doozan_inv raw_freq' (Z.max (line_count line) max_raw).
  Proof.
    intros Hready (Hnd & Hpos & Hmax). unfold doozan_line_step.
    assert (0 ≤ max_raw) as Hnn.
    { destruct Hmax as [-> | [w Hw]]; [done |]. apply Hpos in Hw. lia. }
    destruct (parse_doozan_line lower py_int line) as [| | word count].
    - exists raw_freq, stats. rewrite Z.max_r by done. done.
    - destruct (bump_ready "doozan_bad_lines" stats) as (s1 & -> & Hs1);
        [by eexists | done |].
      exists raw_freq, s1. rewrite Z.max_r by done. done.
    - destruct (count <=? 0) eqn:Hc.
      { apply Z.leb_le in Hc. exists raw_freq, stats.
        rewrite Z.max_r by lia. done. }
      apply Z.leb_gt in Hc.
      destruct (dict_get word raw_freq) as [prev |] eqn:Hprev.
      + destruct (prev <? count) eqn:Hlt.
        * apply Z.ltb_lt in Hlt. exists (dict_set word count raw_freq), stats.
          split; [f_equal; f_equal; f_equal; destruct (max_raw <? count) eqn:?; lia |].
          split; [done |]. split; [by apply dict_set_NoDup |]. split.
          -- intros w c. destruct (decide (word = w)) as [<- | Hne].
             ++ rewrite dict_get_set_eq. intros [= <-]. lia.
             ++ rewrite dict_get_set_ne by done. intros Hw%Hpos. lia.
          -- destruct (decide (count ≤ max_raw)) as [Hle | Hgt].
             ++ rewrite Z.max_r by done. destruct Hmax as [-> | [w Hw]]; [lia |].
                right. exists w. rewrite dict_get_set_ne; [done |].
                intros <-. rewrite Hprev in Hw. simplify_eq. lia.
             ++ rewrite Z.max_l by lia. right. exists word.
                apply dict_get_set_eq.
        * apply Z.ltb_ge in Hlt. exists raw_freq, stats.
          pose proof (Hpos _ _ Hprev). rewrite Z.max_r by lia. done.
      + exists (dict_set word count raw_freq), stats.
        split; [f_equal; f_equal; f_equal; destruct (max_raw <? count) eqn:?; lia |].
        split; [done |]. split; [by apply dict_set_NoDup |]. split.
        * intros w c. destruct (decide (word = w)) as [<- | Hne].
          -- rewrite dict_get_set_eq. intros [= <-]. lia.
          -- rewrite dict_get_set_ne by done. intros Hw%Hpos. lia.
        * destruct (decide (count ≤ max_raw)) as [Hle | Hgt].
          -- rewrite Z.max_r by done. destruct Hmax as [-> | [w Hw]]; [lia |].
             right. exists w. rewrite dict_get_set_ne; [done |].
             intros <-. congruence.
          -- rewrite Z.max_l by lia. right. exists word. apply dict_get_set_eq.
  Qed.

Lemma doozan_loop_spec lines raw_freq max_raw stats :
    counters_ready stats → doozan_inv raw_freq max_raw →
    ∃ raw_freq' stats',
      foldM (doozan_line_step lower py_int) (raw_freq, max_raw, stats) lines
        = Ok (raw_freq', Z.max max_raw (max_count lower py_int lines), stats')
      ∧ counters_ready stats'
      ∧ doozan_inv raw_freq' (Z.max max_raw (max_count lower py_int lines)).
  Proof.
    revert raw_freq max_raw stats.
    induction lines as [| line lines IH]; intros raw_freq max_raw stats Hready Hinv.
    - exists raw_freq, stats. simpl.
      assert (0 ≤ max_raw) as Hnn.
      { destruct Hinv as (_ & Hpos & [-> | [w Hw]]); [done |]. apply Hpos in Hw. lia. }
      rewrite Z.max_l by done. done.
    - destruct (doozan_line_step_spec raw_freq max_raw stats line Hready Hinv)
        as (raw1 & stats1 & Hstep & Hready1 & Hinv1).
      destruct (IH _ _ _ Hready1 Hinv1) as (raw2 & stats2 & Hloop & Hready2 & Hinv2).
      exists raw2, stats2. cbn [foldM]. rewrite Hstep, result_bind_Ok.
      rewrite max_count_cons.
      replace (Z.max max_raw (Z.max (line_count line) (max_count lower py_int lines)))
        with (Z.max (Z.max (line_count line) max_raw) (max_count lower py_int lines))
        by lia.
      done.
  Qed.

Lemma doozan_inv_empty : doozan_inv [] 0.
  Proof. split; [apply NoDup_nil_2 |]. split; [done | by left]. Qed.
End DoozanLoop.

(** ** Curated dictionary: the loop returns *)

Section CurrentLoop.
  Context (lower : pystr → pystr) (py_int : pystr → option Z).

Lemma current_line_step_total current h stats line :
    counters_ready stats →
    ∃ current' h' stats',
      current_line_step lower py_int (current, h, stats) line
        = Ok (current', h', stats')
      ∧ counters_ready stats'.
  Proof.
    intros Hready.
    destruct (parse_current_line lower py_int line) as [entry |] eqn:Hline.
    - destruct (dict_get (e_word entry) current) as [l0 |] eqn:Hget.
      + rewrite (current_line_step_dup _ _ _ _ _ _ _ _ Hline Hget).
        destruct (bump_ready "current_duplicates" stats) as (s1 & -> & Hs1);
          [by eexists | done |].
        rewrite result_bind_Ok. eauto.
      + rewrite (current_line_step_new _ _ _ _ _ _ _ Hline Hget). eauto.
    - rewrite (current_line_step_skip _ _ _ _ _ _ Hline). eauto.
  Qed.

Lemma parse_current_dictionary_total lines h stats :
    counters_ready stats →
    ∃ current h' stats',
      parse_current_dictionary lower py_int lines h stats = Ok (current, h', stats')
      ∧ counters_ready stats'.
  Proof.
    intros Hready. unfold parse_current_dictionary.
    destruct (foldM_total (current_line_step lower py_int)
                (λ st, counters_ready st.2) lines ([], h, stats))
      as ([[current h'] stats'] & Hloop & Hready'); [| done | by eauto].
    intros [[c1 h1] s1] line _ Hs1.
    destruct (current_line_step_total c1 h1 s1 line Hs1) as (c2 & h2 & s2 & -> & Hs2).
    by exists (c2, h2, s2).
  Qed.
End CurrentLoop.

(** ** Validator *)

Lemma mismatch_message (expected : option pystr) (actual : pystr) :
  mismatch expected actual = true ∨ mismatch expected actual = false.
Proof. destruct (mismatch expected actual); auto. Qed.

(** A check passes exactly when the anchor does not fail; when it does not
    pass it raises a [RuntimeError]. *)
Lemma validate_check_spec entries h chk :
  (validate_check entries h chk = Ok tt ∧ ¬ anchor_fails entries h chk)
  ∨ (∃ msg, validate_check entries h chk = Raise (RuntimeError msg))
    ∧ anchor_fails entries h chk.
Proof.
  destruct chk as [[[word exp_cat] exp_gen] exp_num].
  unfold validate_check, anchor_fails.
  destruct (dict_get word entries) as [l |]; [| right; eauto].
  destruct (mismatch exp_cat _) eqn:Hc; [right; eauto |].
  destruct (mismatch exp_gen _) eqn:Hg; [right; eauto |].
  destruct (mismatch exp_num _) eqn:Hn; [right; eauto |].
  left. split; [done |]. by intros [? | [? | ?]].
Qed.

Lemma validate_loop_spec entries h (l : list (pystr * option pystr * option pystr * option pystr)) :
  (foldM (λ _ chk, validate_check entries h chk) tt l = Ok tt
   ∧ ∀ chk, chk ∈ l → ¬ anchor_fails entries h chk)
  ∨ (∃ msg, foldM (λ _ chk, validate_check entries h chk) tt l
            = Raise (RuntimeError msg))
    ∧ ∃ chk, chk ∈ l ∧ anchor_fails entries h chk.
Proof.
  induction l as [| chk l IH]; simpl.
  - left. split; [done |]. intros chk Hin. by apply elem_of_nil in Hin.
  - destruct (validate_check_spec entries h chk) as [[-> Hok] | [[msg ->] Hbad]].
    + rewrite result_bind_Ok.
      destruct IH as [[-> Hall] | [[msg Hmsg] (chk' & Hin & Hbad)]].
      * left. split; [done |]. intros chk' [-> | Hin]%elem_of_cons; auto.
      * right. split; [by exists msg |]. exists chk'. split; [by right | done].
    + right. split; [by exists msg |]. exists chk. split; [by left | done].
Qed.

(** The validator passes exactly when no anchor fails. *)
Lemma validate_spec entries h :
  (validate entries h = Ok tt ∧ ∀ chk, chk ∈ checks → ¬ anchor_fails entries h chk)
  ∨ (∃ msg, validate entries h = Raise (RuntimeError msg))
    ∧ ∃ chk, chk ∈ checks ∧ anchor_fails entries h chk.
Proof. apply validate_loop_spec. Qed.

(** ** Fatal configurations *)

Section Fatal.
  Context (lower upper : pystr → pystr) (py_int : pystr → option Z)
          (log10 : Z → float).

  (** A frequency file without a positive count makes the normalizer
      raise. *)
Lemma load_doozan_frequency_no_counts lines stats :
    counters_ready stats →
    max_count lower py_int lines = 0 →
    load_doozan_frequency lower py_int log10 lines stats
    = Raise (RuntimeError no_positive_counts).
  Proof.
    intros Hready Hmax. unfold load_doozan_frequency.
    destruct (doozan_loop_spec lower py_int lines [] 0 stats Hready doozan_inv_empty)
      as (raw & stats' & -> & _ & _).
    rewrite result_bind_Ok, Hmax. reflexivity.
  Qed.

Lemma build_merged_no_counts inp :
    max_count lower py_int (doozan_lines inp) = 0 →
    build_merged lower upper py_int log10 inp
    = Raise (RuntimeError no_positive_counts).
  Proof.
    intros Hmax. unfold build_merged.
    destruct (parse_current_dictionary_total lower py_int (current_lines inp) []
                (initial_stats (length (freeling_files inp)))
                (initial_stats_ready _))
      as (current & h & stats & -> & Hready).
    rewrite result_bind_Ok. cbv beta iota.
    by rewrite (load_doozan_frequency_no_counts _ _ Hready Hmax).
  Qed.

Lemma build_raises args inp e :
    (current_merged ← build_merged lower upper py_int log10 inp;
     let '(current, merged, h, stats) := current_merged in
     _ ← validate merged h; Ok (current, merged, h, stats)) = Raise e →
    build lower upper py_int log10 args inp = ([], Raise e)
    ∧ main lower upper py_int log10 args inp = ([EPrint e], 1).
  Proof.
    intros Hraise. unfold main, build.
    destruct (build_merged lower upper py_int log10 inp)
      as [[[[current merged] h] stats] | e'] eqn:Hbm; simpl in *.
    - destruct (validate merged h) as [[] | e'] eqn:Hval; simpl in *; [done |].
      by simplify_eq.
    - by simplify_eq.
  Qed.
End Fatal.

(** C6: when no line of the frequency file has a positive count, or when
    the merge returns a mapping in which an anchor word is missing or has
    another category, gender or number than expected, [build] raises a
    [RuntimeError] before any effect, and [main] reports it, writes no
    output file and returns 1. *)
Theorem fatal_configuration_aborts
    (lower upper : pystr → pystr) (py_int : pystr → option Z) (log10 : Z → float)
    (args : args_t) (inp : inputs_t) :
  (∀ line w c, line ∈ doozan_lines inp →
     parse_doozan_line lower py_int line = DCount w c → c ≤ 0)
  ∨ (∃ current merged h stats chk,
       build_merged lower upper py_int log10 inp = Ok (current, merged, h, stats)
       ∧ chk ∈ checks ∧ anchor_fails merged h chk) →
  ∃ msg,
    build lower upper py_int log10 args inp = ([], Raise (RuntimeError msg))
    ∧ main lower upper py_int log10 args inp = ([EPrint (RuntimeError msg)], 1)
    ∧ wrote_output (main lower upper py_int log10 args inp).1 = false.
Proof.
  intros [Hnone | (current & merged & h & stats & chk & Hbm & Hin & Hbad)].
  - apply max_count_zero in Hnone.
    destruct (build_raises lower upper py_int log10 args inp
                (RuntimeError no_positive_counts)) as [Hbuild Hmain].
    { by rewrite (build_merged_no_counts _ _ _ _ _ Hnone). }
    exists no_positive_counts. by rewrite Hmain.
  - destruct (validate_spec merged h) as [[_ Hall] | [[msg Hmsg] _]].
    { by destruct (Hall chk Hin). }
    destruct (build_raises lower upper py_int log10 args inp (RuntimeError msg))
      as [Hbuild Hmain].
    { rewrite Hbm, result_bind_Ok. cbv beta iota. by rewrite Hmsg. }
    exists msg. by rewrite Hmain.
Qed.

Lemma fatal_configuration_aborts_witness :
  ∃ msg,
    build ascii_lower ascii_upper dec_int log10_tab (mkArgs false false)
          no_corpus_inputs = ([], Raise (RuntimeError msg))
    ∧ main ascii_lower ascii_upper dec_int log10_tab (mkArgs false false)
           no_corpus_inputs = ([EPrint (RuntimeError msg)], 1)
    ∧ wrote_output (main ascii_lower ascii_upper dec_int log10_tab
                         (mkArgs false false) no_corpus_inputs).1 = false.
Proof.
  apply (fatal_configuration_aborts ascii_lower ascii_upper dec_int log10_tab
           (mkArgs false false) no_corpus_inputs).
  left. intros line w c Hin. simpl in Hin. by apply elem_of_nil in Hin.
Defined.

(** ** Frequency normalizer *)

Section Normalizer.
  Context (lower : pystr → pystr) (py_int : pystr → option Z) (log10 : Z → float).

  (** An iteration of the reading loop stores nothing, or the count of its
      line. *)
Lemma doozan_line_step_inv raw_freq max_raw stats line raw_freq' max_raw' stats' :
    doozan_line_step lower py_int (raw_freq, max_raw, stats) line
      = Ok (raw_freq', max_raw', stats') →
    raw_freq' = raw_freq
    ∨ ∃ w c, parse_doozan_line lower py_int line = DCount w c ∧ 0 < c
             ∧ raw_freq' = dict_set w c raw_freq.
  Proof.
    unfold doozan_line_step.
    destruct (parse_doozan_line lower py_int line) as [| | w c].
    - intros [= <- <- <-]. by left.
    - destruct (bump _ stats); simpl; [| done]. intros [= <- <- <-]. by left.
    - destruct (c <=? 0) eqn:Hc; [intros [= <- <- <-]; by left |].
      apply Z.leb_gt in Hc.
      destruct (match dict_get w raw_freq with Some prev => prev <? c | None => true end).
      + intros [= <- <- <-]. right. by exists w, c.
      + intros [= <- <- <-]. by left.
  Qed.

  (** Every count the loop stores is the count of a line. *)
Lemma doozan_loop_from_lines lines stats raw_freq max_raw stats' :
    foldM (doozan_line_step lower py_int) ([], 0, stats) lines
      = Ok (raw_freq, max_raw, stats') →
    ∀ w c, dict_get w raw_freq = Some c →
      ∃ line, line ∈ lines ∧ parse_doozan_line lower py_int line = DCount w c.
  Proof.
    intros Hloop.
    apply (foldM_invariant (doozan_line_step lower py_int)
             (λ st, ∀ w c, dict_get w st.1.1 = Some c →
                ∃ line, line ∈ lines
                        ∧ parse_doozan_line lower py_int line = DCount w c)
             lines ([], 0, stats) (raw_freq, max_raw, stats')); [| done | done].
    intros [[r1 m1] s1] line [[r2 m2] s2] Hin Hinv Hstep. simpl in *.
    apply doozan_line_step_inv in Hstep as [-> | (w0 & c0 & Hline & _ & ->)];
      [done |].
    intros w c. destruct (decide (w0 = w)) as [<- | Hne].
    - rewrite dict_get_set_eq. intros [= <-]. by exists line.
    - rewrite dict_get_set_ne by done. apply Hinv.
  Qed.

  (** The score of a count is between 1 and 1000: 1 for a count of at most
      1, and otherwise the truncated product, clamped. *)
Lemma normalize_count_inv denom count score :
    normalize_count log10 denom count = Ok score →
    1 ≤ score ≤ 1000
    ∧ (count ≤ 1 → score = 1)
    ∧ (1 < count →
       ∃ v, py_int_of_float
              (PrimFloat.mul (PrimFloat.div (log10 count) denom) 1000) = Ok v
            ∧ score = Z.max 1 (Z.min 1000 v)).
  Proof.
    unfold normalize_count, py_float_div.
    destruct (count <=? 1) eqn:Hc.
    - apply Z.leb_le in Hc. intros [= <-]. split; [lia |]. split; [done | lia].
    - apply Z.leb_gt in Hc. destruct (PrimFloat.eqb denom 0); [done |].
      rewrite result_bind_Ok.
      destruct (py_int_of_float _) as [v | e] eqn:Hv; [| done].
      rewrite result_bind_Ok. intros [= <-]. split; [lia |].
      split; [lia |]. intros _. by exists v.
  Qed.

  (** The second loop gives every word of the raw table its score, in the
      order of the table. *)
Lemma normalize_loop_spec denom (raw_freq normalized0 : dict pystr Z) :
    NoDup (dict_keys normalized0 ++ dict_keys raw_freq) →
    (∀ w c, dict_get w raw_freq = Some c →
            ∃ v, normalize_count log10 denom c = Ok v) →
    ∃ scores,
      foldM (λ normalized '(word, count),
               norm ← normalize_count log10 denom count;
               Ok (dict_set word norm normalized))
            normalized0 raw_freq
      = Ok (normalized0 ++ scores)
      ∧ Forall2 (λ wc ws, wc.1 = ws.1 ∧ normalize_count log10 denom wc.2 = Ok ws.2)
                raw_freq scores.
  Proof.
    set (step := λ (normalized : dict pystr Z) '(word, count),
                   norm ← normalize_count log10 denom count;
                   Ok (dict_set word norm normalized)).
    revert normalized0.
    induction raw_freq as [| [w c] raw IH]; intros normalized0 Hnd Hok.
    - exists []. by rewrite app_nil_r.
    - destruct (Hok w c) as [v Hv]; [simpl; by rewrite decide_True |].
      unfold dict_keys in Hnd. simpl in Hnd.
      apply NoDup_app in Hnd as (Hnd0 & Hdisj & Hndr).
      apply NoDup_cons in Hndr as [Hfresh Hndr].
      assert (dict_get w normalized0 = None) as Hnone.
      { apply dict_get_None. intros Hin. apply (Hdisj w Hin). by left. }
      destruct (IH (normalized0 ++ [(w, v)])) as (scores & Hloop & Hall).
      + unfold dict_keys. rewrite fmap_app. simpl. rewrite <- app_assoc. simpl.
        apply NoDup_app. split; [done |]. split.
        * intros k Hk Hk'. apply (Hdisj k Hk). done.
        * by apply NoDup_cons.
      + intros w' c' Hget. apply (Hok w' c'). simpl.
        rewrite decide_False; [done |]. intros ->.
        apply Hfresh. apply dict_get_Some_elem in Hget.
        apply list_elem_of_fmap. by exists (w, c').
      + exists ((w, v) :: scores). cbn [foldM].
        change (step normalized0 (w, c))
          with (norm ← normalize_count log10 denom c;
                Ok (dict_set w norm normalized0)).
        rewrite Hv, !result_bind_Ok.
        rewrite (dict_set_fresh _ _ _ Hnone), Hloop.
        rewrite <- app_assoc. split; [done |]. by constructor.
  Qed.

Lemma scores_get denom (raw_freq scores : dict pystr Z) w c :
    Forall2 (λ wc ws, wc.1 = ws.1 ∧ normalize_count log10 denom wc.2 = Ok ws.2)
            raw_freq scores →
    dict_get w raw_freq = Some c →
    ∃ score, dict_get w scores = Some score
             ∧ normalize_count log10 denom c = Ok score.
  Proof.
    induction 1 as [| [w1 c1] [w2 s2] raw scores [Hw Hs] Hall IH]; simpl in *;
      [done |].
    subst w2. case_decide.
    - intros [= <-]. by exists s2.
    - apply IH.
  Qed.

Lemma scores_keys denom (raw_freq scores : dict pystr Z) :
    Forall2 (λ wc ws, wc.1 = ws.1 ∧ normalize_count log10 denom wc.2 = Ok ws.2)
            raw_freq scores →
    dict_keys scores = dict_keys raw_freq.
  Proof.
    unfold dict_keys.
    induction 1 as [| [w1 c1] [w2 s2] raw scores [Hw Hs] Hall IH]; simpl in *;
      [done |].
    f_equal; [done | exact IH].
  Qed.
End Normalizer.

(** C2, as stated, fails twice.  With [log10 100 = 2] and
    [log10 1000 = 3] a word counted 100 in a corpus whose largest count is
    1000 scores 666, the truncation of 666.66..., while rounding gives 667
    (667 is the integer [r] with [1000^(2r-1) <= 100^2000 <= 1000^(2r+1)],
    that is, within a half of [1000 * log 100 / log 1000]).  And in a
    corpus whose largest count is 1, the word with that count scores 1, not
    1000. *)
Lemma normalizer_truncates :
  (∃ normalized raw stats',
     load_doozan_frequency ascii_lower dec_int log10_tab corpus_lines
                           (initial_stats 0) = Ok (normalized, raw, stats')
     ∧ max_count ascii_lower dec_int corpus_lines = 1000
     ∧ dict_get (lit "casa") raw = Some 100
     ∧ dict_get (lit "casa") normalized = Some 666
     ∧ 1000 ^ (2 * 667 - 1) ≤ 100 ^ 2000 ≤ 1000 ^ (2 * 667 + 1))
  ∧ (∃ normalized raw stats',
       load_doozan_frequency ascii_lower dec_int log10_tab unit_corpus
                             (initial_stats 0) = Ok (normalized, raw, stats')
       ∧ max_count ascii_lower dec_int unit_corpus = 1
       ∧ dict_get (lit "de") raw = Some 1
       ∧ dict_get (lit "de") normalized = Some 1).
Proof.
  split.
  - assert (match load_doozan_frequency ascii_lower dec_int log10_tab corpus_lines
                     (initial_stats 0) with
            | Ok (normalized, raw, _) =>
                dict_get (lit "casa") raw = Some 100
                ∧ dict_get (lit "casa") normalized = Some 666
            | Raise _ => False
            end) as Hrun by (vm_compute; split; reflexivity).
    destruct (load_doozan_frequency _ _ _ corpus_lines _)
      as [[[normalized raw] stats'] | e]; [| done].
    exists normalized, raw, stats'. destruct Hrun as [Hraw Hnorm].
    split; [done |]. split; [by vm_compute |]. split; [done |]. split; [done |].
    split; apply Z.leb_le; by vm_compute.
  - assert (match load_doozan_frequency ascii_lower dec_int log10_tab unit_corpus
                     (initial_stats 0) with
            | Ok (normalized, raw, _) =>
                dict_get (lit "de") raw = Some 1
                ∧ dict_get (lit "de") normalized = Some 1
            | Raise _ => False
            end) as Hrun by (vm_compute; split; reflexivity).
    destruct (load_doozan_frequency _ _ _ unit_corpus _)
      as [[[normalized raw] stats'] | e]; [| done].
    exists normalized, raw, stats'. destruct Hrun as [Hraw Hnorm].
    split; [done |]. split; [by vm_compute |]. done.
Qed.

(** C2, amended: when the file has a positive count and every count above
    1 can be scored against the largest count [M] (the division and the
    conversion to an integer return), the normalizer returns; the scored
    words are the words of the raw table; [M] is the raw count of some
    word; and a word of raw count [c] scores 1 when [c <= 1] and otherwise
    the product [(log10 c / log10 M) * 1000], computed in binary64,
    truncated toward zero and clamped to 1..1000.  So a count of 1 scores 1,
    and the count [M > 1] scores 1000 when [log10 M / log10 M] is 1. *)
Theorem normalizer_scores
    (lower : pystr → pystr) (py_int : pystr → option Z) (log10 : Z → float)
    (lines : list pystr) (stats : stats_t) :
  counters_ready stats →
  0 < max_count lower py_int lines →
  (∀ line w c, line ∈ lines →
     parse_doozan_line lower py_int line = DCount w c → 1 < c →
     ∃ v, normalize_count log10 (log10 (max_count lower py_int lines)) c = Ok v) →
  ∃ normalized raw stats',
    load_doozan_frequency lower py_int log10 lines stats
      = Ok (normalized, raw, stats')
    ∧ dict_keys normalized = dict_keys raw
    ∧ (∃ w, dict_get w raw = Some (max_count lower py_int lines))
    ∧ ∀ w c, dict_get w raw = Some c →
        0 < c ≤ max_count lower py_int lines
        ∧ ∃ score,
            dict_get w normalized = Some score
            ∧ 1 ≤ score ≤ 1000
            ∧ (c ≤ 1 → score = 1)
            ∧ (1 < c →
               ∃ v, py_int_of_float
                      (PrimFloat.mul
                         (PrimFloat.div (log10 c)
                            (log10 (max_count lower py_int lines))) 1000) = Ok v
                    ∧ score = Z.max 1 (Z.min 1000 v))
            ∧ (c = max_count lower py_int lines → 1 < c →
               PrimFloat.div (log10 c) (log10 c) = 1%float → score = 1000).
Proof.
  intros Hready Hpos Hlog. unfold load_doozan_frequency.
  destruct (doozan_loop_spec lower py_int lines [] 0 stats Hready doozan_inv_empty)
    as (raw & stats1 & Hloop & _ & Hinv).
  rewrite Hloop, result_bind_Ok. cbv beta iota.
  pose proof (doozan_loop_from_lines _ _ _ _ _ _ _ Hloop) as Hfrom.
  rewrite Z.max_r in * by (apply max_count_nonneg).
  set (M := max_count lower py_int lines) in *.
  destruct Hinv as (Hnd & Hbound & Hmax).
  destruct (M <=? 0) eqn:HM; [apply Z.leb_le in HM; lia |]. cbv zeta.
  destruct (normalize_loop_spec log10 (log10 M) raw []) as (scores & Hnorm & Hall).
  { done. }
  { intros w c Hget. destruct (Hfrom w c Hget) as (line & Hin & Hline).
    destruct (decide (1 < c)) as [Hc | Hc]; [exact (Hlog line w c Hin Hline Hc) |].
    exists 1. unfold normalize_count.
    by destruct (c <=? 1) eqn:Hle; [| apply Z.leb_gt in Hle; lia]. }
  rewrite Hnorm, result_bind_Ok. simpl app.
  exists scores, raw, (<["doozan_max_raw"%string := M]> stats1).
  split; [done |]. split; [by eapply scores_keys |].
  split; [destruct Hmax as [HM0 | Hw]; [lia | done] |].
  intros w c Hget. split; [exact (Hbound w c Hget) |].
  destruct (scores_get log10 (log10 M) raw scores w c Hall Hget)
    as (score & Hscore & Hcount).
  exists score. split; [done |].
  destruct (normalize_count_inv log10 _ _ _ Hcount) as (Hrange & Hone & Hmany).
  split; [done |]. split; [done |]. split; [done |].
  intros -> Hc Hdiv. destruct (Hmany Hc) as (v & Hv & ->).
  rewrite Hdiv in Hv. vm_compute in Hv. by simplify_eq.
Qed.

Lemma normalizer_scores_witness :
  ∃ normalized raw stats',
    load_doozan_frequency ascii_lower dec_int log10_tab corpus_lines
                          (initial_stats 0) = Ok (normalized, raw, stats')
    ∧ dict_keys normalized = dict_keys raw
    ∧ ∃ w, dict_get w raw = Some (max_count ascii_lower dec_int corpus_lines).
Proof.
  destruct (normalizer_scores ascii_lower dec_int log10_tab corpus_lines
              (initial_stats 0))
    as (normalized & raw & stats' & Hload & Hkeys & Hmax & _).
  - apply initial_stats_ready.
  - by vm_compute.
  - intros line w c Hin Hline Hc. unfold corpus_lines in Hin.
    apply elem_of_cons in Hin as [-> | Hin].
    + vm_compute in Hline. injection Hline as <- <-. by eexists; vm_compute.
    + apply list_elem_of_singleton in Hin as ->.
      vm_compute in Hline. injection Hline as <- <-. by eexists; vm_compute.
  - by exists normalized, raw, stats'.
Defined.

(** ** Tag decoder: what it returns *)

Ltac solve_elem := apply (bool_decide_unpack _); vm_compute; exact I.

Section Decoder.
  Context (lower upper : pystr → pystr).

Lemma map_gender_range (c : pystr) :
    map_gender upper c ∈ [lit "m"; lit "f"; lit "_"].
  Proof.
    unfold map_gender. destruct (str_eqb _ _); [solve_elem |].
    destruct (str_eqb _ _); solve_elem.
  Qed.

Lemma map_number_range (c : pystr) :
    map_number upper c ∈ [lit "s"; lit "p"; lit "_"].
  Proof.
    unfold map_number. destruct (str_eqb _ _); [solve_elem |].
    destruct (str_eqb _ _); solve_elem.
  Qed.

  (** A branch of the decoder that returns a candidate. *)
Ltac decoded :=
    do 2 eexists; split; [reflexivity |]; split; [done |];
    intros ? [= <-]; cbn [c_word c_lemma c_category c_gender c_number c_tag
                            c_source_file];
    repeat split;
    first [ done | apply map_gender_range | apply map_number_range | solve_elem ].

  (** A branch that returns no candidate after a counter went up. *)
Ltac dropped k Hready :=
    let s1 := fresh "s" in
    let Hb := fresh "Hb" in
    let Hs := fresh "Hs" in
    destruct (bump_ready k _ ltac:(by eexists) Hready) as (s1 & Hb & Hs);
    rewrite Hb, result_bind_Ok; exists None, s1;
    split; [done |]; split; [done |]; by intros ? [=].

  (** The decoder returns when the counters exist; a candidate it returns
      carries the stripped and lowered form and lemma, the stripped tag and
      the source file, a category that has a priority, and a gender and a
      number of the three values each. *)
Lemma parse_freeling_candidate_spec form lemma tag source_file stats :
    counters_ready stats →
    ∃ r stats',
      parse_freeling_candidate lower upper form lemma tag source_file stats
        = Ok (r, stats')
      ∧ counters_ready stats'
      ∧ ∀ cand, r = Some cand →
          c_word cand = lower (strip form)
          ∧ c_lemma cand = lower (strip lemma)
          ∧ c_tag cand = strip tag
          ∧ c_source_file cand = source_file
          ∧ c_category cand ∈ dict_keys CATEGORY_PRIORITY
          ∧ c_gender cand ∈ [lit "m"; lit "f"; lit "_"]
          ∧ c_number cand ∈ [lit "s"; lit "p"; lit "_"].
  Proof.
    intros Hready. unfold parse_freeling_candidate. cbv zeta.
    generalize (strip tag) (lower (strip form)) (lower (strip lemma)).
    intros tag' form' lemma'.
    destruct (is_empty form' || is_empty tag' || existsb isspace form').
    { exists None, stats. split; [done |]. split; [done |]. by intros ? [=]. }
    destruct (startswith tag' (lit "NP")).
    { dropped "freeling_skipped_np"%string Hready. }
    destruct (startswith tag' (lit "NC")); cbv beta iota; [decoded |].
    destruct (startswith tag' (lit "AQ") || startswith tag' (lit "AO"));
      cbv beta iota; [decoded |].
    destruct (startswith tag' (lit "DA")); cbv beta iota; [decoded |].
    destruct (startswith tag' (lit "DD") || startswith tag' (lit "DI")
              || startswith tag' (lit "DP") || startswith tag' (lit "DT")
              || startswith tag' (lit "DE")); cbv beta iota; [decoded |].
    destruct (startswith tag' (lit "PP") || startswith tag' (lit "PD")
              || startswith tag' (lit "PR") || startswith tag' (lit "PT")
              || startswith tag' (lit "PI") || startswith tag' (lit "PE"));
      cbv beta iota; [decoded |].
    destruct (startswith tag' (lit "SP")); cbv beta iota; [decoded |].
    destruct (startswith tag' (lit "CC") || startswith tag' (lit "CS"));
      cbv beta iota; [decoded |].
    destruct (startswith tag' (lit "RG") || startswith tag' (lit "RN"));
      cbv beta iota; [decoded |].
    destruct (startswith tag' (lit "I")); cbv beta iota; [decoded |].
    destruct (startswith tag' (lit "V")); cbv beta iota.
    - destruct (str_eqb (char_at tag' 2) (lit "N")).
      { destruct (bump_ready "freeling_infinitive_candidates" stats)
          as (s1 & Hb & Hs1); [by eexists | done |].
        rewrite Hb, result_bind_Ok. cbv beta iota. decoded. }
      destruct (str_eqb (char_at tag' 2) (lit "P")).
      { destruct (bump_ready "freeling_participle_candidates" stats)
          as (s1 & Hb & Hs1); [by eexists | done |].
        rewrite Hb, result_bind_Ok. cbv beta iota. decoded. }
      dropped "freeling_skipped_conjugated_verbs"%string Hready.
    - dropped "freeling_skipped_unknown_tag"%string Hready.
  Qed.
End Decoder.

(** The decoder never returns a candidate whose category lacks a priority:
    with the counters in place it returns, and a candidate it returns has
    the stripped, lowered form as word, one of the ten categories, a gender
    among m, f, _ and a number among s, p, _. *)
Theorem decoder_output_well_formed
    (lower upper : pystr → pystr)
    (form lemma tag source_file : pystr) (stats : stats_t) :
  counters_ready stats →
  ∃ r stats',
    parse_freeling_candidate lower upper form lemma tag source_file stats
      = Ok (r, stats')
    ∧ ∀ cand, r = Some cand →
        c_word cand = lower (strip form)
        ∧ c_lemma cand = lower (strip lemma)
        ∧ c_tag cand = strip tag
        ∧ c_source_file cand = source_file
        ∧ (∃ rank, dict_get (c_category cand) CATEGORY_PRIORITY = Some rank
                   ∧ 1 ≤ rank ≤ 10)
        ∧ c_gender cand ∈ [lit "m"; lit "f"; lit "_"]
        ∧ c_number cand ∈ [lit "s"; lit "p"; lit "_"].
Proof.
  intros Hready.
  destruct (parse_freeling_candidate_spec lower upper form lemma tag source_file
              stats Hready) as (r & stats' & Hparse & _ & Hcand).
  exists r, stats'. split; [done |]. intros cand Hr.
  destruct (Hcand cand Hr) as (Hw & Hl & Ht & Hs & Hc & Hg & Hn).
  repeat (split; [done |]). split; [| done].
  unfold dict_keys, CATEGORY_PRIORITY in Hc. simpl in Hc.
  repeat (apply elem_of_cons in Hc as [-> | Hc];
          [eexists; split; [reflexivity | lia] |]).
  by apply elem_of_nil in Hc.
Qed.

Lemma decoder_output_well_formed_witness :
  ∃ r stats',
    parse_freeling_candidate ascii_lower ascii_upper
      (lit "Casa") (lit "casa") (lit "NCFS000") (lit "MM.nom") (initial_stats 1)
      = Ok (r, stats')
    ∧ ∀ cand, r = Some cand →
        c_word cand = ascii_lower (strip (lit "Casa"))
        ∧ c_lemma cand = ascii_lower (strip (lit "casa"))
        ∧ c_tag cand = strip (lit "NCFS000")
        ∧ c_source_file cand = lit "MM.nom"
        ∧ (∃ rank, dict_get (c_category cand) CATEGORY_PRIORITY = Some rank
                   ∧ 1 ≤ rank ≤ 10)
        ∧ c_gender cand ∈ [lit "m"; lit "f"; lit "_"]
        ∧ c_number cand ∈ [lit "s"; lit "p"; lit "_"].
Proof.
  apply (decoder_output_well_formed ascii_lower ascii_upper
           (lit "Casa") (lit "casa") (lit "NCFS000") (lit "MM.nom")
           (initial_stats 1)).
  apply initial_stats_ready.
Defined.

(** ** Analyzer files: grouping by word *)

Section Grouping.
  Context (lower upper : pystr → pystr).

Lemma dict_set_Forall {V} (P : pystr * V → Prop) (k : pystr) (v : V)
      (d : dict pystr V) :
    Forall P d → P (k, v) → Forall P (dict_set k v d).
  Proof.
    intros Hd Hkv. induction Hd as [| [k' v'] d Hx Hd IH]; simpl.
    - by constructor.
    - case_decide; subst; constructor; done.
  Qed.

Lemma grouped_empty : grouped [].
  Proof. split; [apply NoDup_nil_2 | constructor]. Qed.

Lemma grouped_get by_word word cands :
    grouped by_word → dict_get word by_word = Some cands →
    cands ≠ []
    ∧ Forall (λ c, c_word c = word
                   ∧ c_category c ∈ dict_keys CATEGORY_PRIORITY) cands.
  Proof.
    intros [_ Hall] Hget%dict_get_Some_elem.
    rewrite Forall_forall in Hall. apply (Hall (word, cands) Hget).
  Qed.

Lemma grouped_nonempty by_word :
    grouped by_word → Forall (λ item, item.2 ≠ []) by_word.
  Proof. intros [_ Hall]. eapply Forall_impl; [exact Hall |]. by intros ? [? _]. Qed.

  (** [by_word.setdefault(cand.word, []).append(cand)] keeps the groups. *)
Lemma grouped_append by_word cand :
    grouped by_word →
    c_category cand ∈ dict_keys CATEGORY_PRIORITY →
    grouped (dict_set (c_word cand)
                      (default [] (dict_get (c_word cand) by_word) ++ [cand])
                      by_word).
  Proof.
    intros Hg Hcat. pose proof Hg as [Hnd Hall].
    split; [by apply dict_set_NoDup |].
    apply dict_set_Forall; [done |]. simpl. split.
    - by destruct (default [] _).
    - apply Forall_app. split; [| by apply Forall_singleton].
      destruct (dict_get (c_word cand) by_word) as [cands |] eqn:Hget; [| done].
      by destruct (grouped_get _ _ _ Hg Hget).
  Qed.

Lemma freeling_line_step_spec name by_word stats raw_line :
    counters_ready stats → grouped by_word →
    ∃ by_word' stats',
      freeling_line_step lower upper name (by_word, stats) raw_line
        = Ok (by_word', stats')
      ∧ counters_ready stats' ∧ grouped by_word'.
  Proof.
    intros Hready Hg. unfold freeling_line_step.
    destruct (is_empty (strip raw_line) || startswith (strip raw_line) (lit "#"));
      [by eauto |].
    destruct (split_ws (strip raw_line)) as [| form [| lemma [| tag rest]]].
    1-3: destruct (bump_ready "freeling_bad_lines" stats) as (s1 & -> & Hs1);
      [by eexists | done |]; rewrite result_bind_Ok; by eauto.
    destruct (parse_freeling_candidate_spec lower upper form lemma tag name stats
                Hready) as ([cand |] & stats1 & -> & Hs1 & Hcand);
      rewrite result_bind_Ok; cbv beta iota; [| by eauto].
    destruct (bump_ready "freeling_kept_candidates" stats1) as (s2 & -> & Hs2);
      [by eexists | done |].
    rewrite result_bind_Ok. do 2 eexists. split; [reflexivity |].
    split; [done |]. apply grouped_append; [done |].
    by destruct (Hcand cand eq_refl) as (_ & _ & _ & _ & ? & _).
  Qed.

Lemma parse_freeling_files_spec files stats :
    counters_ready stats →
    ∃ by_word stats',
      parse_freeling_files lower upper files stats = Ok (by_word, stats')
      ∧ counters_ready stats' ∧ grouped by_word.
  Proof.
    intros Hready. unfold parse_freeling_files.
    destruct (foldM_total
                (λ st '(name, lines),
                   foldM (freeling_line_step lower upper name) st lines)
                (λ st, counters_ready st.2 ∧ grouped st.1)
                files ([], stats))
      as ([by_word stats'] & Hloop & Hs & Hg); [| by split; [| apply grouped_empty] | by eauto].
    intros [bw1 s1] [name lines] _ [Hs1 Hg1].
    destruct (foldM_total (freeling_line_step lower upper name)
                (λ st, counters_ready st.2 ∧ grouped st.1) lines (bw1, s1))
      as ([bw2 s2] & Hlines & Hs2 & Hg2); [| done | by eauto].
    intros [bw s] line _ [Hs0 Hg0].
    destruct (freeling_line_step_spec name bw s line Hs0 Hg0)
      as (bw' & s' & -> & ? & ?).
    by exists (bw', s').
  Qed.
End Grouping.

(** ** Analyzer files: which candidates are filed *)

Section Filing.
  Context (lower upper : pystr → pystr).

  (** What the decoder returns does not depend on the counters. *)
Lemma parse_freeling_candidate_pure form lemma tag source_file
      stats1 stats2 r1 r2 stats1' stats2' :
    parse_freeling_candidate lower upper form lemma tag source_file stats1
      = Ok (r1, stats1') →
    parse_freeling_candidate lower upper form lemma tag source_file stats2
      = Ok (r2, stats2') →
    r1 = r2.
  Proof.
    unfold parse_freeling_candidate. cbv zeta.
    generalize (strip tag) (lower (strip form)) (lower (strip lemma)).
    intros tag' form' lemma'.
    repeat match goal with
           | |- context [if ?b then _ else _] => destruct b; cbv beta iota
           end;
      intros H1 H2;
      repeat match goal with
             | H : _ ≫= _ = Ok _ |- _ =>
                 apply bind_Ok in H as (? & _ & H); cbv beta iota in H
             end;
      congruence.
  Qed.

Lemma filed_nil cand : ¬ filed [] cand.
  Proof. by intros (cands & Hget & _). Qed.

  (** [by_word.setdefault(cand.word, []).append(cand)] files [cand] and
      keeps what was filed. *)
Lemma filed_append by_word cand c :
    filed (dict_set (c_word cand)
                    (default [] (dict_get (c_word cand) by_word) ++ [cand])
                    by_word) c
    ↔ filed by_word c ∨ c = cand.
  Proof.
    unfold filed. destruct (decide (c_word cand = c_word c)) as [Hw | Hw].
    - rewrite <- Hw, dict_get_set_eq. split.
      + intros (cands & [= <-] & Hin). apply elem_of_app in Hin as [Hin | Hin].
        * left. destruct (dict_get (c_word cand) by_word) as [old |]; simpl in Hin.
          -- by exists old.
          -- by apply elem_of_nil in Hin.
        * right. by apply list_elem_of_singleton in Hin.
      + intros [(cands & Hget & Hin) | ->]; eexists; (split; [reflexivity |]).
        * rewrite Hget. simpl. apply elem_of_app. by left.
        * apply elem_of_app. right. by apply list_elem_of_singleton.
    - rewrite dict_get_set_ne by done. split; [by left |].
      intros [H | ->]; [done | by destruct Hw].
  Qed.

Lemma freeling_line_step_filed name by_word stats raw_line by_word' stats' cand :
    freeling_line_step lower upper name (by_word, stats) raw_line
      = Ok (by_word', stats') →
    filed by_word' cand
    ↔ filed by_word cand ∨ decodes_to lower upper name raw_line cand.
  Proof.
    unfold freeling_line_step, decodes_to.
    destruct (is_empty (strip raw_line) || startswith (strip raw_line) (lit "#")).
    { intros [= <- <-]. split; [by left | by intros [? | [? _]]]. }
    destruct (split_ws (strip raw_line)) as [| form [| lemma [| tag rest]]] eqn:Hsplit.
    1-3: intros (s1 & _ & [= <- <-])%bind_Ok; split; [by left |];
      by intros [? | (_ & ? & ? & ? & ? & ? & ? & ? & _)].
    intros ([r stats1] & Hdecode & Hstep)%bind_Ok. cbv beta iota in Hstep.
    assert ((∃ form0 lemma0 tag0 rest0 stats0 stats0',
               form :: lemma :: tag :: rest = form0 :: lemma0 :: tag0 :: rest0
               ∧ parse_freeling_candidate lower upper form0 lemma0 tag0 name stats0
                 = Ok (Some cand, stats0'))
            ↔ r = Some cand) as Hline.
    { split.
      - intros (form0 & lemma0 & tag0 & rest0 & stats0 & stats0' & [= <- <- <- <-]
                & Hcand).
        by eapply parse_freeling_candidate_pure.
      - intros ->. by exists form, lemma, tag, rest, stats, stats1. }
    destruct r as [c |].
    - apply bind_Ok in Hstep as (s2 & _ & [= <- <-]).
      rewrite filed_append. split.
      + intros [? | ->]; [by left |]. right. split; [done |]. by apply Hline.
      + intros [? | [_ Hc%Hline]]; [by left |]. right. by injection Hc.
    - injection Hstep as <- <-. split; [by left |].
      intros [? | [_ Hc%Hline]]; done.
  Qed.

Lemma freeling_lines_filed name lines by_word stats by_word' stats' cand :
    foldM (freeling_line_step lower upper name) (by_word, stats) lines
      = Ok (by_word', stats') →
    filed by_word' cand
    ↔ filed by_word cand
      ∨ ∃ raw_line, raw_line ∈ lines ∧ decodes_to lower upper name raw_line cand.
  Proof.
    revert by_word stats.
    induction lines as [| raw_line lines IH]; intros by_word stats Hloop;
      simpl in Hloop.
    - injection Hloop as <- <-. split; [by left |].
      intros [? | (? & Hin & _)]; [done | by apply elem_of_nil in Hin].
    - apply bind_Ok in Hloop as ([bw1 s1] & Hstep & Hloop).
      rewrite (IH _ _ Hloop), (freeling_line_step_filed _ _ _ _ _ _ _ Hstep). split.
      + intros [[? | ?] | (raw & Hin & ?)]; [by left | |].
        * right. exists raw_line. split; [by left | done].
        * right. exists raw. split; [by right | done].
      + intros [? | (raw & Hin & Hraw)]; [by left; left |].
        apply elem_of_cons in Hin as [-> | Hin]; [by left; right |].
        right. by exists raw.
  Qed.

Lemma freeling_files_filed files by_word stats by_word' stats' cand :
    foldM (λ st '(name, lines),
             foldM (freeling_line_step lower upper name) st lines)
          (by_word, stats) files
      = Ok (by_word', stats') →
    filed by_word' cand
    ↔ filed by_word cand
      ∨ ∃ name lines raw_line,
          (name, lines) ∈ files ∧ raw_line ∈ lines
          ∧ decodes_to lower upper name raw_line cand.
  Proof.
    revert by_word stats.
    induction files as [| [name lines] files IH]; intros by_word stats Hloop;
      simpl in Hloop.
    - injection Hloop as <- <-. split; [by left |].
      intros [? | (? & ? & ? & Hin & _)]; [done | by apply elem_of_nil in Hin].
    - apply bind_Ok in Hloop as ([bw1 s1] & Hfile & Hloop).
      rewrite (IH _ _ Hloop), (freeling_lines_filed _ _ _ _ _ _ _ Hfile). split.
      + intros [[? | (raw & ? & ?)] | (n & ls & raw & Hin & ? & ?)]; [by left | |].
        * right. exists name, lines, raw. split; [by left | done].
        * right. exists n, ls, raw. split; [by right | done].
      + intros [? | (n & ls & raw & Hin & Hraw & Hdec)]; [by left; left |].
        apply elem_of_cons in Hin as [[= -> ->] | Hin].
        * left. right. by exists raw.
        * right. by exists n, ls, raw.
  Qed.
End Filing.

(** With the counters in place the analyzer files are parsed without an
    exception, and the candidates come out grouped by word: every word
    once, no group empty, and every candidate filed under its own word with
    a category that has a priority.  The candidates filed are those that the
    decoder returns for the lines of the files, all of them and no other: a
    candidate is in the list of its word exactly when some line of some
    file, not blank, not a comment and of three fields at least, is decoded
    to it. *)
Theorem parse_freeling_files_grouped
    (lower upper : pystr → pystr)
    (files : dict pystr (list pystr)) (stats : stats_t) :
  counters_ready stats →
  ∃ by_word stats',
    parse_freeling_files lower upper files stats = Ok (by_word, stats')
    ∧ NoDup (dict_keys by_word)
    ∧ (∀ word cands, dict_get word by_word = Some cands →
         cands ≠ []
         ∧ ∀ c, c ∈ cands →
             c_word c = word ∧ is_Some (dict_get (c_category c) CATEGORY_PRIORITY))
    ∧ ∀ cand,
        (∃ cands, dict_get (c_word cand) by_word = Some cands ∧ cand ∈ cands)
        ↔ ∃ name lines raw_line,
            (name, lines) ∈ files ∧ raw_line ∈ lines
            ∧ is_empty (strip raw_line) || startswith (strip raw_line) (lit "#")
              = false
            ∧ ∃ form lemma tag rest stats0 stats1,
                split_ws (strip raw_line) = form :: lemma :: tag :: rest
                ∧ parse_freeling_candidate lower upper form lemma tag name stats0
                  = Ok (Some cand, stats1).
Proof.
  intros Hready.
  destruct (parse_freeling_files_spec lower upper files stats Hready)
    as (by_word & stats' & Hparse & _ & Hg).
  exists by_word, stats'. split; [done |]. split; [by destruct Hg |]. split.
  - intros word cands Hget.
    destruct (grouped_get _ _ _ Hg Hget) as [Hne Hall]. split; [done |].
    intros c Hc. rewrite Forall_forall in Hall. destruct (Hall c Hc) as [Hw Hcat].
    split; [done |]. by apply dict_get_is_Some.
  - intros cand.
    pose proof (freeling_files_filed lower upper files [] stats by_word stats' cand
                  Hparse) as Hfiled.
    unfold filed, decodes_to in Hfiled. rewrite Hfiled. split.
    + intros [(cands & Hget & _) | Hline]; [done | exact Hline].
    + intros Hline. by right.
Qed.

(** The analyzer file of the sample has three lines: the noun reading of
    [casa] is filed, the conjugated verb and the proper noun are not. *)
Lemma parse_freeling_files_grouped_witness :
  ∃ by_word stats',
    parse_freeling_files ascii_lower ascii_upper sample_files (initial_stats 1)
      = Ok (by_word, stats')
    ∧ NoDup (dict_keys by_word)
    ∧ (∀ word cands, dict_get word by_word = Some cands →
         cands ≠ []
         ∧ ∀ c, c ∈ cands →
             c_word c = word ∧ is_Some (dict_get (c_category c) CATEGORY_PRIORITY))
    ∧ ∃ cands,
        dict_get (lit "casa") by_word = Some cands
        ∧ mkCandidate (lit "casa") (lit "casa") (lit "sustantivo") (lit "f")
                      (lit "s") (lit "NCFS000") (lit "MM.nom") ∈ cands.
Proof.
  destruct (parse_freeling_files_grouped ascii_lower ascii_upper sample_files
              (initial_stats 1) (initial_stats_ready 1))
    as (by_word & stats' & Hparse & Hnd & Hgroups & Hfiled).
  exists by_word, stats'. split; [exact Hparse |]. split; [exact Hnd |].
  split; [exact Hgroups |].
  apply (Hfiled (mkCandidate (lit "casa") (lit "casa") (lit "sustantivo") (lit "f")
                             (lit "s") (lit "NCFS000") (lit "MM.nom"))).
  exists (lit "MM.nom"),
         [lit "casa casa NCFS000"; lit "casa casar VMIP3S0"; lit "Juan juan NP00000"],
         (lit "casa casa NCFS000").
  split; [by left |]. split; [by left |]. split; [reflexivity |].
  exists (lit "casa"), (lit "casa"), (lit "NCFS000"), [], (∅ : stats_t), (∅ : stats_t).
  split; vm_compute; reflexivity.
Defined.

(** ** Curated dictionary: the mapping it builds *)

Section DictSplit.
  Context {V : Type}.

  (** Where a key that is present sits, and what [dict_set] does there. *)
Lemma dict_set_present (k : pystr) (v v0 : V) (d : dict pystr V) :
    dict_get k d = Some v0 →
    ∃ d1 d2, d = d1 ++ (k, v0) :: d2
             ∧ dict_set k v d = d1 ++ (k, v) :: d2.
  Proof.
    induction d as [| [k' v'] d IH]; simpl; [done |].
    case_decide as Hk.
    - intros [= ->]. subst k'. by exists [], d.
    - intros Hget. destruct (IH Hget) as (d1 & d2 & -> & ->).
      by exists ((k', v') :: d1), d2.
  Qed.
End DictSplit.

Lemma Forall_lt_grow (h : heap) (e : Entry) (ls : list loc) :
  Forall (λ l, l < length h)%nat ls → Forall (λ l, l < length (h ++ [e]))%nat ls.
Proof.
  intros Hls. eapply Forall_impl; [exact Hls |].
  intros l Hl. rewrite length_app. simpl in *. lia.
Qed.

Lemma dict_wf_grow (current : dict pystr loc) (h : heap) (e : Entry) :
  dict_wf current h → dict_wf current (h ++ [e]).
Proof.
  intros (Hk & Hv & Hlt). split; [done |]. split; [done |].
  by apply Forall_lt_grow.
Qed.

(** A new object for a word, new or not, keeps the mapping well formed. *)
Lemma dict_wf_set (current : dict pystr loc) (h : heap) (e : Entry) (w : pystr) :
  dict_wf current h → dict_wf (dict_set w (length h) current) (h ++ [e]).
Proof.
  intros (Hk & Hv & Hlt).
  assert (length h ∉ dict_values current) as Hfresh.
  { intros Hin. rewrite Forall_forall in Hlt. specialize (Hlt _ Hin).
    simpl in Hlt. lia. }
  destruct (dict_get w current) as [l0 |] eqn:Hget.
  - destruct (dict_set_present w (length h) l0 current Hget)
      as (d1 & d2 & Hd & Hset).
    split; [by rewrite dict_keys_set_present by (by eexists) |].
    rewrite Hset. rewrite Hd in Hv, Hlt, Hfresh. unfold dict_values in *.
    rewrite fmap_app in *. simpl in *.
    apply NoDup_app in Hv as (Hv1 & Hdisj & Hv2).
    apply NoDup_cons in Hv2 as [Hl0 Hv2].
    rewrite elem_of_app, elem_of_cons in Hfresh.
    split.
    + apply NoDup_app. split; [done |]. split.
      * intros x Hx [-> | Hx2]%elem_of_cons; [tauto |].
        apply (Hdisj x Hx). by right.
      * apply NoDup_cons. split; [tauto | done].
    + apply Forall_app in Hlt as [Hlt1 Hlt2].
      apply Forall_cons in Hlt2 as [_ Hlt2].
      apply Forall_app. split.
      * by apply Forall_lt_grow.
      * apply Forall_cons. split; [rewrite length_app; simpl; lia |].
        by apply Forall_lt_grow.
  - rewrite dict_set_fresh by done. unfold dict_wf, dict_keys, dict_values in *.
    rewrite !fmap_app. simpl. split; [| split].
    + apply NoDup_app. split; [done |]. split; [| apply NoDup_singleton].
      intros k Hk' ->%list_elem_of_singleton.
      apply dict_get_None in Hget. by apply Hget.
    + apply NoDup_app. split; [done |]. split; [| apply NoDup_singleton].
      by intros l Hl ->%list_elem_of_singleton.
    + apply Forall_app. split.
      * by apply Forall_lt_grow.
      * apply Forall_singleton. rewrite length_app. simpl. lia.
Qed.

Section CurrentInvariant.
  Context (lower : pystr → pystr) (py_int : pystr → option Z).

  (** A record of the curated file has a word, a category, a gender and a
      number that are not empty, a frequency of at least 1, and the source
      [current]. *)
Lemma parse_current_line_Some line e :
    parse_current_line lower py_int line = Some e →
    e_word e ≠ [] ∧ e_category e ≠ [] ∧ e_gender e ≠ [] ∧ e_number e ≠ []
    ∧ 1 ≤ e_frequency e ∧ e_source e = lit "current".
  Proof.
    unfold parse_current_line. cbv zeta.
    destruct (is_empty _ || startswith _ _); [done |].
    generalize (split_sep 124 5
                  (strip (rstrip_chars (lit (String (ascii_of_N 10) EmptyString))
                                       line))).
    intros parts.
    generalize (lower (default [] (strip <$> parts !! 0%nat))). intros word.
    destruct (is_empty word) eqn:Hword; [done |].
    intros [= <-].
    cbn [e_word e_category e_gender e_number e_frequency e_source].
    split; [by intros -> |].
    assert (∀ (o : option pystr) (d : pystr), d ≠ [] →
              match o with
              | Some x => if is_empty x then d else x
              | None => d
              end ≠ []) as Hdefault.
    { intros [x |] d Hd; [| done]. destruct (is_empty x) eqn:Hx; [done |].
      intros ->. done. }
    split; [by apply Hdefault |]. split; [by apply Hdefault |].
    split; [by apply Hdefault |]. split; [| done].
    destruct (_ !! 5%nat); [| done]. destruct (py_int _); lia.
  Qed.

  Abbreviation record line :=
    (match parse_current_line lower py_int line with
     | Some e => [e]
     | None => []
     end).

Lemma current_line_step_inv current h stats line seen current' h' stats' :
    current_line_step lower py_int (current, h, stats) line
      = Ok (current', h', stats') →
    current_inv current h seen →
    current_inv current' h' (seen ++ record line).
  Proof.
    intros Hstep (Hwf & Hstored & Hseen).
    destruct (parse_current_line lower py_int line) as [e |] eqn:Hline.
    2: { rewrite (current_line_step_skip _ _ _ _ _ _ Hline) in Hstep.
         simplify_eq. by rewrite app_nil_r. }
    assert ((h ++ [e]) !!! length h = e) as Hnew
      by (by rewrite list_lookup_total_middle).
    assert (∀ w l, dict_get w current = Some l → (h ++ [e]) !!! l = h !!! l)
      as Hold.
    { intros w l Hget. apply heap_app_total. by eapply dict_wf_lt. }
    destruct (dict_get (e_word e) current) as [l0 |] eqn:Hget.
    - rewrite (current_line_step_dup _ _ _ _ _ _ _ _ Hline Hget) in Hstep.
      destruct (bump _ stats) as [s1 |]; [| done]. rewrite result_bind_Ok in Hstep.
      rewrite (Hold _ _ Hget) in Hstep.
      destruct (e_frequency (h !!! l0) <? e_frequency e) eqn:Hcmp;
        injection Hstep as <- <- <-.
      + apply Z.ltb_lt in Hcmp. split; [by apply dict_wf_set |]. split.
        * intros w l. destruct (decide (e_word e = w)) as [<- | Hne].
          -- rewrite dict_get_set_eq. intros [= <-]. rewrite Hnew.
             split; [| done]. apply elem_of_app. right. by left.
          -- rewrite dict_get_set_ne by done. intros Hw.
             rewrite (Hold _ _ Hw). destruct (Hstored _ _ Hw) as [Hin ?].
             split; [| done]. apply elem_of_app. by left.
        * intros e' [Hin | ->%list_elem_of_singleton]%elem_of_app.
          -- destruct (Hseen e' Hin) as (l & Hl & Hle).
             destruct (decide (e_word e = e_word e')) as [Heq | Hne].
             ++ exists (length h). rewrite <- Heq, dict_get_set_eq, Hnew.
                split; [done |]. rewrite <- Heq, Hget in Hl. simplify_eq. lia.
             ++ exists l. rewrite dict_get_set_ne by done.
                by rewrite (Hold _ _ Hl).
          -- exists (length h). rewrite dict_get_set_eq, Hnew. split; [done | lia].
      + apply Z.ltb_ge in Hcmp. split; [by apply dict_wf_grow |]. split.
        * intros w l Hw. rewrite (Hold _ _ Hw).
          destruct (Hstored _ _ Hw) as [Hin ?]. split; [| done].
          apply elem_of_app. by left.
        * intros e' [Hin | ->%list_elem_of_singleton]%elem_of_app.
          -- destruct (Hseen e' Hin) as (l & Hl & Hle). exists l.
             by rewrite (Hold _ _ Hl).
          -- exists l0. by rewrite (Hold _ _ Hget).
    - rewrite (current_line_step_new _ _ _ _ _ _ _ Hline Hget) in Hstep.
      injection Hstep as <- <- <-.
      split; [by apply dict_wf_set |]. split.
      + intros w l. destruct (decide (e_word e = w)) as [<- | Hne].
        * rewrite dict_get_set_eq. intros [= <-]. rewrite Hnew.
          split; [| done]. apply elem_of_app. right. by left.
        * rewrite dict_get_set_ne by done. intros Hw.
          rewrite (Hold _ _ Hw). destruct (Hstored _ _ Hw) as [Hin ?].
          split; [| done]. apply elem_of_app. by left.
      + intros e' [Hin | ->%list_elem_of_singleton]%elem_of_app.
        * destruct (Hseen e' Hin) as (l & Hl & Hle). exists l.
          rewrite dict_get_set_ne by (intros Heq; congruence).
          by rewrite (Hold _ _ Hl).
        * exists (length h). rewrite dict_get_set_eq, Hnew. split; [done | lia].
  Qed.

Lemma current_loop_inv lines current h stats seen current' h' stats' :
    foldM (current_line_step lower py_int) (current, h, stats) lines
      = Ok (current', h', stats') →
    current_inv current h seen →
    current_inv current' h' (seen ++ omap (parse_current_line lower py_int) lines).
  Proof.
    revert current h stats seen.
    induction lines as [| line lines IH]; intros current h stats seen Hloop Hinv;
      simpl in Hloop.
    - simplify_eq. by rewrite app_nil_r.
    - apply bind_Ok in Hloop as ([[c1 h1] s1] & Hstep & Hloop).
      pose proof (current_line_step_inv _ _ _ _ _ _ _ _ Hstep Hinv) as Hinv1.
      pose proof (IH _ _ _ _ Hloop Hinv1) as Hinv2.
      simpl. destruct (parse_current_line lower py_int line);
        by rewrite <- app_assoc in Hinv2.
  Qed.

Lemma current_inv_empty : current_inv [] [] [].
  Proof.
    split; [| split; [done |]].
    - split; [apply NoDup_nil_2 |]. split; [apply NoDup_nil_2 | constructor].
    - intros e Hin. by apply elem_of_nil in Hin.
  Qed.

Lemma parse_current_dictionary_inv lines stats :
    counters_ready stats →
    ∃ current h stats',
      parse_current_dictionary lower py_int lines [] stats = Ok (current, h, stats')
      ∧ counters_ready stats'
      ∧ current_inv current h (omap (parse_current_line lower py_int) lines).
  Proof.
    intros Hready.
    destruct (parse_current_dictionary_total lower py_int lines [] stats Hready)
      as (current & h & stats' & Hparse & Hready').
    exists current, h, stats'. split; [done |]. split; [done |].
    apply (current_loop_inv lines [] [] stats [] current h stats' Hparse
             current_inv_empty).
  Qed.
End CurrentInvariant.

(** With the counters in place the curated parser returns a mapping in
    which every word has an entry object of its own, and the entry of a word
    is a record of the file for that word: word, category, gender and number
    not empty, frequency at least 1, source [current]. *)
Theorem curated_mapping_well_formed
    (lower : pystr → pystr) (py_int : pystr → option Z)
    (lines : list pystr) (stats : stats_t) :
  counters_ready stats →
  ∃ current h stats',
    parse_current_dictionary lower py_int lines [] stats = Ok (current, h, stats')
    ∧ dict_wf current h
    ∧ ∀ w l, dict_get w current = Some l →
        (∃ line, line ∈ lines
                 ∧ parse_current_line lower py_int line = Some (h !!! l))
        ∧ e_word (h !!! l) = w
        ∧ w ≠ []
        ∧ e_category (h !!! l) ≠ []
        ∧ e_gender (h !!! l) ≠ []
        ∧ e_number (h !!! l) ≠ []
        ∧ 1 ≤ e_frequency (h !!! l)
        ∧ e_source (h !!! l) = lit "current".
Proof.
  intros Hready.
  destruct (parse_current_dictionary_inv lower py_int lines stats Hready)
    as (current & h & stats' & Hparse & _ & Hwf & Hstored & _).
  exists current, h, stats'. split; [done |]. split; [done |].
  intros w l Hget. destruct (Hstored w l Hget) as [Hin Hword].
  apply list_elem_of_omap in Hin as (line & Hline & Hrec).
  destruct (parse_current_line_Some lower py_int line _ Hrec)
    as (Hw & Hc & Hg & Hn & Hf & Hs).
  split; [by exists line |]. split; [done |]. split; [congruence |]. done.
Qed.

Lemma curated_mapping_well_formed_witness :
  ∃ current h stats',
    parse_current_dictionary ascii_lower dec_int casa_lines [] (initial_stats 0)
      = Ok (current, h, stats')
    ∧ dict_wf current h.
Proof.
  destruct (curated_mapping_well_formed ascii_lower dec_int casa_lines
              (initial_stats 0) (initial_stats_ready 0))
    as (current & h & stats' & Hparse & Hwf & _).
  by exists current, h, stats'.
Defined.

(** Of the records of a word the curated parser keeps one of the greatest
    frequency: every record of the file has its word in the mapping, with an
    entry for that word whose frequency is at least the record's. *)
Theorem curated_mapping_keeps_maximum
    (lower : pystr → pystr) (py_int : pystr → option Z)
    (lines : list pystr) (stats : stats_t) :
  counters_ready stats →
  ∃ current h stats',
    parse_current_dictionary lower py_int lines [] stats = Ok (current, h, stats')
    ∧ ∀ line e, line ∈ lines → parse_current_line lower py_int line = Some e →
        ∃ l, dict_get (e_word e) current = Some l
             ∧ e_word (h !!! l) = e_word e
             ∧ e_frequency e ≤ e_frequency (h !!! l).
Proof.
  intros Hready.
  destruct (parse_current_dictionary_inv lower py_int lines stats Hready)
    as (current & h & stats' & Hparse & _ & _ & Hstored & Hseen).
  exists current, h, stats'. split; [done |].
  intros line e Hline Hrec.
  destruct (Hseen e) as (l & Hget & Hle).
  { apply list_elem_of_omap. by exists line. }
  exists l. split; [done |]. split; [| done]. by destruct (Hstored _ _ Hget).
Qed.

Lemma curated_mapping_keeps_maximum_witness :
  ∃ current h stats' l,
    parse_current_dictionary ascii_lower dec_int casa_lines [] (initial_stats 0)
      = Ok (current, h, stats')
    ∧ dict_get (lit "casa") current = Some l
    ∧ 900 ≤ e_frequency (h !!! l).
Proof.
  destruct (curated_mapping_keeps_maximum ascii_lower dec_int casa_lines
              (initial_stats 0) (initial_stats_ready 0))
    as (current & h & stats' & Hparse & Hmax).
  destruct (Hmax casa_line casa_record) as (l & Hget & _ & Hle).
  - unfold casa_lines. apply elem_of_cons. right. apply elem_of_cons. right.
    by left.
  - by vm_compute.
  - by exists current, h, stats', l.
Defined.

Local Arguments merge_step : simpl never.
Local Arguments assign_step : simpl never.

(** ** Frequency assignment over the whole mapping *)

Lemma assigned_frequency_pos doozan_freq word e :
  (∀ w f, dict_get w doozan_freq = Some f → 1 ≤ f) →
  1 ≤ assigned_frequency doozan_freq word e.
Proof.
  intros Hpos. unfold assigned_frequency.
  destruct (dict_get word doozan_freq) as [f |] eqn:Hf; [by eapply Hpos |].
  destruct (str_eqb _ _); lia.
Qed.

(** With the counters in place and an entry object per word,
    [assign_frequencies] returns; it changes the frequency field only, and
    only of the entries of the mapping; the entry of a word gets the corpus
    score of the word, else 1 for an entry from the analyzer, else its own
    frequency raised to 1 at least.  With corpus scores of at least 1 no
    entry of the mapping is left with a frequency below 1. *)
Theorem assign_frequencies_every_entry
    (entries : dict pystr loc) (doozan_freq : dict pystr Z)
    (h : heap) (stats : stats_t) :
  counters_ready stats → dict_wf entries h →
  ∃ h' stats',
    assign_frequencies entries doozan_freq h stats = Ok (h', stats')
    ∧ length h' = length h
    ∧ (∀ l, same_but_frequency (h !!! l) (h' !!! l))
    ∧ (∀ l, l ∉ dict_values entries → h' !!! l = h !!! l)
    ∧ (∀ word l, dict_get word entries = Some l →
         e_frequency (h' !!! l) = assigned_frequency doozan_freq word (h !!! l))
    ∧ ((∀ w f, dict_get w doozan_freq = Some f → 1 ≤ f) →
       ∀ word l, dict_get word entries = Some l → 1 ≤ e_frequency (h' !!! l)).
Proof.
  intros Hready Hwf.
  destruct (assign_loop_total doozan_freq entries h stats Hready)
    as (h' & stats' & Hassign & _).
  exists h', stats'. split; [done |].
  destruct (assign_loop_frame _ _ _ _ _ _ Hassign) as [Hlen Hframe].
  split; [done |]. split; [done |].
  split; [intros l Hl; by eapply assign_loop_obj_other |].
  assert (∀ word l, dict_get word entries = Some l →
            e_frequency (h' !!! l) = assigned_frequency doozan_freq word (h !!! l))
    as Hfreq by (intros word l Hget; by eapply assign_loop_frequency).
  split; [done |]. intros Hpos word l Hget. rewrite (Hfreq word l Hget).
  by apply assigned_frequency_pos.
Qed.

Lemma assign_frequencies_every_entry_witness :
  ∃ h' stats',
    assign_frequencies casa_current casa_freq casa_store (initial_stats 1)
      = Ok (h', stats')
    ∧ e_frequency (h' !!! 0%nat) = 1000
    ∧ e_lemma (h' !!! 0%nat) = e_lemma (casa_store !!! 0%nat).
Proof.
  destruct (assign_frequencies_every_entry casa_current casa_freq casa_store
              (initial_stats 1) (initial_stats_ready 1) casa_current_wf)
    as (h' & stats' & Hassign & _ & Hframe & _ & Hfreq & _).
  exists h', stats'. split; [exact Hassign |]. split.
  - rewrite (Hfreq (lit "casa") 0%nat eq_refl). reflexivity.
  - by destruct (Hframe 0%nat) as (_ & _ & _ & _ & ? & _).
Defined.

(** ** Validator: the three anchors *)

Lemma mismatch_Some_false (x actual : pystr) :
  mismatch (Some x) actual = false ↔ actual = x.
Proof.
  unfold mismatch, str_eqb. rewrite negb_false_iff. apply bool_decide_eq_true.
Qed.

Lemma anchor_passes entries h word exp_cat exp_gen exp_num :
  ¬ anchor_fails entries h (word, exp_cat, exp_gen, exp_num)
  ↔ ∃ l, dict_get word entries = Some l
         ∧ mismatch exp_cat (e_category (h !!! l)) = false
         ∧ mismatch exp_gen (e_gender (h !!! l)) = false
         ∧ mismatch exp_num (e_number (h !!! l)) = false.
Proof.
  unfold anchor_fails. destruct (dict_get word entries) as [l |].
  - split.
    + intros Hnot. exists l. split; [done |].
      destruct (mismatch exp_cat _), (mismatch exp_gen _), (mismatch exp_num _);
        tauto.
    + intros (l' & [= <-] & Hc & Hg & Hn). rewrite Hc, Hg, Hn.
      by intros [? | [? | ?]].
  - split; [tauto |]. by intros (l & ? & _).
Qed.

(** [validate] passes exactly when the mapping has [agua] as a feminine
    noun, [casa] as a noun and [el] as a masculine singular article; when
    it does not pass it raises a [RuntimeError]. *)
Theorem validate_passes_iff (entries : dict pystr loc) (h : heap) :
  (validate entries h = Ok tt
   ↔ (∃ l, dict_get (lit "agua") entries = Some l
           ∧ e_category (h !!! l) = lit "sustantivo"
           ∧ e_gender (h !!! l) = lit "f")
     ∧ (∃ l, dict_get (lit "casa") entries = Some l
             ∧ e_category (h !!! l) = lit "sustantivo")
     ∧ (∃ l, dict_get (lit "el") entries = Some l
             ∧ e_category (h !!! l) = lit "articulo"
             ∧ e_gender (h !!! l) = lit "m"
             ∧ e_number (h !!! l) = lit "s"))
  ∧ (validate entries h = Ok tt
     ∨ ∃ msg, validate entries h = Raise (RuntimeError msg)).
Proof.
  assert ((∀ chk, chk ∈ checks → ¬ anchor_fails entries h chk)
          ↔ (∃ l, dict_get (lit "agua") entries = Some l
                  ∧ e_category (h !!! l) = lit "sustantivo"
                  ∧ e_gender (h !!! l) = lit "f")
            ∧ (∃ l, dict_get (lit "casa") entries = Some l
                    ∧ e_category (h !!! l) = lit "sustantivo")
            ∧ (∃ l, dict_get (lit "el") entries = Some l
                    ∧ e_category (h !!! l) = lit "articulo"
                    ∧ e_gender (h !!! l) = lit "m"
                    ∧ e_number (h !!! l) = lit "s")) as Hanchors.
  { unfold checks. rewrite <- Forall_forall, !Forall_cons, Forall_nil.
    rewrite !anchor_passes. setoid_rewrite mismatch_Some_false.
    unfold mismatch. split.
    - intros ((l1 & ? & ? & ? & _) & (l2 & ? & ? & _) & (l3 & ? & ? & ? & ?) & _).
      split; [by exists l1 | split; [by exists l2 | by exists l3]].
    - intros ((l1 & ? & ? & ?) & (l2 & ? & ?) & (l3 & ? & ? & ? & ?)).
      split; [by exists l1 | split; [by exists l2 | split; [by exists l3 | done]]]. }
  destruct (validate_spec entries h) as [[Hok Hall] | [[msg Hmsg] (chk & Hin & Hbad)]].
  - split; [| by left]. split; [intros _; by apply (proj1 Hanchors) | done].
  - split; [| right; by exists msg]. split; [by rewrite Hmsg |].
    intros Hall. by destruct (proj2 Hanchors Hall chk Hin).
Qed.

Local Arguments merge_step : simpl never.
Local Arguments assign_step : simpl never.

(** ** Frequency file: the raw table *)

Section RawTable.
  Context (lower : pystr → pystr) (py_int : pystr → option Z) (log10 : Z → float).

Lemma doozan_line_step_raw raw_freq max_raw stats line raw_freq' max_raw' stats' :
    doozan_line_step lower py_int (raw_freq, max_raw, stats) line
      = Ok (raw_freq', max_raw', stats') →
    raw_freq'
    = match parse_doozan_line lower py_int line with
      | DCount w c =>
          if c <=? 0 then raw_freq
          else match dict_get w raw_freq with
               | None => dict_set w c raw_freq
               | Some prev => if prev <? c then dict_set w c raw_freq else raw_freq
               end
      | _ => raw_freq
      end.
  Proof.
    unfold doozan_line_step.
    destruct (parse_doozan_line lower py_int line) as [| | w c].
    - by intros [= <- <- <-].
    - destruct (bump _ stats); simpl; [| done]. by intros [= <- <- <-].
    - destruct (c <=? 0); [by intros [= <- <- <-] |].
      destruct (dict_get w raw_freq) as [prev |].
      + destruct (prev <? c); by intros [= <- <- <-].
      + by intros [= <- <- <-].
  Qed.

  (** The raw table after the lines [seen]: a count stored is positive and
      is the count of a line seen for that word, and no line seen has a
      greater count for it. *)
Lemma doozan_loop_largest lines seen raw_freq max_raw stats raw_freq' max_raw' stats' :
    foldM (doozan_line_step lower py_int) (raw_freq, max_raw, stats) lines
      = Ok (raw_freq', max_raw', stats') →
    (∀ w c, dict_get w raw_freq = Some c →
       0 < c ∧ ∃ line, line ∈ seen ∧ parse_doozan_line lower py_int line = DCount w c) →
    (∀ line w c, line ∈ seen → parse_doozan_line lower py_int line = DCount w c →
       0 < c → ∃ c', dict_get w raw_freq = Some c' ∧ c ≤ c') →
    (∀ w c, dict_get w raw_freq' = Some c →
       0 < c ∧ ∃ line, line ∈ seen ++ lines
                       ∧ parse_doozan_line lower py_int line = DCount w c)
    ∧ (∀ line w c, line ∈ seen ++ lines →
         parse_doozan_line lower py_int line = DCount w c →
         0 < c → ∃ c', dict_get w raw_freq' = Some c' ∧ c ≤ c').
  Proof.
    revert seen raw_freq max_raw stats.
    induction lines as [| line lines IH];
      intros seen raw_freq max_raw stats Hloop Hstored Hseen; simpl in Hloop.
    - simplify_eq. by rewrite app_nil_r.
    - apply bind_Ok in Hloop as ([[raw1 m1] s1] & Hstep & Hloop).
      apply doozan_line_step_raw in Hstep.
      replace (seen ++ line :: lines) with ((seen ++ [line]) ++ lines)
        by (by rewrite <- app_assoc).
      apply (IH (seen ++ [line]) raw1 m1 s1 Hloop).
      + intros w c Hget.
        assert (dict_get w raw_freq = Some c
                ∨ parse_doozan_line lower py_int line = DCount w c ∧ 0 < c) as Hcase.
        { destruct (parse_doozan_line lower py_int line) as [| | w0 c0];
            [left; congruence.. |].
          destruct (c0 <=? 0) eqn:Hc0; [left; congruence |].
          apply Z.leb_gt in Hc0.
          assert (dict_get w (dict_set w0 c0 raw_freq) = Some c →
                  dict_get w raw_freq = Some c ∨ DCount w0 c0 = DCount w c ∧ 0 < c)
            as Hset.
          { destruct (decide (w0 = w)) as [<- | Hne].
            - rewrite dict_get_set_eq. intros [= <-]. by right.
            - rewrite dict_get_set_ne by done. by left. }
          destruct (dict_get w0 raw_freq) as [prev |];
            [destruct (prev <? c0) |]; subst raw1; auto. }
        destruct Hcase as [Hold | [Hline Hc]].
        * destruct (Hstored w c Hold) as (Hc & l & Hin & Hl).
          split; [done |]. exists l. split; [| done]. apply elem_of_app. by left.
        * split; [done |]. exists line. split; [| done].
          apply elem_of_app. right. by left.
      + intros l w c [Hin | ->%list_elem_of_singleton]%elem_of_app Hl Hc.
        * destruct (Hseen l w c Hin Hl Hc) as (c' & Hget & Hle).
          destruct (parse_doozan_line lower py_int line) as [| | w0 c0];
            [exists c'; split; [congruence | done].. |].
          destruct (c0 <=? 0); [exists c'; split; [congruence | done] |].
          destruct (decide (w0 = w)) as [-> | Hne].
          -- rewrite Hget in Hstep. destruct (c' <? c0) eqn:Hlt; subst raw1.
             ++ apply Z.ltb_lt in Hlt. exists c0. rewrite dict_get_set_eq.
                split; [done | lia].
             ++ by exists c'.
          -- exists c'. split; [| done].
             destruct (dict_get w0 raw_freq) as [prev |];
               [destruct (prev <? c0) |]; subst raw1;
               rewrite ?dict_get_set_ne by done; done.
        * rewrite Hl in Hstep. destruct (c <=? 0) eqn:Hc0;
            [apply Z.leb_le in Hc0; lia |].
          destruct (dict_get w raw_freq) as [prev |] eqn:Hprev.
          -- destruct (prev <? c) eqn:Hlt; subst raw1.
             ++ exists c. rewrite dict_get_set_eq. split; [done | lia].
             ++ apply Z.ltb_ge in Hlt. by exists prev.
          -- subst raw1. exists c. rewrite dict_get_set_eq. split; [done | lia].
  Qed.

Lemma load_doozan_frequency_Ok lines stats normalized raw stats' :
    load_doozan_frequency lower py_int log10 lines stats
      = Ok (normalized, raw, stats') →
    ∃ max_raw stats1,
      foldM (doozan_line_step lower py_int) ([], 0, stats) lines
        = Ok (raw, max_raw, stats1)
      ∧ stats' = <["doozan_max_raw"%string := max_raw]> stats1.
  Proof.
    unfold load_doozan_frequency.
    destruct (foldM (doozan_line_step lower py_int) _ lines)
      as [[[raw1 m1] s1] | e]; [| done].
    rewrite result_bind_Ok. cbv beta iota.
    destruct (m1 <=? 0); [done |]. cbv zeta.
    destruct (foldM _ [] raw1) as [normalized1 | e]; [| done].
    rewrite result_bind_Ok. intros [= <- <- <-]. by exists m1, s1.
  Qed.
End RawTable.

(** When the normalizer returns, its raw table holds for every word the
    greatest positive count of the lines of that word: a stored count is
    positive and is the count of some line for the word, and every line
    with a positive count has its word in the table with at least that
    count. *)
Theorem raw_count_is_largest
    (lower : pystr → pystr) (py_int : pystr → option Z) (log10 : Z → float)
    (lines : list pystr) (stats : stats_t)
    (normalized raw : dict pystr Z) (stats' : stats_t) :
  load_doozan_frequency lower py_int log10 lines stats
    = Ok (normalized, raw, stats') →
  (∀ w c, dict_get w raw = Some c →
     0 < c ∧ ∃ line, line ∈ lines
                     ∧ parse_doozan_line lower py_int line = DCount w c)
  ∧ (∀ line w c, line ∈ lines →
       parse_doozan_line lower py_int line = DCount w c → 0 < c →
       ∃ c', dict_get w raw = Some c' ∧ c ≤ c').
Proof.
  intros (max_raw & stats1 & Hloop & _)%load_doozan_frequency_Ok.
  apply (doozan_loop_largest lower py_int lines [] [] 0 stats raw max_raw stats1
           Hloop).
  - done.
  - intros line w c Hin. by apply elem_of_nil in Hin.
Qed.

Lemma raw_count_is_largest_witness :
  ∃ normalized raw stats' c',
    load_doozan_frequency ascii_lower dec_int log10_tab
      (lit "casa 7" :: corpus_lines) (initial_stats 0)
      = Ok (normalized, raw, stats')
    ∧ dict_get (lit "casa") raw = Some c' ∧ 100 ≤ c'.
Proof.
  assert (match load_doozan_frequency ascii_lower dec_int log10_tab
                  (lit "casa 7" :: corpus_lines) (initial_stats 0) with
          | Ok _ => True
          | Raise _ => False
          end) as Hrun by (vm_compute; exact I).
  destruct (load_doozan_frequency ascii_lower dec_int log10_tab
              (lit "casa 7" :: corpus_lines) (initial_stats 0))
    as [[[normalized raw] stats'] | e] eqn:Hload.
  - destruct (raw_count_is_largest ascii_lower dec_int log10_tab _ _ _ _ _ Hload)
      as [_ Hmax].
    destruct (Hmax (lit "casa 100") (lit "casa") 100) as (c' & Hget & Hle).
    + apply elem_of_cons. right. apply elem_of_cons. right. by left.
    + by vm_compute.
    + lia.
    + by exists normalized, raw, stats', c'.
  - destruct Hrun.
Defined.

Local Arguments merge_step : simpl never.
Local Arguments assign_step : simpl never.

(** ** Words added by the merge *)

Section MergeAdds.
  Context (current : dict pystr loc) (doozan_vocab : gset pystr)
          (doozan_raw : dict pystr Z).

  (** A new word that passes the two filters, in the store [hk] that its
      iteration finds, gets an object of its own, which the rest of the loop
      leaves alone. *)
Lemma merge_loop_new_entry F final h stats final' h' stats' word candidates best :
    foldM (merge_step current doozan_vocab doozan_raw) (final, h, stats) F
      = Ok (final', h', stats') →
    NoDup (dict_keys F) → dict_wf final h →
    dict_get word F = Some candidates →
    select_best_candidate candidates = Ok best →
    dict_get word final = None →
    ∃ hk,
      (length h ≤ length hk)%nat
      ∧ (∀ l, (l < length h)%nat → same_but_lemma (h !!! l) (hk !!! l))
      ∧ ((str_eqb (c_category best) (lit "verbo")
          && negb (bool_decide (word ∈ doozan_vocab)))
         || is_probable_unaccented_verb_variant
              word (c_category best) current hk doozan_raw = false →
         ∃ l, dict_get word final' = Some l
              ∧ (length h ≤ l)%nat
              ∧ h' !!! l = mkEntry word (c_category best) (c_gender best)
                                   (c_number best) (c_lemma best) 1
                                   (lit "freeling")).
  Proof.
    revert final h stats.
    induction F as [| [w cs] F IH];
      intros final h stats Hloop Hnd Hwf HF Hbest Hget; simpl in Hloop; [done |].
    apply bind_Ok in Hloop as ([[final1 h1] stats1] & Hstep & Hloop).
    unfold dict_keys in Hnd. simpl in Hnd. apply NoDup_cons in Hnd as [Hfresh Hnd].
    pose proof (merge_step_wf _ _ _ _ _ _ _ _ _ _ Hstep Hwf) as Hwf1.
    simpl in HF. destruct (decide (word = w)) as [<- | Hne].
    - simplify_eq. exists h. split; [done |].
      split; [intros; apply same_but_lemma_refl |]. intros Hpass.
      apply merge_step_inv in Hstep as (best' & Hbest' & Hcase).
      rewrite Hget in Hcase. assert (best' = best) as -> by congruence.
      rewrite Hpass in Hcase. destruct Hcase as [-> ->].
      assert (dict_get word (dict_set word (length h) final) = Some (length h))
        as Hget1 by apply dict_get_set_eq.
      exists (length h).
      rewrite (merge_loop_get_other _ _ _ _ _ _ _ _ _ _ _ Hloop Hfresh).
      split; [done |]. split; [done |].
      rewrite (merge_loop_obj_other _ _ _ _ _ _ _ _ _ _ _ _ Hloop Hwf1 Hget1 Hfresh).
      by rewrite list_lookup_total_middle.
    - pose proof (merge_step_frame _ _ _ _ _ _ _ _ _ _ Hstep) as [Hlen1 Hframe1].
      assert (dict_get word final1 = None) as Hget1.
      { rewrite <- Hget. eapply merge_step_get_other; [exact Hstep | done]. }
      destruct (IH _ _ _ Hloop Hnd Hwf1 HF Hbest Hget1)
        as (hk & Hlen & Hframe & Hadd).
      exists hk. split; [lia |]. split.
      + intros l Hl. eapply same_but_lemma_trans; [by apply Hframe1 |].
        apply Hframe. lia.
      + intros Hpass. destruct (Hadd Hpass) as (l & ? & ? & ?).
        exists l. split; [done |]. split; [lia | done].
  Qed.
End MergeAdds.

(** A word that the curated dictionary lacks and that neither filter drops
    comes out of the merge and the frequency assignment with an entry of its
    own: the category, gender, number and lemma of its best candidate, the
    source [freeling], and as frequency its corpus score, or 1 when the
    corpus lacks it. *)
Theorem merge_adds_new_word
    (current : dict pystr loc) (freeling_candidates : dict pystr (list Candidate))
    (doozan_vocab : gset pystr) (doozan_raw doozan_freq : dict pystr Z)
    (h : heap) (stats : stats_t)
    (word : pystr) (candidates : list Candidate) (best : Candidate) :
  counters_ready stats →
  Forall (λ item, item.2 ≠ []) freeling_candidates →
  NoDup (dict_keys freeling_candidates) →
  dict_wf current h →
  dict_get word freeling_candidates = Some candidates →
  select_best_candidate candidates = Ok best →
  dict_get word current = None →
  ¬ (c_category best = lit "verbo" ∧ word ∉ doozan_vocab) →
  ¬ accent_typo_of_verb word (c_category best) current h doozan_raw →
  ∃ final h1 stats1 h2 stats2 l,
    merge_entries current freeling_candidates doozan_vocab doozan_raw h stats
      = Ok (final, h1, stats1)
    ∧ assign_frequencies final doozan_freq h1 stats1 = Ok (h2, stats2)
    ∧ dict_get word final = Some l
    ∧ (length h ≤ l)%nat
    ∧ h2 !!! l = mkEntry word (c_category best) (c_gender best) (c_number best)
                         (c_lemma best)
                         (default 1 (dict_get word doozan_freq))
                         (lit "freeling").
Proof.
  intros Hready Hne Hnd Hwf HF Hbest Hnew Hverb Htypo.
  destruct (merge_assign_run current freeling_candidates doozan_vocab doozan_raw
              doozan_freq h stats Hready Hne)
    as (final & h1 & stats1 & h2 & stats2 & Hmerge & Hassign & _ & _ & Hframe2 & _).
  destruct (merge_loop_new_entry _ _ _ _ _ _ _ _ _ _ _ _ _ Hmerge Hnd Hwf HF Hbest
              Hnew) as (hk & _ & Hframe & Hadd).
  destruct Hadd as (l & Hget & Hl & Hentry).
  { rewrite (is_probable_store _ _ _ h hk).
    2: { intros w l Hw. apply Hframe. by eapply dict_wf_lt. }
    apply orb_false_iff. split.
    - apply andb_false_iff. unfold str_eqb.
      destruct (bool_decide (c_category best = lit "verbo")) eqn:Hcat; [| by left].
      right. apply bool_decide_eq_true in Hcat. apply negb_false_iff.
      apply bool_decide_eq_true. by destruct (decide (word ∈ doozan_vocab)); [| tauto].
    - destruct (is_probable_unaccented_verb_variant _ _ _ _ _) eqn:Hprob; [| done].
      by apply is_probable_spec in Hprob. }
  exists final, h1, stats1, h2, stats2, l.
  split; [done |]. split; [done |]. split; [done |]. split; [done |].
  pose proof (merge_loop_wf _ _ _ _ _ _ _ _ _ _ Hmerge Hwf) as [Hwf1 _].
  pose proof (assign_loop_frequency _ _ _ _ _ _ _ _ Hassign Hwf1 Hget) as Hfreq.
  destruct (Hframe2 l) as (Hw & Hc & Hg & Hn & Hlem & Hs).
  rewrite Hentry in *. unfold assigned_frequency in Hfreq. simpl in *.
  assert (e_frequency (h2 !!! l) = default 1 (dict_get word doozan_freq)) as Hf.
  { rewrite Hfreq. by destruct (dict_get word doozan_freq). }
  destruct (h2 !!! l). simpl in *. by subst.
Qed.

Lemma merge_adds_new_word_witness :
  ∃ final h1 stats1 h2 stats2 l,
    merge_entries casa_current perro_candidates casa_vocab casa_raw casa_store
                  (initial_stats 1) = Ok (final, h1, stats1)
    ∧ assign_frequencies final casa_freq h1 stats1 = Ok (h2, stats2)
    ∧ dict_get (lit "perro") final = Some l
    ∧ (1 ≤ l)%nat
    ∧ h2 !!! l = mkEntry (lit "perro") (lit "sustantivo") (lit "m") (lit "s")
                         (lit "perro") 1 (lit "freeling").
Proof.
  apply (merge_adds_new_word casa_current perro_candidates casa_vocab casa_raw
           casa_freq casa_store (initial_stats 1) (lit "perro") [perro_noun]
           perro_noun).
  - apply initial_stats_ready.
  - by apply Forall_singleton.
  - apply NoDup_singleton.
  - apply casa_current_wf.
  - reflexivity.
  - reflexivity.
  - reflexivity.
  - intros [Hverb _]. vm_compute in Hverb. discriminate Hverb.
  - intros Htypo%is_probable_spec. vm_compute in Htypo. discriminate Htypo.
Defined.

Local Arguments merge_step : simpl never.
Local Arguments assign_step : simpl never.

(** ** The output file *)

Lemma str_le_spec (a b : pystr) : str_le a b ↔ ¬ lexico b a.
Proof. unfold str_le. apply lexico_ltb_false. Qed.

Lemma str_le_total : Total str_le.
Proof.
  intros a b. rewrite !str_le_spec.
  destruct (trichotomyT lexico a b) as [[Hab | ->] | Hba].
  - left. intros Hba. by eapply (irreflexivity lexico a); etrans.
  - left. apply irreflexivity, _.
  - right. intros Hab. by eapply (irreflexivity lexico a); etrans.
Qed.

Lemma str_le_trans : Transitive str_le.
Proof.
  intros a b c. rewrite !str_le_spec. apply lexico_not_lt_trans.
Qed.

(** A list in the order of [sorted] with no word twice ascends strictly. *)
Lemma sorted_strict (words : list pystr) :
  StronglySorted str_le words → NoDup words → StronglySorted lexico words.
Proof.
  induction 1 as [| a words Hsorted IH Hall]; intros Hnd; [constructor |].
  apply NoDup_cons in Hnd as [Ha Hnd]. constructor; [auto |].
  apply Forall_forall. intros b Hb.
  rewrite Forall_forall in Hall. specialize (Hall b Hb).
  apply str_le_spec in Hall.
  destruct (trichotomyT lexico a b) as [[Hab | ->] | Hba]; done.
Qed.

Lemma omap_present {A B} (f : A → option B) (l : list A) :
  Forall (λ x, is_Some (f x)) l →
  Forall2 (λ x y, f x = Some y) l (omap f l).
Proof.
  induction 1 as [| x l [y Hy] Hall IH]; simpl; [constructor |].
  rewrite Hy. by constructor.
Qed.

(** The events of [write_output] and the lines of the file. *)
Lemma write_output_spec
    (inp : inputs_t) (entries : dict pystr loc) (h : heap) (no_backup : bool) :
  NoDup (dict_keys entries) →
  ∃ words body,
    write_output inp entries h no_backup
      = ((if output_exists inp && negb no_backup
          then [Copy2 (backup_exists inp)] else [])
           ++ [WriteFile
                 (lit "# Diccionario de espanol combinado (generado automaticamente)"
                  :: lit "# Formato: palabra|categoria|genero|numero|lema|frecuencia"
                  :: (lit "# Generado UTC: " ++ now inp)
                  :: [] :: body)],
         output_exists inp && negb no_backup)
    ∧ words ≡ₚ dict_keys entries
    ∧ StronglySorted lexico words
    ∧ Forall2 (λ word line,
                 ∃ l, dict_get word entries = Some l
                      ∧ line = output_line (h !!! l))
              words body.
Proof.
  intros Hnd.
  pose proof (@merge_sort_Permutation _ str_le str_le_dec (dict_keys entries))
    as Hperm.
  pose proof (@StronglySorted_merge_sort _ str_le str_le_dec str_le_trans str_le_total
                (dict_keys entries)) as Hsorted.
  exists (@merge_sort _ str_le str_le_dec (dict_keys entries)).
  exists (omap (λ word, (λ l, output_line (h !!! l)) <$> dict_get word entries)
               (@merge_sort _ str_le str_le_dec (dict_keys entries))).
  split; [reflexivity |]. split; [exact Hperm |]. split.
  - apply sorted_strict; [exact Hsorted | by rewrite Hperm].
  - eapply Forall2_impl.
    + apply omap_present. apply Forall_forall. intros word Hword.
      rewrite Hperm in Hword. apply dict_get_is_Some in Hword as [l Hl].
      rewrite Hl. by eexists.
    + intros word line Hline. simpl in Hline.
      destruct (dict_get word entries) as [l |]; [| done].
      exists l. split; [done |]. by injection Hline.
Qed.

(** [write_output] copies the old file first exactly when it exists and
    backups are not turned off, and reports the backup in that case only.
    Then it writes one file: the three comment lines, an empty line and one
    line per word of the mapping, in strictly ascending order of the words,
    each line made from the entry of its word. *)
Theorem write_output_sorted_lines
    (inp : inputs_t) (entries : dict pystr loc) (h : heap) (no_backup : bool) :
  NoDup (dict_keys entries) →
  ∃ words body,
    write_output inp entries h no_backup
      = ((if output_exists inp && negb no_backup
          then [Copy2 (backup_exists inp)] else [])
           ++ [WriteFile
                 (lit "# Diccionario de espanol combinado (generado automaticamente)"
                  :: lit "# Formato: palabra|categoria|genero|numero|lema|frecuencia"
                  :: (lit "# Generado UTC: " ++ now inp)
                  :: [] :: body)],
         output_exists inp && negb no_backup)
    ∧ words ≡ₚ dict_keys entries
    ∧ StronglySorted lexico words
    ∧ Forall2 (λ word line,
                 ∃ l, dict_get word entries = Some l
                      ∧ line = output_line (h !!! l))
              words body.
Proof. apply write_output_spec. Qed.

Lemma write_output_sorted_lines_witness :
  ∃ words body,
    write_output no_corpus_inputs casa_current casa_store false
      = ([Copy2 false]
           ++ [WriteFile
                 (lit "# Diccionario de espanol combinado (generado automaticamente)"
                  :: lit "# Formato: palabra|categoria|genero|numero|lema|frecuencia"
                  :: (lit "# Generado UTC: " ++ now no_corpus_inputs)
                  :: [] :: body)],
         true)
    ∧ words ≡ₚ dict_keys casa_current
    ∧ StronglySorted lexico words
    ∧ Forall2 (λ word line,
                 ∃ l, dict_get word casa_current = Some l
                      ∧ line = output_line (casa_store !!! l))
              words body.
Proof.
  apply (write_output_sorted_lines no_corpus_inputs casa_current casa_store false).
  apply NoDup_singleton.
Defined.

(** ** The driver *)

Lemma wrote_output_write_output inp entries h no_backup tail :
  wrote_output ((write_output inp entries h no_backup).1 ++ tail) = true.
Proof.
  unfold wrote_output, write_output. cbv zeta. cbn [fst].
  rewrite !existsb_app. cbn [existsb]. by rewrite !orb_true_r.
Qed.

Section Driver.
  Context (lower upper : pystr → pystr) (py_int : pystr → option Z)
          (log10 : Z → float).

  (** What [build] and [main] do in the three cases of a run. *)
Lemma build_cases args inp :
    (∃ current merged h stats,
       build_merged lower upper py_int log10 inp = Ok (current, merged, h, stats)
       ∧ validate merged h = Ok tt
       ∧ (build lower upper py_int log10 args inp).2 = Ok 0
       ∧ main lower upper py_int log10 args inp
         = ((build lower upper py_int log10 args inp).1, 0)
       ∧ wrote_output (build lower upper py_int log10 args inp).1
         = negb (dry_run args))
    ∨ (∃ e,
         (build_merged lower upper py_int log10 inp = Raise e
          ∨ ∃ current merged h stats,
              build_merged lower upper py_int log10 inp
                = Ok (current, merged, h, stats)
              ∧ validate merged h = Raise e)
         ∧ build lower upper py_int log10 args inp = ([], Raise e)
         ∧ main lower upper py_int log10 args inp = ([EPrint e], 1)).
  Proof.
    unfold main, build.
    destruct (build_merged lower upper py_int log10 inp)
      as [[[[current merged] h] stats] | e] eqn:Hmerged.
    - rewrite result_bind_Ok.
      destruct (validate merged h) as [[] | e] eqn:Hvalid.
      + left. exists current, merged, h, stats. rewrite result_bind_Ok.
        split; [done |]. split; [done |]. split; [done |]. split; [done |].
        cbn [fst]. destruct (dry_run args); [done |]. cbn [negb].
        destruct (write_output inp merged h (no_backup args)) as [evs backup] eqn:Hw.
        rewrite <- !app_assoc.
        pose proof (wrote_output_write_output inp merged h (no_backup args)) as Hwrote.
        rewrite Hw in Hwrote. apply Hwrote.
      + right. exists e. split; [| done]. right. by exists current, merged, h, stats.
    - right. exists e. split; [by left | done].
  Qed.
End Driver.

(** [build] writes the output file only in a run that is no dry run, in
    which steps 3 to 6 have returned and the merged mapping has passed
    [validate]: a dry run, a run that fails before the validator and a run
    that the validator stops write nothing. *)
Theorem build_writes_only_validated
    (lower upper : pystr → pystr) (py_int : pystr → option Z) (log10 : Z → float)
    (args : args_t) (inp : inputs_t) :
  wrote_output (build lower upper py_int log10 args inp).1 = true →
  dry_run args = false
  ∧ ∃ current merged h stats,
      build_merged lower upper py_int log10 inp = Ok (current, merged, h, stats)
      ∧ validate merged h = Ok tt.
Proof.
  destruct (build_cases lower upper py_int log10 args inp)
    as [(current & merged & h & stats & Hmerged & Hvalid & _ & _ & Hwrote)
       | (e & _ & Hbuild & _)].
  - rewrite Hwrote. intros Hdry. split; [by destruct (dry_run args) |].
    by exists current, merged, h, stats.
  - by rewrite Hbuild.
Qed.

Lemma build_writes_only_validated_witness :
  dry_run (mkArgs false false) = false
  ∧ ∃ current merged h stats,
      build_merged ascii_lower ascii_upper dec_int log10_tab full_inputs
        = Ok (current, merged, h, stats)
      ∧ validate merged h = Ok tt.
Proof.
  apply (build_writes_only_validated ascii_lower ascii_upper dec_int log10_tab
           (mkArgs false false) full_inputs).
  vm_compute. reflexivity.
Defined.

(** Given the lines of the three inputs, the work of steps 3 to 6 of
    [build] on them can fail in the frequency loader only: the counters
    that [build] creates are all that the steps look up, no word reaches the
    selection with an empty list of candidates, and the merged mapping
    starts with the curated one.  Opening and reading the files is not part
    of the statement. *)
Theorem build_fails_only_in_frequency_loader
    (lower upper : pystr → pystr) (py_int : pystr → option Z) (log10 : Z → float)
    (inp : inputs_t) :
  ∃ current h0 stats0,
    parse_current_dictionary lower py_int (current_lines inp) []
        (initial_stats (length (freeling_files inp)))
      = Ok (current, h0, stats0)
    ∧ ((∃ merged h stats extra,
          build_merged lower upper py_int log10 inp = Ok (current, merged, h, stats)
          ∧ merged = current ++ extra
          ∧ ∃ loaded, load_doozan_frequency lower py_int log10 (doozan_lines inp)
                        stats0 = Ok loaded)
       ∨ ∃ e,
           load_doozan_frequency lower py_int log10 (doozan_lines inp) stats0
             = Raise e
           ∧ build_merged lower upper py_int log10 inp = Raise e).
Proof.
  destruct (parse_current_dictionary_inv lower py_int (current_lines inp)
              (initial_stats (length (freeling_files inp)))
              (initial_stats_ready _))
    as (current & h0 & stats0 & Hcurrent & Hready0 & _).
  exists current, h0, stats0. split; [exact Hcurrent |].
  unfold build_merged. cbv zeta. rewrite Hcurrent, result_bind_Ok.
  destruct (load_doozan_frequency lower py_int log10 (doozan_lines inp) stats0)
    as [[[doozan_freq doozan_raw] stats1] | e] eqn:Hload.
  - left. rewrite result_bind_Ok.
    assert (counters_ready stats1) as Hready1.
    { apply load_doozan_frequency_Ok in Hload as (max_raw & stats' & Hloop & ->).
      destruct (doozan_loop_spec lower py_int (doozan_lines inp) [] 0 stats0
                  Hready0 doozan_inv_empty)
        as (raw' & stats'' & Hloop' & Hready' & _).
      rewrite Hloop in Hloop'. simplify_eq. by apply insert_keeps_counters. }
    destruct (parse_freeling_files_spec lower upper (freeling_files inp) stats1
                Hready1) as (by_word & stats2 & Hfiles & Hready2 & Hgrouped).
    rewrite Hfiles, result_bind_Ok.
    destruct (merge_assign_run current by_word (list_to_set (dict_keys doozan_freq))
                doozan_raw doozan_freq h0 stats2 Hready2
                (grouped_nonempty _ Hgrouped))
      as (final & h1 & stats3 & h2 & stats4 & Hmerge & Hassign & [extra ->] & _).
    rewrite Hmerge, result_bind_Ok, Hassign, result_bind_Ok.
    exists (current ++ extra), h2, stats4, extra.
    split; [done |]. split; [done |]. by eexists.
  - right. by exists e.
Qed.

Local Arguments merge_step : simpl never.
Local Arguments assign_step : simpl never.

(** ** From the inputs to the lines of the file *)

Section MergeKeyed.
  Context (current : dict pystr loc) (doozan_vocab : gset pystr)
          (doozan_raw : dict pystr Z).

Lemma merge_step_keyed final h stats item final' h' stats' :
    merge_step current doozan_vocab doozan_raw (final, h, stats) item
      = Ok (final', h', stats') →
    dict_wf final h → keyed final h → keyed final' h'.
  Proof.
    destruct item as [word candidates]. intros Hstep Hwf Hkeyed w l Hget.
    pose proof (merge_step_frame _ _ _ _ _ _ _ _ _ _ Hstep) as [Hlen Hframe].
    destruct (decide (word = w)) as [<- | Hne].
    - pose proof Hstep as (best & _ & Hcase)%merge_step_inv.
      destruct (dict_get word final) as [l0 |] eqn:Hold.
      + destruct Hcase as [-> _]. rewrite Hold in Hget. injection Hget as <-.
        destruct (Hframe l0) as [(Hw & _) _]; [by eapply dict_wf_lt |].
        rewrite Hw. by apply Hkeyed.
      + destruct (_ || _); destruct Hcase as [-> ->]; [congruence |].
        rewrite dict_get_set_eq in Hget. injection Hget as <-.
        by rewrite list_lookup_total_middle.
    - rewrite (merge_step_get_other _ _ _ _ _ _ _ _ _ _ _ _ Hstep Hne) in Hget.
      destruct (Hframe l) as [(Hw & _) _]; [by eapply dict_wf_lt |].
      rewrite Hw. by apply Hkeyed.
  Qed.

Lemma merge_loop_keyed F final h stats final' h' stats' :
    foldM (merge_step current doozan_vocab doozan_raw) (final, h, stats) F
      = Ok (final', h', stats') →
    dict_wf final h → keyed final h → keyed final' h'.
  Proof.
    revert final h stats.
    induction F as [| item F IH]; intros final h stats Hloop Hwf Hkeyed;
      simpl in Hloop; [by simplify_eq |].
    apply bind_Ok in Hloop as ([[final1 h1] stats1] & Hstep & Hloop).
    eapply IH; [exact Hloop | by eapply merge_step_wf | by eapply merge_step_keyed].
  Qed.
End MergeKeyed.

Section Pipeline.
  Context (lower upper : pystr → pystr) (py_int : pystr → option Z)
          (log10 : Z → float).

  (** What steps 3 to 6 of [build] hand to the validator and the writer. *)
Lemma build_merged_inv inp current merged h stats :
    build_merged lower upper py_int log10 inp = Ok (current, merged, h, stats) →
    dict_wf merged h ∧ keyed merged h ∧ ∃ extra, merged = current ++ extra.
  Proof.
    unfold build_merged. cbv zeta.
    destruct (parse_current_dictionary_inv lower py_int (current_lines inp)
                (initial_stats (length (freeling_files inp)))
                (initial_stats_ready _))
      as (current0 & h0 & stats0 & Hcurrent & _ & Hwf0 & Hkeyed0 & _).
    rewrite Hcurrent, result_bind_Ok. intros Hrun.
    apply bind_Ok in Hrun as ([[doozan_freq doozan_raw] stats1] & _ & Hrun).
    apply bind_Ok in Hrun as ([by_word stats2] & _ & Hrun).
    apply bind_Ok in Hrun as ([[merged1 h1] stats3] & Hmerge & Hrun).
    apply bind_Ok in Hrun as ([h2 stats4] & Hassign & Hrun).
    injection Hrun as -> -> -> ->.
    destruct (merge_loop_wf _ _ _ _ _ _ _ _ _ _ Hmerge Hwf0) as [Hwf1 Hextra].
    assert (keyed merged h1) as Hkeyed1.
    { eapply merge_loop_keyed; [exact Hmerge | exact Hwf0 |].
      intros w l Hget. by apply Hkeyed0. }
    destruct (assign_loop_frame _ _ _ _ _ _ Hassign) as [Hlen Hframe].
    split; [| split; [| exact Hextra]].
    - destruct Hwf1 as (? & ? & ?). unfold dict_wf. by rewrite Hlen.
    - intros w l Hget. destruct (Hframe l) as (Hw & _). rewrite Hw.
      by apply Hkeyed1.
  Qed.
End Pipeline.

(** A run of [build] that is no dry run and returns 0 has written one file:
    after the four header lines it has one line per word of the merged
    mapping, the curated words among them, in strictly ascending order of
    the words, and the line of a word is the line of an entry whose word
    field is that word. *)
Theorem build_writes_sorted_dictionary
    (lower upper : pystr → pystr) (py_int : pystr → option Z) (log10 : Z → float)
    (args : args_t) (inp : inputs_t) :
  (build lower upper py_int log10 args inp).2 = Ok 0 →
  dry_run args = false →
  ∃ current merged h stats words body pre post,
    build_merged lower upper py_int log10 inp = Ok (current, merged, h, stats)
    ∧ (build lower upper py_int log10 args inp).1
      = pre
        ++ [WriteFile
              (lit "# Diccionario de espanol combinado (generado automaticamente)"
               :: lit "# Formato: palabra|categoria|genero|numero|lema|frecuencia"
               :: (lit "# Generado UTC: " ++ now inp)
               :: [] :: body)]
        ++ post
    ∧ wrote_output pre = false ∧ wrote_output post = false
    ∧ words ≡ₚ dict_keys merged
    ∧ (∀ w, w ∈ dict_keys current → w ∈ words)
    ∧ StronglySorted lexico words
    ∧ Forall2 (λ word line,
                 ∃ l, dict_get word merged = Some l
                      ∧ e_word (h !!! l) = word
                      ∧ line = output_line (h !!! l))
              words body.
Proof.
  intros Hcode Hdry.
  destruct (build_cases lower upper py_int log10 args inp)
    as [(current & merged & h & stats & Hmerged & Hvalid & _)
       | (e & _ & Hbuild & _)]; [| by rewrite Hbuild in Hcode].
  destruct (build_merged_inv _ _ _ _ _ _ _ _ _ Hmerged)
    as (Hwf & Hkeyed & extra & Hextra).
  destruct (write_output_spec inp merged h (no_backup args) (proj1 Hwf))
    as (words & body & Hwrite & Hperm & Hsorted & Hlines).
  exists current, merged, h, stats, words, body.
  exists (if output_exists inp && negb (no_backup args)
          then [Copy2 (backup_exists inp)] else []).
  exists ([Print (lit "Wrote dictionary: " ++ output_path inp)]
            ++ (if output_exists inp && negb (no_backup args)
                then [Print (lit "Backup path")] else [])
            ++ [PrintStats stats (length current) (length merged)]).
  split; [exact Hmerged |]. split.
  { unfold build. rewrite Hmerged, result_bind_Ok, Hvalid, result_bind_Ok, Hdry.
    rewrite Hwrite. cbn [fst]. by rewrite <- !app_assoc. }
  split; [by destruct (_ && _) |]. split; [by destruct (_ && _) |].
  split; [exact Hperm |]. split.
  { intros w Hw. rewrite Hperm, Hextra. unfold dict_keys. rewrite fmap_app.
    apply elem_of_app. by left. }
  split; [exact Hsorted |].
  eapply Forall2_impl; [exact Hlines |].
  intros word line (l & Hget & ->). exists l. split; [done |].
  split; [by apply Hkeyed | done].
Qed.

Lemma build_writes_sorted_dictionary_witness :
  ∃ current merged h stats words body pre post,
    build_merged ascii_lower ascii_upper dec_int log10_tab full_inputs
      = Ok (current, merged, h, stats)
    ∧ (build ascii_lower ascii_upper dec_int log10_tab (mkArgs false false)
             full_inputs).1
      = pre
        ++ [WriteFile
              (lit "# Diccionario de espanol combinado (generado automaticamente)"
               :: lit "# Formato: palabra|categoria|genero|numero|lema|frecuencia"
               :: (lit "# Generado UTC: " ++ now full_inputs)
               :: [] :: body)]
        ++ post
    ∧ wrote_output pre = false ∧ wrote_output post = false
    ∧ words ≡ₚ dict_keys merged
    ∧ (∀ w, w ∈ dict_keys current → w ∈ words)
    ∧ StronglySorted lexico words
    ∧ Forall2 (λ word line,
                 ∃ l, dict_get word merged = Some l
                      ∧ e_word (h !!! l) = word
                      ∧ line = output_line (h !!! l))
              words body.
Proof.
  apply (build_writes_sorted_dictionary ascii_lower ascii_upper dec_int log10_tab
           (mkArgs false false) full_inputs).
  - vm_compute. reflexivity.
  - reflexivity.
Defined.

Local Arguments merge_step : simpl never.
Local Arguments assign_step : simpl never.

(** ** The words that the merge adds *)

Section MergeAdded.
  Context (current : dict pystr loc) (doozan_vocab : gset pystr)
          (doozan_raw : dict pystr Z).

  (** One iteration leaves the mapping as it is or appends its word with a
      new object from the analyzer. *)
Lemma merge_step_added final h stats word candidates final' h' stats' :
    merge_step current doozan_vocab doozan_raw (final, h, stats) (word, candidates)
      = Ok (final', h', stats') →
    (final' = final ∧ length h' = length h)
    ∨ (dict_get word final = None
       ∧ final' = final ++ [(word, length h)]
       ∧ ∃ e, h' = h ++ [e] ∧ e_word e = word ∧ e_source e = lit "freeling"
              ∧ e_frequency e = 1).
  Proof.
    intros (best & _ & Hcase)%merge_step_inv.
    destruct (dict_get word final) as [l0 |] eqn:Hget.
    - destruct Hcase as [-> ->]. left. split; [done |].
      destruct (_ && _); [by rewrite length_insert | done].
    - destruct (_ || _); destruct Hcase as [-> ->]; [by left |].
      right. split; [done |]. split; [by apply dict_set_fresh |].
      by eexists.
  Qed.

Lemma merge_loop_added F final h stats final' h' stats' :
    foldM (merge_step current doozan_vocab doozan_raw) (final, h, stats) F
      = Ok (final', h', stats') →
    dict_wf final h →
    ∃ extra,
      final' = final ++ extra
      ∧ length h' = (length h + length extra)%nat
      ∧ ∀ w l, (w, l) ∈ extra →
          w ∈ dict_keys F ∧ (w ∉ dict_keys final)
          ∧ (length h ≤ l < length h')%nat
          ∧ e_word (h' !!! l) = w
          ∧ e_source (h' !!! l) = lit "freeling"
          ∧ e_frequency (h' !!! l) = 1.
  Proof.
    revert final h stats.
    induction F as [| [word candidates] F IH]; intros final h stats Hloop Hwf;
      simpl in Hloop.
    - simplify_eq. exists []. rewrite app_nil_r. split; [done |].
      split; [simpl; lia |]. intros w l Hin. by apply elem_of_nil in Hin.
    - apply bind_Ok in Hloop as ([[final1 h1] stats1] & Hstep & Hloop).
      pose proof (merge_step_wf _ _ _ _ _ _ _ _ _ _ Hstep Hwf) as Hwf1.
      destruct (IH _ _ _ Hloop Hwf1) as (extra & -> & Hlen & Hextra).
      pose proof (merge_loop_frame _ _ _ _ _ _ _ _ _ _ Hloop) as [_ Hframe].
      apply merge_step_added in Hstep
        as [[-> Hlen1] | (Hnew & -> & e & -> & Hword & Hsource & Hfreq)].
      + exists extra. split; [done |]. split; [lia |].
        intros w l Hin. destruct (Hextra w l Hin) as (HF & Hfinal & Hl & Hrest).
        split; [unfold dict_keys; simpl; by right |].
        split; [done |]. split; [lia | done].
      + exists ((word, length h) :: extra). rewrite <- app_assoc.
        split; [done |]. rewrite length_app in Hlen. simpl in *.
        split; [lia |]. intros w l Hin.
        apply elem_of_cons in Hin as [[= -> ->] | Hin].
        * split; [unfold dict_keys; simpl; by left |].
          split; [by apply dict_get_None |]. split; [lia |].
          destruct (Hframe (length h)) as [(Hw & _ & _ & _ & Hf & Hs) _];
            [rewrite length_app; simpl; lia |].
          rewrite list_lookup_total_middle in * by done.
          rewrite Hw, Hs, Hf. done.
        * destruct (Hextra w l Hin) as (HF & Hfinal & Hl & Hrest).
          split; [unfold dict_keys; simpl; by right |].
          split; [| split; [rewrite length_app in Hl; simpl in Hl; lia | done]].
          intros Hw. apply Hfinal. unfold dict_keys. rewrite fmap_app.
          apply elem_of_app. by left.
  Qed.
End MergeAdded.

(** With the counters in place, no word with an empty list of candidates
    and an object in the store per curated word, [merge_entries] returns
    the curated mapping followed by the words it adds, with no word twice.
    Each added word is a word of the analyzer that the curated mapping
    lacks; the store grows by one object per added word, and that object has
    the word, the source [freeling] and the frequency 1. *)
Theorem merge_adds_only_analyzer_words
    (current : dict pystr loc) (freeling_candidates : dict pystr (list Candidate))
    (doozan_vocab : gset pystr) (doozan_raw : dict pystr Z)
    (h : heap) (stats : stats_t) :
  counters_ready stats →
  Forall (λ item, item.2 ≠ []) freeling_candidates →
  dict_wf current h →
  ∃ final h' stats' extra,
    merge_entries current freeling_candidates doozan_vocab doozan_raw h stats
      = Ok (final, h', stats')
    ∧ final = current ++ extra
    ∧ NoDup (dict_keys final)
    ∧ length h' = (length h + length extra)%nat
    ∧ ∀ w l, (w, l) ∈ extra →
        w ∈ dict_keys freeling_candidates ∧ (w ∉ dict_keys current)
        ∧ (length h ≤ l < length h')%nat
        ∧ e_word (h' !!! l) = w
        ∧ e_source (h' !!! l) = lit "freeling"
        ∧ e_frequency (h' !!! l) = 1.
Proof.
  intros Hready HF Hwf.
  destruct (merge_loop_total current doozan_vocab doozan_raw freeling_candidates
              current h stats Hready HF) as (final & h' & stats' & Hmerge & _).
  destruct (merge_loop_added _ _ _ _ _ _ _ _ _ _ Hmerge Hwf)
    as (extra & Hfinal & Hlen & Hextra).
  destruct (merge_loop_wf _ _ _ _ _ _ _ _ _ _ Hmerge Hwf) as [(Hnd & _) _].
  exists final, h', stats', extra.
  split; [exact Hmerge |]. split; [exact Hfinal |]. split; [exact Hnd |].
  split; [exact Hlen | exact Hextra].
Qed.

Lemma merge_adds_only_analyzer_words_witness :
  ∃ final h' stats' extra,
    merge_entries casa_current perro_candidates casa_vocab casa_raw casa_store
                  (initial_stats 1) = Ok (final, h', stats')
    ∧ final = casa_current ++ extra
    ∧ NoDup (dict_keys final)
    ∧ length h' = (length casa_store + length extra)%nat
    ∧ ∀ w l, (w, l) ∈ extra →
        w ∈ dict_keys perro_candidates ∧ (w ∉ dict_keys casa_current)
        ∧ (length casa_store ≤ l < length h')%nat
        ∧ e_word (h' !!! l) = w
        ∧ e_source (h' !!! l) = lit "freeling"
        ∧ e_frequency (h' !!! l) = 1.
Proof.
  apply (merge_adds_only_analyzer_words casa_current perro_candidates casa_vocab
           casa_raw casa_store (initial_stats 1)).
  - apply initial_stats_ready.
  - by apply Forall_singleton.
  - apply casa_current_wf.
Defined.
